(** * Quaternion conversions: a shallow embedding of [quaternion/__init__.py]

    The module converts between quaternions and rotation matrices,
    axis-angle vectors and Euler angles, rotates vectors and compares
    arrays with a tolerance.

    - Components are IEEE-754 binary64 numbers: the kernel's primitive
      floats, with their infinities, signed zeros and NaN.
    - Exceptions are values of an error monad; a function either raises
      or returns.
    - A NumPy array is a shape and the list of its elements in row-major
      order; views and copies are not told apart.  Of the memory layout
      only what [ndarray.view] asks of a quaternion array is kept: whether
      its last axis is contiguous.
    - The compiled quaternion type ([numpy_quaternion], written in C) is
      not part of the Python module: its squared norm and its product
      by a scalar follow the specification; its tolerance [_eps], its
      functions [log], [exp] and [normalized], and the functions of the
      mathematical library that the primitive floats lack ([pow],
      [arctan2], [arccos]) are parameters, and so is the way [np.einsum]
      adds up products. *)

From Stdlib Require Import Floats ZArith List Bool Lia PeanoNat.
Import ListNotations.
Set Warnings "-inexact-float".

(** ** Exceptions *)

Inductive exn : Set :=
| ZeroDivisionError
| OverflowError
| ValueError
| IndexError
| AttributeError.

Inductive result (A : Type) : Type :=
| Ok (a : A)
| Raise (e : exn).

Arguments Ok {A} a.
Arguments Raise {A} e.

Definition bind {A B : Type} (r : result A) (k : A -> result B) : result B :=
  match r with
  | Ok a => k a
  | Raise e => Raise e
  end.

Notation "v <- r ;; k" := (bind r (fun v => k))
  (at level 61, r at next level, right associativity).

(** ** Python's [float] operators

    Attribute access on a scalar quaternion ([q.x], [q.norm()]) yields
    Python floats.  Their [*], [+] and [-] never raise; [/] raises on a
    zero divisor and [**] raises when a finite base overflows. *)

Module Py.

Open Scope float_scope.

(** [a / b] on Python floats. *)
Definition truediv (a b : float) : result float :=
  if b =? 0 then Raise ZeroDivisionError else Ok (a / b).

Section Pow.

(** [pow] of the C library, which Python's [**] calls on floats.  It is
    not correctly rounded: [pow a 2] need not be the product [a * a]. *)
Variable pow : float -> float -> float.

(** [a ** 2] on Python floats: [pow(a, 2.0)], except that a finite [a]
    whose square is out of range raises [OverflowError]. *)
Definition pow2 (a : float) : result float :=
  if is_infinity (a * a) && negb (is_infinity a) then Raise OverflowError
  else Ok (pow a 2).

End Pow.

End Py.

(** ** NumPy arrays *)

Record ndarray (A : Type) : Type := mk_ndarray {
  shape : list nat;
  data : list A
}.

Arguments mk_ndarray {A} shape data.
Arguments shape {A} n.
Arguments data {A} n.

(** Number of elements of an array of the given shape. *)
Definition size (s : list nat) : nat := fold_right Nat.mul 1 s.

Definition ndim {A : Type} (a : ndarray A) : nat := length (shape a).

(** The data list holds exactly the elements the shape announces. *)
Definition wf {A : Type} (a : ndarray A) : Prop :=
  length (data a) = size (shape a).

(** ** The quaternion value type *)

Record quaternion : Set := mk_quaternion {
  w : float;
  x : float;
  y : float;
  z : float
}.

Definition zero : quaternion := mk_quaternion 0 0 0 0.
Definition one : quaternion := mk_quaternion 1 0 0 0.

Open Scope float_scope.

(** Modelled from the spec: [norm] of the compiled quaternion type, the
    squared norm [w^2 + x^2 + y^2 + z^2] (section 4.1). *)
Definition norm (q : quaternion) : float :=
  w q * w q + x q * x q + y q * y q + z q * z q.

(** The four components in storage order, as the float view exposes
    them. *)
Definition components (q : quaternion) : list float :=
  [w q; x q; y q; z q].

(** What a function of the module may receive where it says
    "quaternion or array of quaternions": one quaternion, an array whose
    last axis is contiguous in memory (what [np.array], [np.empty], a copy
    or a view of such an array along its leading axes give), or an array
    whose last axis is not contiguous.  For the latter [innermost] tells
    whether the last axis still is the one of the smallest stride (a slice
    with a step, as [a[::2]]) or not (a transpose, Fortran order). *)
Inductive qvalue : Type :=
| QScalar (q : quaternion)
| QArray (a : ndarray quaternion)
| QStrided (innermost : bool) (a : ndarray quaternion).

(** ** [as_rotation_matrix], one quaternion *)

Section ScalarRotationMatrix.

Variable pow : float -> float -> float.

(** The tolerance [_eps] exported by the compiled quaternion type. *)
Variable _eps : float.

(** The branch for an input that "is basically normalized". *)
Definition rotation_matrix_unit (q : quaternion) : result (ndarray float) :=
  y2 <- Py.pow2 pow (y q) ;; z2 <- Py.pow2 pow (z q) ;;
  let m00 := 1 - 2 * (y2 + z2) in
  let m01 := 2 * (x q * y q - z q * w q) in
  let m02 := 2 * (x q * z q + y q * w q) in
  let m10 := 2 * (x q * y q + z q * w q) in
  x2 <- Py.pow2 pow (x q) ;; z2' <- Py.pow2 pow (z q) ;;
  let m11 := 1 - 2 * (x2 + z2') in
  let m12 := 2 * (y q * z q - x q * w q) in
  let m20 := 2 * (x q * z q - y q * w q) in
  let m21 := 2 * (y q * z q + x q * w q) in
  x2' <- Py.pow2 pow (x q) ;; y2' <- Py.pow2 pow (y q) ;;
  let m22 := 1 - 2 * (x2' + y2') in
  Ok (mk_ndarray [3; 3] [m00; m01; m02; m10; m11; m12; m20; m21; m22])%nat.

(** The branch for an input that "is not normalized". *)
Definition rotation_matrix_general (q : quaternion) (n : float)
  : result (ndarray float) :=
  y2 <- Py.pow2 pow (y q) ;; z2 <- Py.pow2 pow (z q) ;;
  t00 <- Py.truediv (2 * (y2 + z2)) n ;;
  let m00 := 1 - t00 in
  m01 <- Py.truediv (2 * (x q * y q - z q * w q)) n ;;
  m02 <- Py.truediv (2 * (x q * z q + y q * w q)) n ;;
  m10 <- Py.truediv (2 * (x q * y q + z q * w q)) n ;;
  x2 <- Py.pow2 pow (x q) ;; z2' <- Py.pow2 pow (z q) ;;
  t11 <- Py.truediv (2 * (x2 + z2')) n ;;
  let m11 := 1 - t11 in
  m12 <- Py.truediv (2 * (y q * z q - x q * w q)) n ;;
  m20 <- Py.truediv (2 * (x q * z q - y q * w q)) n ;;
  m21 <- Py.truediv (2 * (y q * z q + x q * w q)) n ;;
  x2' <- Py.pow2 pow (x q) ;; y2' <- Py.pow2 pow (y q) ;;
  t22 <- Py.truediv (2 * (x2' + y2')) n ;;
  let m22 := 1 - t22 in
  Ok (mk_ndarray [3; 3] [m00; m01; m02; m10; m11; m12; m20; m21; m22])%nat.

(** The body of [as_rotation_matrix] under
    [q.shape == () and not isinstance(q, np.ndarray)]. *)
Definition as_rotation_matrix_scalar (q : quaternion)
  : result (ndarray float) :=
  let n := norm q in
  if n =? 0 then Raise ZeroDivisionError
  else if abs (n - 1) <? _eps then rotation_matrix_unit q
  else rotation_matrix_general q n.

End ScalarRotationMatrix.

(** ** Array primitives supplied by NumPy

    Arrays are stored in C order: the last index varies fastest. *)

Definition tabulate {A : Type} (n : nat) (f : nat -> A) : list A :=
  map f (seq 0 n).

(** [np.unravel_index] and its inverse, for C order. *)
Fixpoint unravel (i : nat) (s : list nat) : list nat :=
  match s with
  | [] => []
  | _ :: s' => (i / size s')%nat :: unravel (i mod size s')%nat s'
  end.

Fixpoint ravel (idx s : list nat) : nat :=
  match idx, s with
  | k :: idx', _ :: s' => (k * size s' + ravel idx' s')%nat
  | _, _ => 0%nat
  end.

(** Broadcasting of two shapes, read from their last axis backwards. *)
Fixpoint broadcast_rev (s t : list nat) : option (list nat) :=
  match s, t with
  | [], _ => Some t
  | _, [] => Some s
  | a :: s', b :: t' =>
      match broadcast_rev s' t' with
      | None => None
      | Some r =>
          if (a =? b)%nat then Some (a :: r)
          else if (a =? 1)%nat then Some (b :: r)
          else if (b =? 1)%nat then Some (a :: r)
          else None
      end
  end.

Definition broadcast_shapes (s t : list nat) : option (list nat) :=
  option_map (@rev nat) (broadcast_rev (rev s) (rev t)).

(** The index into an operand of shape [s] that an index [idx] of the
    broadcast result reads: the trailing axes, with stretched axes (of
    length one) pinned to zero. *)
Definition project (idx s : list nat) : list nat :=
  map (fun kd => if (snd kd =? 1)%nat then 0%nat else fst kd)
      (combine (skipn (length idx - length s) idx) s).

Definition broadcast_to {A : Type} (d : A) (a : ndarray A) (r : list nat)
  : ndarray A :=
  mk_ndarray r
    (tabulate (size r)
       (fun i => nth (ravel (project (unravel i r) (shape a)) (shape a))
                     (data a) d)).

Fixpoint map2 {A B C : Type} (f : A -> B -> C) (l : list A) (l' : list B)
  : list C :=
  match l, l' with
  | a :: t, b :: t' => f a b :: map2 f t t'
  | _, _ => []
  end.

(** A binary ufunc on two float arrays. *)
Definition np_binop (f : float -> float -> float) (a b : ndarray float)
  : result (ndarray float) :=
  match broadcast_shapes (shape a) (shape b) with
  | None => Raise ValueError
  | Some r =>
      Ok (mk_ndarray r
            (map2 f (data (broadcast_to 0 a r)) (data (broadcast_to 0 b r))))
  end.

(** A unary ufunc, or a binary one with a Python scalar on one side. *)
Definition np_map {A B : Type} (f : A -> B) (a : ndarray A) : ndarray B :=
  mk_ndarray (shape a) (map f (data a)).

(** [np.empty(s)]: an array whose contents are whatever [junk] the
    allocator left there. *)
Definition np_empty (junk : nat -> float) (s : list nat) : ndarray float :=
  mk_ndarray s (tabulate (size s) junk).

(** [np.zeros(s)]. *)
Definition np_zeros (s : list nat) : ndarray float :=
  mk_ndarray s (repeat 0 (size s)).

(** [np.atleast_1d(a)]. *)
Definition atleast_1d {A : Type} (a : ndarray A) : ndarray A :=
  match shape a with
  | [] => mk_ndarray [1%nat] (data a)
  | _ => a
  end.

(** [a.reshape(s)]. *)
Definition reshape {A : Type} (s : list nat) (a : ndarray A)
  : result (ndarray A) :=
  if (size s =? size (shape a))%nat then Ok (mk_ndarray s (data a))
  else Raise ValueError.

(** [a[..., k]] for a constant [k >= 0]. *)
Definition getitem_last {A : Type} (d : A) (k : nat) (a : ndarray A)
  : result (ndarray A) :=
  match rev (shape a) with
  | [] => Raise IndexError
  | n :: rs =>
      if (k <? n)%nat then
        Ok (mk_ndarray (rev rs)
              (tabulate (size (rev rs))
                 (fun p => nth (p * n + k)%nat (data a) d)))
      else Raise IndexError
  end.

(** [a[..., k:]] for a constant [k >= 0]. *)
Definition getslice_last_from {A : Type} (d : A) (k : nat) (a : ndarray A)
  : result (ndarray A) :=
  match rev (shape a) with
  | [] => Raise IndexError
  | n :: rs =>
      let n' := (n - k)%nat in
      Ok (mk_ndarray (rev rs ++ [n'])
            (tabulate (size (rev rs) * n')
               (fun t => nth (t / n' * n + (k + t mod n'))%nat (data a) d)))
  end.

(** The value [v] as it is stored into a target of shape [s]: unit axes
    on the left of [v] in excess of the target's are dropped, and the rest
    must broadcast to [s] exactly. *)
Fixpoint strip_ones (excess : nat) (s : list nat) : list nat :=
  match excess, s with
  | S e, 1%nat :: s' => strip_ones e s'
  | _, _ => s
  end.

Definition list_eqb (s t : list nat) : bool :=
  if list_eq_dec Nat.eq_dec s t then true else false.

Definition assignable (v : ndarray float) (s : list nat)
  : result (ndarray float) :=
  let vs := strip_ones (length (shape v) - length s) (shape v) in
  match broadcast_shapes vs s with
  | Some r =>
      if list_eqb r s then Ok (broadcast_to 0 (mk_ndarray vs (data v)) s)
      else Raise ValueError
  | None => Raise ValueError
  end.

(** [m[..., i1, .., ik] = v]: the trailing [k] axes of [m] are indexed by
    the constants [idx], the leading ones receive [v]. *)
Definition setitem_last (idx : list nat) (v m : ndarray float)
  : result (ndarray float) :=
  let k := length idx in
  let lead := firstn (ndim m - k) (shape m) in
  let tail := skipn (ndim m - k) (shape m) in
  if (ndim m <? k)%nat || negb (forallb id (map2 Nat.ltb idx tail))
  then Raise IndexError
  else
    v' <- assignable v lead ;;
    Ok (mk_ndarray (shape m)
          (tabulate (length (data m))
             (fun t =>
                if (t mod size tail =? ravel idx tail)%nat
                then nth (t / size tail) (data v') 0
                else nth t (data m) 0))).

(** [m[..., k:] = v] for a constant [k >= 0]. *)
Definition setslice_last_from (k : nat) (v m : ndarray float)
  : result (ndarray float) :=
  match rev (shape m) with
  | [] => Raise IndexError
  | n :: rs =>
      let n' := (n - k)%nat in
      v' <- assignable v (rev rs ++ [n']) ;;
      Ok (mk_ndarray (shape m)
            (tabulate (length (data m))
               (fun t =>
                  if (k <=? t mod n)%nat
                  then nth (t / n * n' + (t mod n - k))%nat (data v') 0
                  else nth t (data m) 0)))
  end.

(** Python's reading of an index of either sign into a sequence of
    length [n]: negative indices count from the end, and an index outside
    [-n .. n-1] raises [IndexError]. *)
Definition normalize_index (n : nat) (i : Z) : result nat :=
  let j := if (i <? 0)%Z then (Z.of_nat n + i)%Z else i in
  if ((0 <=? j)%Z && (j <? Z.of_nat n)%Z)%bool then Ok (Z.to_nat j)
  else Raise IndexError.

(** [l[i]] on a tuple or list. *)
Definition py_index {A : Type} (l : list A) (i : Z) : result A :=
  j <- normalize_index (length l) i ;;
  match nth_error l j with
  | Some a => Ok a
  | None => Raise IndexError
  end.

Fixpoint update {A : Type} (k : nat) (a : A) (l : list A) : list A :=
  match l, k with
  | [], _ => []
  | _ :: t, O => a :: t
  | b :: t, S k' => b :: update k' a t
  end.

(** [l[i] = a] on a list. *)
Definition py_setindex {A : Type} (l : list A) (i : Z) (a : A)
  : result (list A) :=
  j <- normalize_index (length l) i ;;
  Ok (update j a l).

(** ** The memory view bridge *)

(** [np.asarray(q, dtype=np.quaternion)]: a scalar becomes a
    zero-dimensional array. *)
Definition np_asarray (v : qvalue) : ndarray quaternion :=
  match v with
  | QScalar q => mk_ndarray [] [q]
  | QArray a => a
  | QStrided _ a => a
  end.

(** The same call, with the memory layout of its result: an array comes
    back as it is. *)
Definition asarray (v : qvalue) : qvalue :=
  match v with
  | QScalar q => QArray (mk_ndarray [] [q])
  | _ => v
  end.

Definition last_axis_contiguous (v : qvalue) : bool :=
  match v with
  | QStrided _ _ => false
  | _ => true
  end.

(** [q.shape], defined on scalars (where it is [()]) and on arrays. *)
Definition qshape (v : qvalue) : list nat := shape (np_asarray v).

(** A ufunc of the quaternion type ([np.log], [np.exp], [np.normalized],
    or [2 * q]) keeps a scalar a scalar and maps over an array.  Its
    output is a new array that keeps the order of the axes in memory: the
    last axis is contiguous in it exactly when it is the innermost one of
    the input. *)
Definition qmap (f : quaternion -> quaternion) (v : qvalue) : qvalue :=
  match v with
  | QScalar q => QScalar (f q)
  | QArray a => QArray (np_map f a)
  | QStrided true a => QArray (np_map f a)
  | QStrided false a => QStrided false (np_map f a)
  end.

(** [a.view(np.float)]: every quaternion is read as four floats, so the
    last axis grows fourfold.  NumPy refuses it on a 0-d array, and on an
    array whose last axis is not contiguous, unless that axis has length
    one or the array is empty. *)
Definition view_float (contiguous : bool) (a : ndarray quaternion)
  : result (ndarray float) :=
  match rev (shape a) with
  | [] => Raise ValueError
  | n :: rs =>
      if contiguous || (n =? 1)%nat || (size (shape a) =? 0)%nat then
        Ok (mk_ndarray (rev rs ++ [n * 4])%nat
              (flat_map components (data a)))
      else Raise ValueError
  end.

Fixpoint group4 (l : list float) : list quaternion :=
  match l with
  | a :: b :: c :: d :: t => mk_quaternion a b c d :: group4 t
  | _ => []
  end.

(** [a.view(np.quaternion)]: four floats are read as one quaternion; the
    last axis must hold a whole number of them. *)
Definition view_quaternion (a : ndarray float)
  : result (ndarray quaternion) :=
  match rev (shape a) with
  | [] => Raise ValueError
  | n :: rs =>
      if (n mod 4 =? 0)%nat
      then Ok (mk_ndarray (rev rs ++ [n / 4])%nat (group4 (data a)))
      else Raise ValueError
  end.

Definition as_float_array (v : qvalue) : result (ndarray float) :=
  let a := atleast_1d (np_asarray v) in
  match shape a with
  | [] =>
      (* [return a.components]: an ndarray has no such attribute *)
      Raise AttributeError
  | _ =>
      av <- view_float (last_axis_contiguous v) a ;;
      reshape (shape a ++ [4%nat]) av
  end.

(** [np.ascontiguousarray(a, dtype=np.float)] returns a contiguous array
    of at least one dimension; float arrays are viewed only after this
    call, so that their layout needs no model. *)
Definition ascontiguousarray (a : ndarray float) : ndarray float :=
  atleast_1d a.

Definition getitem {A : Type} (a : ndarray A) (i : nat) : result A :=
  match nth_error (data a) i with
  | Some v => Ok v
  | None => Raise IndexError
  end.

Definition as_quat_array (f : ndarray float) : result qvalue :=
  let a := ascontiguousarray f in
  if list_eqb (shape a) [4%nat] then
    a0 <- getitem a 0 ;; a1 <- getitem a 1 ;;
    a2 <- getitem a 2 ;; a3 <- getitem a 3 ;;
    Ok (QScalar (mk_quaternion a0 a1 a2 a3))
  else
    av <- match view_quaternion a with
          | Raise ValueError => view_quaternion a  (* after [a.copy()] *)
          | r => r
          end ;;
    last <- py_index (shape a) (-1) ;;
    if (last =? 4)%nat then
      av' <- reshape (removelast (shape a)) av ;; Ok (QArray av')
    else
      av' <- reshape (removelast (shape a) ++ [last / 4])%nat av ;;
      Ok (QArray av').

(** ** Lifted array arithmetic, as the expressions of the module use it *)

Definition np_add (r1 r2 : result (ndarray float)) : result (ndarray float) :=
  a <- r1 ;; b <- r2 ;; np_binop PrimFloat.add a b.

Definition np_sub (r1 r2 : result (ndarray float)) : result (ndarray float) :=
  a <- r1 ;; b <- r2 ;; np_binop PrimFloat.sub a b.

Definition np_mul (r1 r2 : result (ndarray float)) : result (ndarray float) :=
  a <- r1 ;; b <- r2 ;; np_binop PrimFloat.mul a b.

Definition np_div (r1 r2 : result (ndarray float)) : result (ndarray float) :=
  a <- r1 ;; b <- r2 ;; np_binop PrimFloat.div a b.

Definition np_lift (f : float -> float) (r : result (ndarray float))
  : result (ndarray float) :=
  a <- r ;; Ok (np_map f a).

(** [a ** 2] on a float array. *)
Definition np_square := np_lift (fun t => t * t).

(** ** [as_rotation_matrix] *)

Section RotationMatrix.

Variable pow : float -> float -> float.
Variable _eps : float.
Variable junk : nat -> float.

(** The branch for "an array of quaternions". *)
Definition as_rotation_matrix_array (q : qvalue)
  : result (ndarray float) :=
  let n := np_map norm (np_asarray q) in
  if existsb (fun t => t =? 0) (data n) then Raise ZeroDivisionError
  else
    let m := np_empty junk (qshape q ++ [3; 3])%nat in
    q <- as_float_array q ;;
    let q_ k := getitem_last 0 k q in
    let n := Ok n in
    let two := np_lift (fun t => 2 * t) in
    let one_minus := np_lift (fun t => 1 - t) in
    v <- one_minus (np_div (two (np_add (np_square (q_ 2%nat))
                                         (np_square (q_ 3%nat)))) n) ;;
    m <- setitem_last [0; 0]%nat v m ;;
    v <- np_div (two (np_sub (np_mul (q_ 1%nat) (q_ 2%nat))
                             (np_mul (q_ 3%nat) (q_ 0%nat)))) n ;;
    m <- setitem_last [0; 1]%nat v m ;;
    v <- np_div (two (np_add (np_mul (q_ 1%nat) (q_ 3%nat))
                             (np_mul (q_ 2%nat) (q_ 0%nat)))) n ;;
    m <- setitem_last [0; 2]%nat v m ;;
    v <- np_div (two (np_add (np_mul (q_ 1%nat) (q_ 2%nat))
                             (np_mul (q_ 3%nat) (q_ 0%nat)))) n ;;
    m <- setitem_last [1; 0]%nat v m ;;
    v <- one_minus (np_div (two (np_add (np_square (q_ 1%nat))
                                         (np_square (q_ 3%nat)))) n) ;;
    m <- setitem_last [1; 1]%nat v m ;;
    v <- np_div (two (np_sub (np_mul (q_ 2%nat) (q_ 3%nat))
                             (np_mul (q_ 1%nat) (q_ 0%nat)))) n ;;
    m <- setitem_last [1; 2]%nat v m ;;
    v <- np_div (two (np_sub (np_mul (q_ 1%nat) (q_ 3%nat))
                             (np_mul (q_ 2%nat) (q_ 0%nat)))) n ;;
    m <- setitem_last [2; 0]%nat v m ;;
    v <- np_div (two (np_add (np_mul (q_ 2%nat) (q_ 3%nat))
                             (np_mul (q_ 1%nat) (q_ 0%nat)))) n ;;
    m <- setitem_last [2; 1]%nat v m ;;
    v <- one_minus (np_div (two (np_add (np_square (q_ 1%nat))
                                         (np_square (q_ 2%nat)))) n) ;;
    m <- setitem_last [2; 2]%nat v m ;;
    Ok m.

Definition as_rotation_matrix (v : qvalue) : result (ndarray float) :=
  match v with
  | QScalar q => as_rotation_matrix_scalar pow _eps q
  | _ => as_rotation_matrix_array v
  end.

End RotationMatrix.

(** ** [as_euler_angles] *)

Section EulerAngles.

(** [np.arctan2] and [np.arccos], elementwise, as the platform's
    mathematical library computes them on binary64 numbers. *)
Variable arctan2 : float -> float -> float.
Variable arccos : float -> float.
Variable junk : nat -> float.

Definition np_arctan2 (r1 r2 : result (ndarray float))
  : result (ndarray float) :=
  a <- r1 ;; b <- r2 ;; np_binop arctan2 a b.

Definition as_euler_angles (v : qvalue) : result (ndarray float) :=
  let alpha_beta_gamma := np_empty junk (qshape v ++ [3%nat]) in
  let n := Ok (np_map norm (np_asarray v)) in
  q <- as_float_array v ;;
  let q_ k := getitem_last 0 k q in
  let neg := np_lift (fun t => - t) in
  a <- np_add (np_arctan2 (q_ 3%nat) (q_ 0%nat))
              (np_arctan2 (neg (q_ 1%nat)) (q_ 2%nat)) ;;
  abg <- setitem_last [0%nat] a alpha_beta_gamma ;;
  b <- np_lift (fun t => 2 * t)
         (np_lift arccos
            (np_lift sqrt
               (np_div (np_add (np_square (q_ 0%nat)) (np_square (q_ 3%nat)))
                       n))) ;;
  abg <- setitem_last [1%nat] b abg ;;
  c <- np_sub (np_arctan2 (q_ 3%nat) (q_ 0%nat))
              (np_arctan2 (neg (q_ 1%nat)) (q_ 2%nat)) ;;
  abg <- setitem_last [2%nat] c abg ;;
  Ok abg.

End EulerAngles.

(** ** [as_rotation_vector] and [from_rotation_vector] *)

(** Modelled from the spec: multiplication of a quaternion by a real
    scalar, componentwise (section 4.1). *)
Definition scalar_multiply (s : float) (q : quaternion) : quaternion :=
  mk_quaternion (s * w q) (s * x q) (s * y q) (s * z q).

Section RotationVector.

(** The quaternion ufuncs [np.log], [np.normalized] and [np.exp] of the
    compiled quaternion type, one quaternion at a time. *)
Variable quaternion_log : quaternion -> quaternion.
Variable quaternion_normalized : quaternion -> quaternion.
Variable quaternion_exp : quaternion -> quaternion.

Definition as_rotation_vector (q : qvalue) : result (ndarray float) :=
  f <- as_float_array
         (qmap (scalar_multiply 2)
            (qmap quaternion_log (qmap quaternion_normalized q))) ;;
  getslice_last_from 0 1 f.

Definition from_rotation_vector (rot : ndarray float) : result qvalue :=
  let quats := np_zeros (removelast (shape rot) ++ [4%nat]) in
  quats <- setslice_last_from 1 (np_map (fun t => t / 2) rot) quats ;;
  quats <- as_quat_array quats ;;
  Ok (qmap quaternion_exp quats).

End RotationVector.

(** ** [rotate_vectors] *)

(** The size bound to an axis label, if any. *)
Fixpoint lookup (l : nat) (env : list (nat * nat)) : option nat :=
  match env with
  | [] => None
  | (l', d) :: env' => if (l =? l')%nat then Some d else lookup l env'
  end.

Definition lookup0 (env : list (nat * nat)) (l : nat) : nat :=
  match lookup l env with
  | Some d => d
  | None => 0%nat
  end.

Fixpoint lookup_all (ls : list nat) (env : list (nat * nat))
  : option (list nat) :=
  match ls with
  | [] => Some []
  | l :: ls' =>
      match lookup l env, lookup_all ls' env with
      | Some d, Some ds => Some (d :: ds)
      | _, _ => None
      end
  end.

(** [np.einsum(a, a_axes, b, b_axes, out_axes)] on two operands with
    integer axis labels: labels shared by the operands and absent from the
    output are summed over.  NumPy fixes neither the order in which the
    products are added nor whether a product is rounded before it is
    added: [sum_of_products] stands for what it makes of the pairs of
    factors, listed in index order. *)
Definition einsum (sum_of_products : list (float * float) -> float)
  (a : ndarray float) (a_axes : list nat)
  (b : ndarray float) (b_axes : list nat) (out_axes : list nat)
  : result (ndarray float) :=
  let dims := combine a_axes (shape a) ++ combine b_axes (shape b) in
  if negb ((length a_axes =? ndim a)%nat && (length b_axes =? ndim b)%nat)
  then Raise ValueError
  else if negb (forallb (fun ld => (lookup0 dims (fst ld) =? snd ld)%nat) dims)
  then Raise ValueError
  else
    match lookup_all out_axes dims with
    | None => Raise ValueError
    | Some out_shape =>
        let summed :=
          nodup Nat.eq_dec
            (filter (fun l => negb (existsb (Nat.eqb l) out_axes))
                    (a_axes ++ b_axes)) in
        let sum_shape := map (lookup0 dims) summed in
        Ok (mk_ndarray out_shape
              (tabulate (size out_shape)
                 (fun o =>
                    let env_o := combine out_axes (unravel o out_shape) in
                    sum_of_products
                      (map
                         (fun s =>
                            let env :=
                              combine summed (unravel s sum_shape) ++ env_o in
                            (nth (ravel (map (lookup0 env) a_axes) (shape a))
                                 (data a) 0,
                             nth (ravel (map (lookup0 env) b_axes) (shape b))
                                 (data b) 0))
                         (seq 0 (size sum_shape))))))
    end.

(** One of the sums that [einsum] may compute: from zero, in the order
    of the pairs, each product rounded before it is added. *)
Definition sum_in_order (l : list (float * float)) : float :=
  fold_left (fun acc p => acc + fst p * snd p) l 0.

Section RotateVectors.

Variable pow : float -> float -> float.
Variable _eps : float.
Variable junk : nat -> float.
Variable sum_of_products : list (float * float) -> float.

Definition rotate_vectors (R : qvalue) (v : ndarray float) (axis : Z)
  : result (ndarray float) :=
  let R := asarray R in
  if (ndim v <? 1)%nat || negb (existsb (Nat.eqb 3) (shape v))
  then Raise ValueError
  else
    d <- py_index (shape v) axis ;;
    if negb (d =? 3)%nat then Raise ValueError
    else
      m <- as_rotation_matrix pow _eps junk R ;;
      let m_axes := seq 0 (ndim m) in
      let v_axes := seq (ndim m) (ndim v) in
      let mv_axes := v_axes in
      row <- py_index m_axes (-2) ;;
      mv_axes <- py_setindex mv_axes axis row ;;
      let mv_axes := firstn (length m_axes - 2) m_axes ++ mv_axes in
      col <- py_index m_axes (-1) ;;
      v_axes <- py_setindex v_axes axis col ;;
      einsum sum_of_products m m_axes v v_axes mv_axes.

End RotateVectors.

(** ** [allclose] *)

(** [x[mask]]: the elements of [x] where the boolean [mask] holds. *)
Fixpoint boolean_index {A : Type} (mask : list bool) (l : list A) : list A :=
  match mask, l with
  | b :: mask', a :: l' =>
      if b then a :: boolean_index mask' l' else boolean_index mask' l'
  | _, _ => []
  end.

Definition np_all (l : list bool) : bool := forallb id l.
Definition np_any (l : list bool) : bool := existsb id l.

(** [allclose] on two arrays of one and the same shape, given by their
    elements in row-major order: no operation broadcasts and no index is
    refused, so that a verdict always comes back.  [verbose] only prints
    and is left out. *)
Definition allclose (a b : list float) (rtol atol : float) : bool :=
  let xinf := map is_infinity a in
  let yinf := map is_infinity b in
  let within u v := PrimFloat.leb (abs (u - v)) (atol + rtol * abs v) in
  if np_any xinf || np_any yinf then
    if negb (np_all (map2 Bool.eqb xinf yinf)) then false
    else if negb (np_all (map2 PrimFloat.eqb (boolean_index xinf a)
                                            (boolean_index xinf b)))
    then false
    else
      let a' := boolean_index (map negb xinf) a in
      let b' := boolean_index (map negb xinf) b in
      np_all (map2 within a' b')
  else np_all (map2 within a b).

(** An elementwise operation on two one-dimensional arrays: lengths that
    differ are accepted when one of them is one, and that array is
    stretched. *)
Definition broadcast_1d {A B C : Type} (f : A -> B -> C)
  (a : list A) (b : list B) : option (list C) :=
  if (length a =? length b)%nat then Some (map2 f a b)
  else match a, b with
       | [u], _ => Some (map (f u) b)
       | _, [v] => Some (map (fun u => f u v) a)
       | _, _ => None
       end.

(** [y[mask]] on a one-dimensional array: the mask must have the length
    of the array. *)
Definition getitem_mask {A : Type} (mask : list bool) (l : list A)
  : result (list A) :=
  if (length mask =? length l)%nat then Ok (boolean_index mask l)
  else Raise IndexError.

Section Allclose1d.

(** What [np.all(xinf == yinf)] gives on shapes that cannot be broadcast:
    [False] in the versions of NumPy that only warn, [ValueError] in the
    later ones. *)
Variable mismatched_eq : result bool.

(** [allclose] on two one-dimensional arrays of any lengths. *)
Definition allclose_1d (a b : list float) (rtol atol : float)
  : result bool :=
  let xinf := map is_infinity a in
  let yinf := map is_infinity b in
  let within u v := PrimFloat.leb (abs (u - v)) (atol + rtol * abs v) in
  let compare x y :=
    match broadcast_1d within x y with
    | Some r => Ok (np_all r)
    | None => Raise ValueError
    end in
  if np_any xinf || np_any yinf then
    same <- match broadcast_1d Bool.eqb xinf yinf with
            | Some r => Ok (np_all r)
            | None => mismatched_eq
            end ;;
    if negb same then Ok false
    else
      yi <- getitem_mask xinf b ;;
      if negb (np_all (map2 PrimFloat.eqb (boolean_index xinf a) yi))
      then Ok false
      else
        y' <- getitem_mask (map negb xinf) b ;;
        compare (boolean_index (map negb xinf) a) y'
  else compare a b.

End Allclose1d.

(** ** What the specification says, for comparison *)

(** The entries of section 4.3, rows first, with every term divided by
    the squared norm [n]. *)
Definition spec_matrix_general (q : quaternion) (n : float) : list float :=
  [ 1 - 2 * (y q * y q + z q * z q) / n;
    2 * (x q * y q - z q * w q) / n;
    2 * (x q * z q + y q * w q) / n;
    2 * (x q * y q + z q * w q) / n;
    1 - 2 * (x q * x q + z q * z q) / n;
    2 * (y q * z q - x q * w q) / n;
    2 * (x q * z q - y q * w q) / n;
    2 * (y q * z q + x q * w q) / n;
    1 - 2 * (x q * x q + y q * y q) / n ].

(** The same entries for a unit quaternion, without the division. *)
Definition spec_matrix_unit (q : quaternion) : list float :=
  [ 1 - 2 * (y q * y q + z q * z q);
    2 * (x q * y q - z q * w q);
    2 * (x q * z q + y q * w q);
    2 * (x q * y q + z q * w q);
    1 - 2 * (x q * x q + z q * z q);
    2 * (y q * z q - x q * w q);
    2 * (x q * z q - y q * w q);
    2 * (y q * z q + x q * w q);
    1 - 2 * (x q * x q + y q * y q) ].

Definition spec_rotation_matrix (eps : float) (q : quaternion)
  : ndarray float :=
  let n := norm q in
  mk_ndarray [3; 3]%nat
    (if abs (n - 1) <? eps then spec_matrix_unit q
     else spec_matrix_general q n).

(** The square of [a] is representable: Python's [a ** 2] does not
    raise. *)
Definition square_in_range (a : float) : Prop :=
  is_infinity (a * a) && negb (is_infinity a) = false.

(** The entries of section 4.3 as the branch for one quaternion computes
    them: the squares are those of [sq], which is [a ** 2] there. *)
Definition matrix_general_with (sq : float -> float) (q : quaternion)
  (n : float) : list float :=
  [ 1 - 2 * (sq (y q) + sq (z q)) / n;
    2 * (x q * y q - z q * w q) / n;
    2 * (x q * z q + y q * w q) / n;
    2 * (x q * y q + z q * w q) / n;
    1 - 2 * (sq (x q) + sq (z q)) / n;
    2 * (y q * z q - x q * w q) / n;
    2 * (x q * z q - y q * w q) / n;
    2 * (y q * z q + x q * w q) / n;
    1 - 2 * (sq (x q) + sq (y q)) / n ].

Definition matrix_unit_with (sq : float -> float) (q : quaternion)
  : list float :=
  [ 1 - 2 * (sq (y q) + sq (z q));
    2 * (x q * y q - z q * w q);
    2 * (x q * z q + y q * w q);
    2 * (x q * y q + z q * w q);
    1 - 2 * (sq (x q) + sq (z q));
    2 * (y q * z q - x q * w q);
    2 * (x q * z q - y q * w q);
    2 * (y q * z q + x q * w q);
    1 - 2 * (sq (x q) + sq (y q)) ].

Definition scalar_rotation_matrix (pow : float -> float -> float)
  (eps : float) (q : quaternion) : ndarray float :=
  let n := norm q in
  mk_ndarray [3; 3]%nat
    (if abs (n - 1) <? eps then matrix_unit_with (fun a => pow a 2) q
     else matrix_general_with (fun a => pow a 2) q n).

(** Some quaternion of the input has a squared norm equal to [0.0]. *)
Definition has_zero_norm (v : qvalue) : Prop :=
  match v with
  | QScalar q => (norm q =? 0) = true
  | _ => Exists (fun q => (norm q =? 0) = true) (data (np_asarray v))
  end.

Definition within_tolerance (rtol atol u v : float) : bool :=
  abs (u - v) <=? atol + rtol * abs v.

(** [u] and [v] are both infinite, with the same sign, or neither is. *)
Definition same_infinity (u v : float) : Prop :=
  is_infinity u = is_infinity v
  /\ (is_infinity u = true -> get_sign u = get_sign v).

(** A position that does not hold an infinity passes the comparison. *)
Definition close_unless_infinite (rtol atol u v : float) : Prop :=
  is_infinity u = false -> within_tolerance rtol atol u v = true.

Definition allclose_spec (rtol atol : float) (a b : list float) : Prop :=
  Forall2 same_infinity a b /\ Forall2 (close_unless_infinite rtol atol) a b.

(** [m[..., idx] = v] seen on the data: the elements of [v] land at
    offset [off] of the successive blocks of [B] elements. *)
Definition scatter (B off : nat) (v old : list float) : list float :=
  tabulate (length old)
    (fun t => if (t mod B =? off)%nat then nth (t / B) v 0 else nth t old 0).

(** One number per quaternion of an array of shape [s] and elements
    [l]: the image of the array under a function of one quaternion. *)
Definition column (s : list nat) (l : list quaternion)
  (h : quaternion -> float) : ndarray float :=
  mk_ndarray s (map h l).

(** A result that is not a zero-division error. *)
Definition no_zero_division {A : Type} (r : result A) : Prop :=
  r <> Raise ZeroDivisionError.

(** The triple of section 4.4, for one quaternion. *)
Definition spec_euler_angles (arctan2 : float -> float -> float)
  (arccos : float -> float) (q : quaternion) : list float :=
  let n := norm q in
  [ arctan2 (z q) (w q) + arctan2 (- x q) (y q);
    2 * arccos (sqrt ((w q * w q + z q * z q) / n));
    arctan2 (z q) (w q) - arctan2 (- x q) (y q) ].

Definition vector_part (q : quaternion) : list float := [x q; y q; z q].

(** What section 4.4 asks of one quaternion: the vector part of
    [2 log(normalize(q))]. *)
Definition spec_rotation_vector
  (quaternion_log quaternion_normalized : quaternion -> quaternion)
  (q : quaternion) : list float :=
  vector_part (scalar_multiply 2 (quaternion_log (quaternion_normalized q))).

(** Every label is bound to one size only. *)
Definition functional (env : list (nat * nat)) : Prop :=
  forall l d d', In (l, d) env -> In (l, d') env -> d = d'.


(** ** [as_spinor_array] and [as_spherical_coords] *)

(** A complex number, as NumPy stores it: real part first. *)
Record complex : Set := mk_complex {
  real : float;
  imag : float
}.

(** [a[..., idxs]] for a list of constants [idxs]: the last axis is
    re-read in the order of [idxs]. *)
Definition take_last {A : Type} (d : A) (idxs : list nat) (a : ndarray A)
  : result (ndarray A) :=
  match rev (shape a) with
  | [] => Raise IndexError
  | n :: rs =>
      if forallb (fun k => (k <? n)%nat) idxs then
        let n' := length idxs in
        Ok (mk_ndarray (rev rs ++ [n'])
              (tabulate (size (rev rs) * n')
                 (fun t =>
                    nth (t / n' * n + nth (t mod n') idxs 0)%nat (data a) d)))
      else Raise IndexError
  end.

(** [a.ravel()]. *)
Definition np_ravel {A : Type} (a : ndarray A) : ndarray A :=
  mk_ndarray [size (shape a)] (data a).

Fixpoint group2 (l : list float) : list complex :=
  match l with
  | a :: b :: t => mk_complex a b :: group2 t
  | _ => []
  end.

(** [a.view(np.complex)]: two floats are read as one complex number. *)
Definition view_complex (a : ndarray float) : result (ndarray complex) :=
  match rev (shape a) with
  | [] => Raise ValueError
  | n :: rs =>
      if (n mod 2 =? 0)%nat
      then Ok (mk_ndarray (rev rs ++ [n / 2])%nat (group2 (data a)))
      else Raise ValueError
  end.

Definition as_spinor_array (v : qvalue) : result (ndarray complex) :=
  let a := atleast_1d (np_asarray v) in
  f <- view_float (last_axis_contiguous v) a ;;
  f <- reshape (shape a ++ [4%nat]) f ;;
  f <- take_last 0 [0; 3; 2; 1]%nat f ;;
  c <- view_complex (np_ravel f) ;;
  reshape (shape a ++ [2%nat]) c.

(** [a[..., k::-1]] for a constant [k >= 0]: the last axis is read
    backwards from index [k] (or from its end, if it is shorter) down to
    index 0. *)
Definition getslice_last_down_from {A : Type} (d : A) (k : nat)
  (a : ndarray A) : result (ndarray A) :=
  match rev (shape a) with
  | [] => Raise IndexError
  | n :: rs =>
      let n' := Nat.min (k + 1) n in
      Ok (mk_ndarray (rev rs ++ [n'])
            (tabulate (size (rev rs) * n')
               (fun t =>
                  nth (t / n' * n + (n' - 1 - t mod n'))%nat (data a) d)))
  end.

Section SphericalCoords.

Variable arctan2 : float -> float -> float.
Variable arccos : float -> float.
Variable junk : nat -> float.

Definition as_spherical_coords (q : qvalue) : result (ndarray float) :=
  e <- as_euler_angles arctan2 arccos junk q ;;
  getslice_last_down_from 0 1 e.

End SphericalCoords.

(** What [as_quat_array] returns for an array whose (at least
    one-dimensional) shape is [s ++ [n]] and whose elements are [l]. *)
Definition as_quat_array_outcome (s : list nat) (n : nat) (l : list float)
  : result qvalue :=
  if negb (n mod 4 =? 0)%nat then Raise ValueError
  else
    match s, (n =? 4)%nat with
    | [], true => Ok (QScalar (hd zero (group4 l)))
    | _, true => Ok (QArray (mk_ndarray s (group4 l)))
    | _, false => Ok (QArray (mk_ndarray (s ++ [n / 4])%nat (group4 l)))
    end.

(** The spinor of one quaternion: the pair [(w + i z, y + i x)]. *)
Definition spinor (q : quaternion) : list complex :=
  [mk_complex (w q) (z q); mk_complex (y q) (x q)].

(** The spherical coordinates of one quaternion: the second and the
    first of its Euler angles. *)
Definition spec_spherical_coords (arctan2 : float -> float -> float)
  (arccos : float -> float) (q : quaternion) : list float :=
  [ 2 * arccos (sqrt ((w q * w q + z q * z q) / norm q));
    arctan2 (z q) (w q) + arctan2 (- x q) (y q) ].

(** The quaternions [(0, v / 2)] built from the 3-vectors stored one
    after the other in [l]. *)
Fixpoint half_vectors (l : list float) : list quaternion :=
  match l with
  | a :: b :: c :: t => mk_quaternion 0 (a / 2) (b / 2) (c / 2) :: half_vectors t
  | _ => []
  end.

(** ** [from_rotation_matrix] *)

(** [a[..., i, j]] for constants [i, j >= 0]. *)
Definition getitem_last2 {A : Type} (d : A) (i j : nat) (a : ndarray A)
  : result (ndarray A) :=
  match rev (shape a) with
  | n2 :: n1 :: rs =>
      if (i <? n1)%nat && (j <? n2)%nat then
        Ok (mk_ndarray (rev rs)
              (tabulate (size (rev rs))
                 (fun p => nth (p * (n1 * n2) + (i * n2 + j))%nat (data a) d)))
      else Raise IndexError
  | _ => Raise IndexError
  end.

(** The loop of NumPy's [argmax] on floats, after the first element: an
    element replaces the greatest one seen so far unless it is less than
    or equal to it, and a NaN ends the search. *)
Fixpoint argmax_from (mp : float) (max_ind i : nat) (l : list float) : nat :=
  match l with
  | [] => max_ind
  | a :: t =>
      if negb (a <=? mp) then
        if is_nan a then i else argmax_from a i (S i) t
      else argmax_from mp max_ind (S i) t
  end.

Definition argmax (l : list float) : nat :=
  match l with
  | [] => 0%nat
  | a :: t => if is_nan a then 0%nat else argmax_from a 0 1 t
  end.

(** The [p]-th run of [B] consecutive elements. *)
Definition block {A : Type} (B p : nat) (l : list A) : list A :=
  firstn B (skipn (p * B) l).

(** [np.argmax(a, axis=-1)]. *)
Definition np_argmax_last (a : ndarray float) : result (ndarray nat) :=
  match rev (shape a) with
  | [] => Ok (mk_ndarray [] [0%nat])
  | n :: rs =>
      if (n =? 0)%nat then Raise ValueError
      else
        Ok (mk_ndarray (rev rs)
              (tabulate (size (rev rs))
                 (fun p => argmax (block n p (data a)))))
  end.

(** What stands first in the subscripts of the direct algorithm: a
    boolean mask over the leading axes, or [Ellipsis]. *)
Inductive subscript : Type :=
| Ellipsis
| Mask (m : ndarray bool).

Definition count_true (m : list bool) : nat := length (filter id m).

(** [a[idx, :, :]]. *)
Definition getitem_matrices (idx : subscript) (a : ndarray float)
  : result (ndarray float) :=
  match idx with
  | Ellipsis => if (ndim a <? 2)%nat then Raise IndexError else Ok a
  | Mask m =>
      let k := ndim m in
      if (ndim a <? k + 2)%nat || negb (list_eqb (firstn k (shape a)) (shape m))
      then Raise IndexError
      else
        let tail := skipn k (shape a) in
        let sel :=
          boolean_index (data m)
            (tabulate (size (shape m))
               (fun p => block (size tail) p (data a))) in
        Ok (mk_ndarray (length sel :: tail) (concat sel))
  end.

(** [q[idx, c] = v] for a constant [c >= 0]. *)
Definition setitem_component (idx : subscript) (c : nat)
  (v q : ndarray float) : result (ndarray float) :=
  match idx with
  | Ellipsis => setitem_last [c] v q
  | Mask m =>
      let k := ndim m in
      match skipn k (shape q) with
      | [] => Raise IndexError
      | n :: rest =>
          if negb (list_eqb (firstn k (shape q)) (shape m))
             || negb (c <? n)%nat
          then Raise IndexError
          else
            let B := size rest in
            v' <- assignable v (count_true (data m) :: rest) ;;
            Ok (mk_ndarray (shape q)
                  (tabulate (length (data q))
                     (fun t =>
                        let p := (t / (n * B))%nat in
                        if nth p (data m) false
                           && ((t / B) mod n =? c)%nat
                        then
                          nth (count_true (firstn p (data m)) * B
                               + t mod B)%nat (data v') 0
                        else nth t (data q) 0)))
      end
  end.

(** [a[..., np.newaxis]]. *)
Definition newaxis_last {A : Type} (a : ndarray A) : ndarray A :=
  mk_ndarray (shape a ++ [1%nat]) (data a).

(** [q /= d]: the quotient must have the shape of [q]. *)
Definition np_itruediv (q d : ndarray float) : result (ndarray float) :=
  r <- np_binop PrimFloat.div q d ;;
  if list_eqb (shape r) (shape q) then Ok r else Raise ValueError.

Section FromRotationMatrix.

Variable junk : nat -> float.

(** [np.linalg.norm] of one row of floats; the order in which NumPy adds
    up the squares is not fixed by the module. *)
Variable linalg_norm : list float -> float.

(** The branch that needs [scipy.linalg.eigh] (Bar-Itzhack's algorithm);
    the solver is not part of the module. *)
Variable bar_itzhack : ndarray float -> result qvalue.

Open Scope nat_scope.

(** [np.linalg.norm(a, axis=-1)]. *)
Definition np_linalg_norm_last (a : ndarray float)
  : result (ndarray float) :=
  match rev (shape a) with
  | [] => Raise ValueError
  | n :: rs =>
      Ok (mk_ndarray (rev rs)
            (tabulate (size (rev rs))
               (fun p => linalg_norm (block n p (data a)))))
  end.

(** One of the four blocks [indices_i = (indices == i); if
    np.any(indices_i): ...], with the right-hand sides of its four
    assignments. *)
Definition markley_case (indices : ndarray nat) (rot : ndarray float)
  (i : nat) (e0 e1 e2 e3 : ndarray float -> result (ndarray float))
  (q : ndarray float) : result (ndarray float) :=
  let indices_i := np_map (fun k => (k =? i)%nat) indices in
  if np_any (data indices_i) then
    let indices_i :=
      if list_eqb (shape indices_i) [] then Ellipsis else Mask indices_i in
    rot_i <- getitem_matrices indices_i rot ;;
    v <- e0 rot_i ;; q <- setitem_component indices_i 0 v q ;;
    v <- e1 rot_i ;; q <- setitem_component indices_i 1 v q ;;
    v <- e2 rot_i ;; q <- setitem_component indices_i 2 v q ;;
    v <- e3 rot_i ;; setitem_component indices_i 3 v q
  else Ok q.

(** [linalg] tells whether [scipy.linalg] could be imported. *)
Definition from_rotation_matrix (linalg : bool) (rot : ndarray float)
  (nonorthogonal : bool) : result qvalue :=
  let shape_ := firstn (ndim rot - 2) (shape rot) in
  if linalg && nonorthogonal then bar_itzhack rot
  else
    let rot_ i j := getitem_last2 0%float i j rot in
    let one_plus := np_lift (fun t => 1 + t)%float in
    let one_minus := np_lift (fun t => 1 - t)%float in
    let diagonals := np_empty junk (shape_ ++ [4]) in
    v <- rot_ 0 0 ;; diagonals <- setitem_last [0] v diagonals ;;
    v <- rot_ 1 1 ;; diagonals <- setitem_last [1] v diagonals ;;
    v <- rot_ 2 2 ;; diagonals <- setitem_last [2] v diagonals ;;
    v <- np_add (np_add (rot_ 0 0) (rot_ 1 1)) (rot_ 2 2) ;;
    diagonals <- setitem_last [3] v diagonals ;;
    indices <- np_argmax_last diagonals ;;
    let q := diagonals in
    q <- markley_case indices rot 0
           (fun rot_i => let r i j := getitem_last2 0%float i j rot_i in
                         np_sub (r 2 1) (r 1 2))
           (fun rot_i => let r i j := getitem_last2 0%float i j rot_i in
                         np_sub (np_sub (one_plus (r 0 0)) (r 1 1)) (r 2 2))
           (fun rot_i => let r i j := getitem_last2 0%float i j rot_i in
                         np_add (r 0 1) (r 1 0))
           (fun rot_i => let r i j := getitem_last2 0%float i j rot_i in
                         np_add (r 0 2) (r 2 0)) q ;;
    q <- markley_case indices rot 1
           (fun rot_i => let r i j := getitem_last2 0%float i j rot_i in
                         np_sub (r 0 2) (r 2 0))
           (fun rot_i => let r i j := getitem_last2 0%float i j rot_i in
                         np_add (r 1 0) (r 0 1))
           (fun rot_i => let r i j := getitem_last2 0%float i j rot_i in
                         np_sub (np_add (one_minus (r 0 0)) (r 1 1)) (r 2 2))
           (fun rot_i => let r i j := getitem_last2 0%float i j rot_i in
                         np_add (r 1 2) (r 2 1)) q ;;
    q <- markley_case indices rot 2
           (fun rot_i => let r i j := getitem_last2 0%float i j rot_i in
                         np_sub (r 1 0) (r 0 1))
           (fun rot_i => let r i j := getitem_last2 0%float i j rot_i in
                         np_add (r 2 0) (r 0 2))
           (fun rot_i => let r i j := getitem_last2 0%float i j rot_i in
                         np_add (r 2 1) (r 1 2))
           (fun rot_i => let r i j := getitem_last2 0%float i j rot_i in
                         np_add (np_sub (one_minus (r 0 0)) (r 1 1)) (r 2 2))
           q ;;
    q <- markley_case indices rot 3
           (fun rot_i => let r i j := getitem_last2 0%float i j rot_i in
                         np_add (np_add (one_plus (r 0 0)) (r 1 1)) (r 2 2))
           (fun rot_i => let r i j := getitem_last2 0%float i j rot_i in
                         np_sub (r 2 1) (r 1 2))
           (fun rot_i => let r i j := getitem_last2 0%float i j rot_i in
                         np_sub (r 0 2) (r 2 0))
           (fun rot_i => let r i j := getitem_last2 0%float i j rot_i in
                         np_sub (r 1 0) (r 0 1)) q ;;
    n <- np_linalg_norm_last q ;;
    q <- np_itruediv q (newaxis_last n) ;;
    as_quat_array q.

End FromRotationMatrix.

(** The entry in row [i] and column [j] of a 3x3 matrix stored row by
    row. *)
Definition entry (m : list float) (i j : nat) : float :=
  nth (3 * i + j) m 0.

(** The four numbers among which the direct algorithm looks for the
    greatest: the diagonal of the matrix and its trace. *)
Definition diagonal_trace (m : list float) : list float :=
  [entry m 0 0; entry m 1 1; entry m 2 2;
   entry m 0 0 + entry m 1 1 + entry m 2 2].

(** The components that the direct algorithm of [from_rotation_matrix]
    gives the matrix [m], before they are normalized. *)
Definition markley_components (m : list float) : list float :=
  match argmax (diagonal_trace m) with
  | 0%nat =>
      [entry m 2 1 - entry m 1 2;
       1 + entry m 0 0 - entry m 1 1 - entry m 2 2;
       entry m 0 1 + entry m 1 0;
       entry m 0 2 + entry m 2 0]
  | 1%nat =>
      [entry m 0 2 - entry m 2 0;
       entry m 1 0 + entry m 0 1;
       1 - entry m 0 0 + entry m 1 1 - entry m 2 2;
       entry m 1 2 + entry m 2 1]
  | 2%nat =>
      [entry m 1 0 - entry m 0 1;
       entry m 2 0 + entry m 0 2;
       entry m 2 1 + entry m 1 2;
       1 - entry m 0 0 - entry m 1 1 + entry m 2 2]
  | _ =>
      [1 + entry m 0 0 + entry m 1 1 + entry m 2 2;
       entry m 2 1 - entry m 1 2;
       entry m 0 2 - entry m 2 0;
       entry m 1 0 - entry m 0 1]
  end.

(** The quaternion of one matrix: its components over their norm. *)
Definition markley (linalg_norm : list float -> float) (m : list float)
  : quaternion :=
  let c := markley_components m in
  let n := linalg_norm c in
  mk_quaternion (nth 0 c 0 / n) (nth 1 c 0 / n) (nth 2 c 0 / n)
    (nth 3 c 0 / n).

(** The components [c] of the elements selected by [mask], overwritten
    with the numbers [v] (one per element, selected or not). *)
Definition mask_scatter (mask : list bool) (c : nat) (v old : list float)
  : list float :=
  tabulate (length old)
    (fun t =>
       if nth (t / 4) mask false && (t mod 4 =? c)%nat
       then nth (t / 4) v 0 else nth t old 0).

(** The four components of the matrices whose greatest candidate has
    index [i], overwritten with the values of [E0 .. E3]. *)
Definition case_data (i : nat) (E0 E1 E2 E3 : list float -> float)
  (M : list (list float)) (old : list float) : list float :=
  tabulate (length old)
    (fun t =>
       let m := nth (t / 4) M [] in
       if (argmax (diagonal_trace m) =? i)%nat
       then nth (t mod 4) [E0 m; E1 m; E2 m; E3 m] 0
       else nth t old 0).

(** ** Theorems: the scalar rotation matrix *)

Lemma pow2_in_range (pow : float -> float -> float) (a : float) :
  square_in_range a -> Py.pow2 pow a = Ok (pow a 2).
Proof.
  unfold square_in_range, Py.pow2. intros H. now rewrite H.
Qed.

Lemma pow2_not_zero_division (pow : float -> float -> float) (a : float) :
  Py.pow2 pow a <> Raise ZeroDivisionError.
Proof.
  unfold Py.pow2.
  destruct (is_infinity (a * a) && negb (is_infinity a)); discriminate.
Qed.

Lemma truediv_nonzero (a n : float) :
  (n =? 0) = false -> Py.truediv a n = Ok (a / n).
Proof.
  unfold Py.truediv. intros H. now rewrite H.
Qed.

(** For a scalar quaternion whose squared norm [n] is not zero and whose
    components [x], [y], [z] have representable squares,
    [as_rotation_matrix] returns the 3x3 matrix of the formulas of the
    specification, with the squares that [**] computes: the formulas
    without division when [|n - 1| < _eps], the formulas dividing by [n]
    otherwise. *)
Lemma as_rotation_matrix_scalar_formulas
  (pow : float -> float -> float) (eps : float) (junk : nat -> float)
  (q : quaternion) :
  (norm q =? 0) = false ->
  square_in_range (x q) -> square_in_range (y q) -> square_in_range (z q) ->
  as_rotation_matrix pow eps junk (QScalar q)
  = Ok (scalar_rotation_matrix pow eps q).
Proof.
  intros Hn Hx Hy Hz.
  unfold as_rotation_matrix, as_rotation_matrix_scalar,
    scalar_rotation_matrix.
  cbv zeta. rewrite Hn.
  destruct (abs (norm q - 1) <? eps).
  - unfold rotation_matrix_unit.
    rewrite !(pow2_in_range _ _ Hx), !(pow2_in_range _ _ Hy),
      !(pow2_in_range _ _ Hz).
    reflexivity.
  - unfold rotation_matrix_general.
    rewrite !(pow2_in_range _ _ Hx), !(pow2_in_range _ _ Hy),
      !(pow2_in_range _ _ Hz).
    cbn [bind]. rewrite !(truediv_nonzero _ _ Hn). reflexivity.
Qed.

Lemma pow2_out_of_range (pow : float -> float -> float) (a : float) :
  ~ square_in_range a -> Py.pow2 pow a = Raise OverflowError.
Proof.
  unfold square_in_range, Py.pow2.
  destruct (is_infinity (a * a) && negb (is_infinity a)); [reflexivity|].
  intros H. now destruct H.
Qed.

Lemma square_in_range_dec (a : float) :
  {square_in_range a} + {~ square_in_range a}.
Proof.
  unfold square_in_range.
  destruct (is_infinity (a * a) && negb (is_infinity a)); [right|left];
    congruence.
Qed.

Ltac run_scalar Hn :=
  repeat first
    [ match goal with
      | H : square_in_range ?a |- context [Py.pow2 ?p ?a] =>
          rewrite (pow2_in_range p a H)
      | H : ~ square_in_range ?a |- context [Py.pow2 ?p ?a] =>
          rewrite (pow2_out_of_range p a H)
      end
    | rewrite (truediv_nonzero _ _ Hn)
    | progress cbn [bind] ].

(** With a nonzero squared norm the branch for one quaternion returns a
    matrix when the three squares are in range, and raises
    [OverflowError] otherwise. *)
Lemma scalar_outcome (pow : float -> float -> float) (eps : float)
  (q : quaternion) :
  (norm q =? 0) = false ->
  (square_in_range (x q) /\ square_in_range (y q) /\ square_in_range (z q)
   /\ exists m, as_rotation_matrix_scalar pow eps q = Ok m)
  \/ (~ (square_in_range (x q) /\ square_in_range (y q)
         /\ square_in_range (z q))
      /\ as_rotation_matrix_scalar pow eps q = Raise OverflowError).
Proof.
  intros Hn. unfold as_rotation_matrix_scalar. cbv zeta. rewrite Hn.
  destruct (square_in_range_dec (y q)) as [Hy|Hy],
           (square_in_range_dec (z q)) as [Hz|Hz],
           (square_in_range_dec (x q)) as [Hx|Hx];
    destruct (abs (norm q - 1) <? eps);
    unfold rotation_matrix_unit, rotation_matrix_general;
    run_scalar Hn;
    first [ left; repeat (split; [assumption|]); eexists; reflexivity
          | right; split; [tauto|reflexivity] ].
Qed.

(** ** Theorems: the memory view bridge *)

Lemma size_app (s t : list nat) : size (s ++ t) = (size s * size t)%nat.
Proof.
  unfold size. induction s as [|d s IH]; simpl.
  - lia.
  - rewrite IH. lia.
Qed.

Lemma atleast_1d_shape_cons {A : Type} (a : ndarray A) :
  exists d s, shape (atleast_1d a) = d :: s.
Proof.
  unfold atleast_1d. destruct (shape a) as [|d s] eqn:E; simpl; eauto.
Qed.

Lemma atleast_1d_data {A : Type} (a : ndarray A) :
  data (atleast_1d a) = data a.
Proof.
  unfold atleast_1d. now destruct (shape a).
Qed.

Lemma rev_cons_inv {A : Type} (d : A) (s : list A) :
  exists n rs, rev (d :: s) = n :: rs /\ d :: s = rev rs ++ [n].
Proof.
  destruct (rev (d :: s)) as [|n rs] eqn:E.
  - apply (f_equal (@length A)) in E. rewrite length_rev in E. discriminate.
  - exists n, rs. split; [reflexivity|].
    rewrite <- (rev_involutive (d :: s)), E. reflexivity.
Qed.

(** [as_float_array] does not fail on a scalar or on an array whose last
    axis is contiguous: the result has the shape of [np.atleast_1d(a)]
    with an axis of length four appended, and holds the components of the
    elements in order. *)
Lemma as_float_array_ok (v : qvalue) :
  last_axis_contiguous v = true ->
  as_float_array v
  = Ok (mk_ndarray (shape (atleast_1d (np_asarray v)) ++ [4%nat])
          (flat_map components (data (np_asarray v)))).
Proof.
  intros Hc. unfold as_float_array. cbv zeta. rewrite Hc.
  rewrite <- (atleast_1d_data (np_asarray v)).
  destruct (atleast_1d_shape_cons (np_asarray v)) as (d & s & E).
  rewrite E.
  destruct (rev_cons_inv d s) as (n & rs & Hrev & Hs).
  unfold view_float. rewrite E, Hrev. cbn [orb bind].
  unfold reshape. cbn [shape data].
  rewrite Hs, !size_app.
  replace (size [4%nat]) with 4%nat by reflexivity.
  replace (size [n]) with (n * 1)%nat by reflexivity.
  replace (size [(n * 4)%nat]) with (n * 4 * 1)%nat by reflexivity.
  replace (size (rev rs) * (n * 1) * 4 =? size (rev rs) * (n * 4 * 1))%nat
    with true by (symmetry; apply Nat.eqb_eq; lia).
  reflexivity.
Qed.

Lemma group4_components (l : list quaternion) :
  group4 (flat_map components l) = l.
Proof.
  induction l as [|q l IH]; [reflexivity|].
  destruct q as [a b c d]. simpl. now rewrite IH.
Qed.

Lemma removelast_snoc {A : Type} (l : list A) (a : A) :
  removelast (l ++ [a]) = l.
Proof.
  rewrite removelast_app by discriminate. simpl. apply app_nil_r.
Qed.

Lemma normalize_index_from_end (n k : nat) :
  (0 < k <= n)%nat ->
  normalize_index n (- Z.of_nat k) = Ok (n - k)%nat.
Proof.
  intros Hk. unfold normalize_index. cbv zeta.
  replace (- Z.of_nat k <? 0)%Z with true by (symmetry; apply Z.ltb_lt; lia).
  replace (0 <=? Z.of_nat n + - Z.of_nat k)%Z with true
    by (symmetry; apply Z.leb_le; lia).
  replace (Z.of_nat n + - Z.of_nat k <? Z.of_nat n)%Z with true
    by (symmetry; apply Z.ltb_lt; lia).
  cbn [andb]. f_equal. lia.
Qed.

Lemma py_index_last {A : Type} (l : list A) (a : A) :
  py_index (l ++ [a]) (-1) = Ok a.
Proof.
  unfold py_index. rewrite length_app. cbn [length].
  change (-1)%Z with (- Z.of_nat 1)%Z.
  rewrite (normalize_index_from_end (length l + 1) 1) by lia.
  cbn [bind]. rewrite nth_error_app2 by lia.
  replace (length l + 1 - 1 - length l)%nat with 0%nat by lia.
  reflexivity.
Qed.

Lemma list_eqb_false (s t : list nat) : s <> t -> list_eqb s t = false.
Proof.
  unfold list_eqb. intros H. now destruct (list_eq_dec Nat.eq_dec s t).
Qed.

Lemma list_eqb_refl (s : list nat) : list_eqb s s = true.
Proof.
  unfold list_eqb. now destruct (list_eq_dec Nat.eq_dec s s).
Qed.

Lemma atleast_1d_id {A : Type} (a : ndarray A) :
  shape a <> [] -> atleast_1d a = a.
Proof.
  unfold atleast_1d. destruct (shape a); [congruence|reflexivity].
Qed.


(** C4: viewing a quaternion array whose last axis is
    contiguous in memory as floats, and the result as quaternions again,
    gives back the elements of the array, unchanged and in the same
    order, under the same shape (a zero-dimensional array comes back with
    the shape [(1,)] that [np.atleast_1d] gave it). *)
Theorem as_quat_array_as_float_array (a : ndarray quaternion) :
  (f <- as_float_array (QArray a) ;; as_quat_array f)
  = Ok (QArray (mk_ndarray
                  (match shape a with [] => [1%nat] | s => s end)
                  (data a))).
Proof.
  rewrite as_float_array_ok by reflexivity. cbn [bind np_asarray].
  assert (Hs : shape (atleast_1d a)
               = match shape a with [] => [1%nat] | s => s end).
  { unfold atleast_1d. destruct (shape a) eqn:E; [reflexivity|exact E]. }
  rewrite Hs. clear Hs.
  set (s := match shape a with [] => [1%nat] | s => s end).
  assert (Hne : s <> []) by (subst s; destruct (shape a); discriminate).
  unfold as_quat_array, ascontiguousarray.
  rewrite atleast_1d_id by (cbn [shape]; destruct s; [congruence|discriminate]).
  cbn [shape data].
  rewrite list_eqb_false
    by (destruct s as [|d [|d' s']]; [congruence| |]; discriminate).
  unfold view_quaternion. cbn [shape data].
  rewrite rev_app_distr. cbn [rev app].
  replace (4 mod 4 =? 0)%nat with true by reflexivity.
  rewrite rev_involutive, group4_components. cbn [bind].
  rewrite py_index_last. cbn [bind].
  replace (4 =? 4)%nat with true by reflexivity.
  rewrite removelast_snoc. unfold reshape. cbn [shape data].
  rewrite size_app.
  replace (size [(4 / 4)%nat]) with 1%nat by reflexivity.
  replace (size s =? size s * 1)%nat with true
    by (symmetry; apply Nat.eqb_eq; lia).
  reflexivity.
Qed.

(** C4 on an array whose last axis is not contiguous: every second
    element of a four-element array (the slice [a[::2]]) is such an
    array, and [as_float_array] raises [ValueError] on it instead of
    returning its view. *)
Lemma as_float_array_slice_refused :
  (f <- as_float_array
          (QStrided true (mk_ndarray [2%nat] [one; mk_quaternion 0 0 1 0])) ;;
   as_quat_array f)
  = Raise ValueError.
Proof. reflexivity. Qed.

Lemma as_float_array_scalar_view (q : quaternion) :
  as_float_array (QScalar q) = Ok (mk_ndarray [1; 4]%nat (components q)).
Proof.
  rewrite as_float_array_ok by reflexivity. cbn. reflexivity.
Qed.

(** C5 on a scalar input: the view of one quaternion has shape [(1, 4)],
    not [(4,)]; [np.atleast_1d] has already made the input one-dimensional
    when the test [a.shape == ()] is reached. *)
Theorem as_float_array_scalar (q : quaternion) :
  as_float_array (QScalar q) = Ok (mk_ndarray [1; 4]%nat (components q)).
Proof. exact (as_float_array_scalar_view q). Qed.

(** ** Theorems: [allclose] *)

(** An infinite float is one of the two infinities, and a NaN is the
    NaN: the kernel's floats carry no payload. *)
Lemma is_infinity_inv (u : float) :
  is_infinity u = true -> u = infinity \/ u = neg_infinity.
Proof.
  unfold is_infinity. rewrite FloatAxioms.eqb_spec, abs_spec.
  intros H. rewrite <- (SF2Prim_Prim2SF u).
  destruct (Prim2SF u) as [s|s| |s m e]; try discriminate H.
  destruct s; [right|left]; reflexivity.
Qed.

Lemma is_nan_inv (u : float) : is_nan u = true -> u = nan.
Proof.
  unfold is_nan. rewrite FloatAxioms.eqb_spec.
  intros H. rewrite <- (SF2Prim_Prim2SF u).
  destruct (Prim2SF u) as [s|s| |s m e]; try reflexivity.
  - destruct s; discriminate H.
  - destruct s; discriminate H.
  - exfalso. revert H. unfold SFeqb, SFcompare.
    rewrite Z.compare_refl, Pos.compare_cont_refl.
    destruct s; discriminate.
Qed.

Lemma Prim2SF_nan : Prim2SF nan = S754_nan.
Proof. reflexivity. Qed.

Lemma leb_abs_sub_nan_l (v t : float) : (abs (nan - v) <=? t) = false.
Proof.
  rewrite leb_spec, abs_spec, sub_spec, Prim2SF_nan. reflexivity.
Qed.

Lemma leb_abs_sub_nan_r (u t : float) : (abs (u - nan) <=? t) = false.
Proof.
  rewrite leb_spec, abs_spec, sub_spec, Prim2SF_nan.
  destruct (Prim2SF u); reflexivity.
Qed.

Lemma is_infinity_nan_false (u : float) :
  is_nan u = true -> is_infinity u = false.
Proof.
  intros H. apply is_nan_inv in H. subst u. reflexivity.
Qed.

(** Between two infinities, [==] holds exactly when the signs agree. *)
Lemma eqb_infinities (u v : float) :
  is_infinity u = true -> is_infinity v = true ->
  (u =? v) = true <-> get_sign u = get_sign v.
Proof.
  intros Hu Hv.
  destruct (is_infinity_inv u Hu), (is_infinity_inv v Hv); subst;
    vm_compute; split; congruence.
Qed.

Lemma np_all_cons (c : bool) (l : list bool) :
  np_all (c :: l) = c && np_all l.
Proof. reflexivity. Qed.

Lemma np_any_cons (c : bool) (l : list bool) :
  np_any (c :: l) = c || np_any l.
Proof. reflexivity. Qed.

Lemma masks_agree (a b : list float) :
  length a = length b ->
  np_all (map2 Bool.eqb (map is_infinity a) (map is_infinity b)) = true
  <-> Forall2 (fun u v => is_infinity u = is_infinity v) a b.
Proof.
  revert b. induction a as [|u a IH]; intros [|v b] Hlen;
    try discriminate Hlen.
  - split; [constructor|reflexivity].
  - injection Hlen as Hlen. cbn [map map2]. rewrite np_all_cons.
    rewrite andb_true_iff, Bool.eqb_true_iff, (IH b Hlen).
    split.
    + intros [H1 H2]. now constructor.
    + intros H. inversion H; subst. now split.
Qed.

Lemma signs_agree (a b : list float) :
  Forall2 (fun u v => is_infinity u = is_infinity v) a b ->
  np_all (map2 PrimFloat.eqb (boolean_index (map is_infinity a) a)
                             (boolean_index (map is_infinity a) b)) = true
  <-> Forall2 (fun u v => is_infinity u = true -> get_sign u = get_sign v)
        a b.
Proof.
  induction 1 as [|u v a b Huv Hab IH].
  - split; [constructor|reflexivity].
  - cbn [map boolean_index]. destruct (is_infinity u) eqn:Hu.
    + cbn [map2]. rewrite np_all_cons, andb_true_iff, IH.
      rewrite (eqb_infinities u v Hu) by congruence.
      split.
      * intros [H1 H2]. constructor; auto.
      * intros H0. inversion H0; subst. rewrite Hu in *. auto.
    + rewrite IH. split.
      * intros H0. constructor; [congruence|assumption].
      * intros H0. now inversion H0.
Qed.

Lemma rest_close (rtol atol : float) (a b : list float) :
  length a = length b ->
  np_all (map2 (within_tolerance rtol atol)
            (boolean_index (map negb (map is_infinity a)) a)
            (boolean_index (map negb (map is_infinity a)) b)) = true
  <-> Forall2 (close_unless_infinite rtol atol) a b.
Proof.
  revert b. induction a as [|u a IH]; intros [|v b] Hlen;
    try discriminate Hlen.
  - split; [constructor|reflexivity].
  - injection Hlen as Hlen. cbn [map boolean_index].
    unfold close_unless_infinite at 1.
    destruct (is_infinity u) eqn:Hu; cbn [negb].
    + rewrite (IH b Hlen). split.
      * intros H0. constructor; [|assumption].
        unfold close_unless_infinite. congruence.
      * intros H0. now inversion H0.
    + cbn [map2]. rewrite np_all_cons, andb_true_iff, (IH b Hlen). split.
      * intros [H1 H2]. constructor; [|assumption].
        unfold close_unless_infinite. auto.
      * intros H0. inversion H0 as [|? ? ? ? H1 H2]; subst. split; auto.
Qed.

Lemma np_any_false (a : list float) :
  np_any (map is_infinity a) = false ->
  Forall (fun u => is_infinity u = false) a.
Proof.
  induction a as [|u a IH]; [constructor|].
  cbn [map]. rewrite np_any_cons, orb_false_iff.
  intros [H1 H2]. constructor; auto.
Qed.

Lemma all_close_finite (rtol atol : float) (a b : list float) :
  length a = length b ->
  Forall (fun u => is_infinity u = false) a ->
  Forall (fun v => is_infinity v = false) b ->
  Forall2 same_infinity a b
  /\ (np_all (map2 (within_tolerance rtol atol) a b) = true
      <-> Forall2 (close_unless_infinite rtol atol) a b).
Proof.
  revert b. induction a as [|u a IH]; intros [|v b] Hlen Ha Hb;
    try discriminate Hlen.
  - repeat split; constructor.
  - injection Hlen as Hlen.
    inversion Ha as [|? ? Hu Ha']; inversion Hb as [|? ? Hv Hb']; subst.
    destruct (IH b Hlen Ha' Hb') as [IH1 IH2].
    split.
    + constructor; [|assumption].
      split; [congruence|]. rewrite Hu. discriminate.
    + cbn [map2]. rewrite np_all_cons, andb_true_iff, IH2. split.
      * intros [H1 H2]. constructor; [|assumption]. now intros _.
      * intros H0. inversion H0 as [|? ? ? ? H1 H2]; subst.
        split; [exact (H1 Hu)|assumption].
Qed.

Lemma Forall2_and_inv {A B : Type} (P Q : A -> B -> Prop) l l' :
  Forall2 (fun u v => P u v /\ Q u v) l l'
  <-> Forall2 P l l' /\ Forall2 Q l l'.
Proof.
  split.
  - induction 1 as [|u v l l' [H1 H2] _ [IH1 IH2]]; split; constructor; auto.
  - intros [H1 H2]. induction H1; inversion H2; subst; constructor; auto.
Qed.

(** The tolerant comparison returns true exactly when the infinities
    of the two arrays match and every other position is within the
    tolerance. *)
Lemma allclose_iff (rtol atol : float) (a b : list float) :
  length a = length b ->
  allclose a b rtol atol = true <-> allclose_spec rtol atol a b.
Proof.
  intros Hlen. unfold allclose, allclose_spec. cbv zeta.
  fold (within_tolerance rtol atol). unfold same_infinity.
  rewrite Forall2_and_inv.
  destruct (np_any (map is_infinity a) || np_any (map is_infinity b))
    eqn:Einf.
  - destruct (np_all (map2 Bool.eqb (map is_infinity a) (map is_infinity b)))
      eqn:E1; cbn [negb].
    + pose proof (proj1 (masks_agree a b Hlen) E1) as Hm.
      destruct (np_all
                  (map2 PrimFloat.eqb (boolean_index (map is_infinity a) a)
                     (boolean_index (map is_infinity a) b))) eqn:E2;
        cbn [negb].
      * rewrite (rest_close rtol atol a b Hlen).
        pose proof (proj1 (signs_agree a b Hm) E2). tauto.
      * split; [discriminate|]. intros [[_ Hs] _].
        apply (signs_agree a b Hm) in Hs. congruence.
    + split; [discriminate|]. intros [[Hm _] _].
      apply (masks_agree a b Hlen) in Hm. congruence.
  - apply orb_false_iff in Einf as [Ea Eb].
    apply np_any_false in Ea, Eb.
    destruct (all_close_finite rtol atol a b Hlen Ea Eb) as [H1 H2].
    unfold same_infinity in H1. rewrite Forall2_and_inv in H1.
    rewrite H2. tauto.
Qed.

Lemma Forall2_Exists_l {A B : Type} (R : A -> B -> Prop) (P : A -> Prop)
  l l' :
  Forall2 R l l' -> Exists P l -> exists u v, P u /\ R u v.
Proof.
  induction 1 as [|u v l l' Huv _ IH]; intros HE; inversion HE; subst; eauto.
Qed.

Lemma Forall2_Exists_r {A B : Type} (R : A -> B -> Prop) (P : B -> Prop)
  l l' :
  Forall2 R l l' -> Exists P l' -> exists u v, P v /\ R u v.
Proof.
  induction 1 as [|u v l l' Huv _ IH]; intros HE; inversion HE; subst; eauto.
Qed.

Lemma length_boolean_index_same {A B : Type} (mask : list bool)
  (l : list A) (l' : list B) :
  length l = length l' ->
  length (boolean_index mask l) = length (boolean_index mask l').
Proof.
  revert l l'. induction mask as [|m mask IH]; intros [|u l] [|v l'] H;
    try discriminate H; try reflexivity.
  injection H as H. cbn [boolean_index].
  destruct m; cbn [length]; now rewrite (IH l l' H).
Qed.

(** On two one-dimensional arrays of one length the general model is
    the model for equal shapes, and raises nothing. *)
Lemma allclose_1d_same_length (mismatched_eq : result bool)
  (rtol atol : float) (a b : list float) :
  length a = length b ->
  allclose_1d mismatched_eq a b rtol atol = Ok (allclose a b rtol atol).
Proof.
  intros Hlen. unfold allclose_1d, allclose, getitem_mask. cbv zeta.
  unfold broadcast_1d at 1 3. rewrite !length_map, Hlen, !Nat.eqb_refl.
  destruct (np_any (map is_infinity a) || np_any (map is_infinity b));
    [|reflexivity].
  cbn [bind].
  destruct (negb (np_all (map2 Bool.eqb (map is_infinity a)
                            (map is_infinity b)))); [reflexivity|].
  destruct (negb (np_all (map2 PrimFloat.eqb
                            (boolean_index (map is_infinity a) a)
                            (boolean_index (map is_infinity a) b))));
    [reflexivity|].
  unfold broadcast_1d.
  rewrite (length_boolean_index_same (map negb (map is_infinity a)) a b
             Hlen),
    Nat.eqb_refl.
  reflexivity.
Qed.

(** C6, as amended: for arrays of the same shape, [allclose] returns
    true if and only if (1) the infinite values stand at the same
    positions of [a] and [b] with the same signs and (2) every other
    position satisfies [|a - b| <= atol + rtol * |b|]; a NaN anywhere in
    [a] or [b] makes the result false.  On one-dimensional arrays of one
    length the call raises nothing and returns this verdict. *)
Theorem allclose_correct (mismatched_eq : result bool) (rtol atol : float)
  (a b : list float) :
  length a = length b ->
  (allclose a b rtol atol = true <-> allclose_spec rtol atol a b)
  /\ (Exists (fun u => is_nan u = true) a
      \/ Exists (fun v => is_nan v = true) b ->
      allclose a b rtol atol = false)
  /\ allclose_1d mismatched_eq a b rtol atol = Ok (allclose a b rtol atol).
Proof.
  intros Hlen. split; [now apply allclose_iff|].
  split; [|now apply allclose_1d_same_length].
  intros HE. apply not_true_is_false. intros Ht.
  apply (allclose_iff rtol atol a b Hlen) in Ht as [Hinf Hclose].
  destruct HE as [HE|HE].
  - destruct (Forall2_Exists_l _ _ _ _ Hclose HE) as (u & v & Hu & Huv).
    specialize (Huv (is_infinity_nan_false u Hu)).
    apply is_nan_inv in Hu. subst u.
    unfold within_tolerance in Huv. now rewrite leb_abs_sub_nan_l in Huv.
  - assert (Hboth : Forall2 (fun u v => same_infinity u v
                       /\ close_unless_infinite rtol atol u v) a b)
      by (apply Forall2_and_inv; now split).
    destruct (Forall2_Exists_r _ _ _ _ Hboth HE)
      as (u & v & Hv & [Hi _] & Huv).
    rewrite (is_infinity_nan_false v Hv) in Hi. specialize (Huv Hi).
    apply is_nan_inv in Hv. subst v.
    unfold within_tolerance in Huv. now rewrite leb_abs_sub_nan_r in Huv.
Qed.

(** C6 on the second example of the docstring. *)
Lemma allclose_correct_witness :
  (allclose [1e10; 1e-8] [1.00001e10; 1e-9] 1e-5 1e-8 = true
   <-> allclose_spec 1e-5 1e-8 [1e10; 1e-8] [1.00001e10; 1e-9])
  /\ (Exists (fun u => is_nan u = true) [1e10; 1e-8]
      \/ Exists (fun v => is_nan v = true) [1.00001e10; 1e-9] ->
      allclose [1e10; 1e-8] [1.00001e10; 1e-9] 1e-5 1e-8 = false)
  /\ allclose_1d (Raise ValueError) [1e10; 1e-8] [1.00001e10; 1e-9]
       1e-5 1e-8
     = Ok (allclose [1e10; 1e-8] [1.00001e10; 1e-9] 1e-5 1e-8).
Proof.
  apply (allclose_correct (Raise ValueError) 1e-5 1e-8 [1e10; 1e-8]
           [1.00001e10; 1e-9]).
  reflexivity.
Defined.

(** C6 as stated fails on inputs of different shapes: the arrays
    [(inf, inf)] and [(inf,)] pass the test of the positions, which
    broadcasts, and [y[xinf]] then raises [IndexError]: the call returns
    neither true nor false. *)
Lemma allclose_shapes_differ :
  allclose_1d (Ok false) [infinity; infinity] [infinity] 1e-5 1e-8
  = Raise IndexError
  /\ allclose_1d (Raise ValueError) [infinity; infinity] [infinity]
       1e-5 1e-8
     = Raise IndexError.
Proof. split; vm_compute; reflexivity. Qed.

(** The examples of the docstring. *)
Example allclose_docstring :
  allclose [1e10; 1e-7] [1.00001e10; 1e-8] 1e-5 1e-8 = false
  /\ allclose [1e10; 1e-8] [1.00001e10; 1e-9] 1e-5 1e-8 = true
  /\ allclose [1e10; 1e-8] [1.0001e10; 1e-9] 1e-5 1e-8 = false
  /\ allclose [1; nan] [1; nan] 1e-5 1e-8 = false.
Proof. repeat split; vm_compute; reflexivity. Qed.

(** ** Lemmas: index arithmetic and broadcasting *)

Lemma length_tabulate {A : Type} (n : nat) (f : nat -> A) :
  length (tabulate n f) = n.
Proof.
  unfold tabulate. now rewrite length_map, length_seq.
Qed.

Lemma nth_tabulate {A : Type} (n : nat) (f : nat -> A) (i : nat) (d : A) :
  (i < n)%nat -> nth i (tabulate n f) d = f i.
Proof.
  intros Hi. unfold tabulate.
  rewrite (nth_indep _ d (f 0%nat)) by (now rewrite length_map, length_seq).
  rewrite (map_nth f (seq 0 n) 0%nat i), seq_nth by assumption.
  reflexivity.
Qed.

Lemma tabulate_ext {A : Type} (n : nat) (f g : nat -> A) :
  (forall i, (i < n)%nat -> f i = g i) -> tabulate n f = tabulate n g.
Proof.
  intros H. unfold tabulate. apply map_ext_in.
  intros i Hi. apply in_seq in Hi. apply H. lia.
Qed.

Lemma list_eq_nth {A : Type} (d : A) (l l' : list A) :
  length l = length l' ->
  (forall i, (i < length l)%nat -> nth i l d = nth i l' d) ->
  l = l'.
Proof.
  intros Hlen H. apply (nth_ext l l' d d); assumption.
Qed.

Lemma tabulate_nth {A : Type} (d : A) (l : list A) :
  tabulate (length l) (fun i => nth i l d) = l.
Proof.
  apply (list_eq_nth d).
  - apply length_tabulate.
  - intros i Hi. rewrite length_tabulate in Hi.
    now rewrite nth_tabulate by assumption.
Qed.

Lemma tabulate_map_nth {A B : Type} (d : A) (h : A -> B) (l : list A) :
  tabulate (length l) (fun i => h (nth i l d)) = map h l.
Proof.
  transitivity (map h (tabulate (length l) (fun i => nth i l d))).
  - unfold tabulate. now rewrite map_map.
  - now rewrite tabulate_nth.
Qed.

Lemma unravel_length (i : nat) (s : list nat) :
  length (unravel i s) = length s.
Proof.
  revert i. induction s as [|d s IH]; intros i; simpl; [reflexivity|].
  now rewrite IH.
Qed.

Lemma unravel_bound (s : list nat) (i : nat) :
  (i < size s)%nat -> Forall2 lt (unravel i s) s.
Proof.
  revert i. induction s as [|d s IH]; intros i Hi; simpl; [constructor|].
  change (size (d :: s)) with (d * size s)%nat in Hi.
  assert (Hs : size s <> 0%nat) by (intros E; rewrite E in Hi; lia).
  constructor.
  - apply Nat.Div0.div_lt_upper_bound. lia.
  - apply IH. now apply Nat.mod_upper_bound.
Qed.

Lemma ravel_unravel (s : list nat) (i : nat) :
  (i < size s)%nat -> ravel (unravel i s) s = i.
Proof.
  revert i. induction s as [|d s IH]; intros i Hi; simpl.
  - change (size []) with 1%nat in Hi. lia.
  - change (size (d :: s)) with (d * size s)%nat in Hi.
    assert (Hs : size s <> 0%nat) by (intros E; rewrite E in Hi; lia).
    rewrite IH by (now apply Nat.mod_upper_bound).
    pose proof (Nat.div_mod_eq i (size s)). lia.
Qed.

Lemma project_same (idx s : list nat) :
  Forall2 lt idx s -> project idx s = idx.
Proof.
  intros H. unfold project.
  rewrite (Forall2_length H), Nat.sub_diag. cbn [skipn].
  induction H as [|k d idx s Hk _ IH]; [reflexivity|].
  cbn [combine map fst snd]. rewrite IH. f_equal.
  destruct (Nat.eqb_spec d 1); [lia|reflexivity].
Qed.

Lemma broadcast_to_same {A : Type} (d : A) (a : ndarray A) :
  wf a -> broadcast_to d a (shape a) = a.
Proof.
  unfold wf, broadcast_to. destruct a as [s l]. cbn [shape data].
  intros Hwf. f_equal. rewrite <- Hwf.
  transitivity (tabulate (length l) (fun i => nth i l d));
    [|apply tabulate_nth].
  apply tabulate_ext.
  intros i Hi. rewrite Hwf in Hi.
  now rewrite (project_same _ _ (unravel_bound s i Hi)), ravel_unravel.
Qed.

Lemma broadcast_rev_same (s : list nat) : broadcast_rev s s = Some s.
Proof.
  induction s as [|d s IH]; [reflexivity|].
  cbn [broadcast_rev]. now rewrite IH, Nat.eqb_refl.
Qed.

Lemma broadcast_shapes_same (s : list nat) : broadcast_shapes s s = Some s.
Proof.
  unfold broadcast_shapes. rewrite broadcast_rev_same. cbn.
  now rewrite rev_involutive.
Qed.

(** On two arrays of one shape a binary ufunc works position by
    position. *)
Lemma np_binop_same_shape (f : float -> float -> float)
  (a b : ndarray float) :
  wf a -> wf b -> shape a = shape b ->
  np_binop f a b = Ok (mk_ndarray (shape a) (map2 f (data a) (data b))).
Proof.
  intros Ha Hb Hs. unfold np_binop.
  rewrite <- Hs, broadcast_shapes_same.
  rewrite (broadcast_to_same 0 a Ha).
  rewrite Hs, (broadcast_to_same 0 b Hb). reflexivity.
Qed.

Lemma map2_map {A B C D : Type} (f : B -> C -> D) (g : A -> B) (h : A -> C)
  (l : list A) :
  map2 f (map g l) (map h l) = map (fun u => f (g u) (h u)) l.
Proof.
  induction l as [|u l IH]; [reflexivity|]. cbn. now rewrite IH.
Qed.

(** ** Lemmas: columns of an array of quaternions

    Every intermediate array in the conversions holds one number per
    quaternion of the input: it is [column h], the image of the input
    under a function [h] of one quaternion. *)

Lemma length_scatter (B off : nat) (v old : list float) :
  length (scatter B off v old) = length old.
Proof. apply length_tabulate. Qed.

Lemma nth_scatter (B off : nat) (v old : list float) (t : nat) :
  (t < length old)%nat ->
  nth t (scatter B off v old) 0
  = if (t mod B =? off)%nat then nth (t / B) v 0 else nth t old 0.
Proof.
  intros Ht. unfold scatter. now rewrite nth_tabulate by assumption.
Qed.

Lemma nth_map_in {A B : Type} (f : A -> B) (l : list A) (i : nat)
  (d : B) (d' : A) :
  (i < length l)%nat -> nth i (map f l) d = f (nth i l d').
Proof.
  intros Hi. rewrite (nth_indep _ d (f d')) by (now rewrite length_map).
  apply map_nth.
Qed.

Lemma length_flat_map_block {A B : Type} (g : A -> list B) (n : nat)
  (l : list A) :
  (forall u, length (g u) = n) -> length (flat_map g l) = (length l * n)%nat.
Proof.
  intros Hg. induction l as [|u l IH]; [reflexivity|].
  cbn [flat_map length]. rewrite length_app, Hg, IH. lia.
Qed.

Lemma nth_flat_map_block {A B : Type} (g : A -> list B) (n : nat)
  (l : list A) (p k : nat) (d' : A) (d : B) :
  (forall u, length (g u) = n) ->
  (p < length l)%nat -> (k < n)%nat ->
  nth (p * n + k) (flat_map g l) d = nth k (g (nth p l d')) d.
Proof.
  intros Hg. revert p. induction l as [|u l IH]; intros p Hp Hk.
  - cbn in Hp. lia.
  - cbn [flat_map]. destruct p as [|p].
    + cbn [Nat.mul Nat.add nth]. apply app_nth1. now rewrite Hg.
    + rewrite app_nth2 by (rewrite Hg; lia).
      rewrite Hg. cbn [nth].
      replace (S p * n + k - n)%nat with (p * n + k)%nat by lia.
      apply IH; [cbn in Hp; lia|assumption].
Qed.

Lemma strip_ones_0 (s : list nat) : strip_ones 0 s = s.
Proof. now destruct s. Qed.

Lemma assignable_same (v : ndarray float) :
  wf v -> assignable v (shape v) = Ok v.
Proof.
  intros Hv. unfold assignable. cbv zeta.
  rewrite Nat.sub_diag, strip_ones_0, broadcast_shapes_same, list_eqb_refl.
  f_equal. transitivity (broadcast_to 0 v (shape v)).
  - now destruct v.
  - now apply broadcast_to_same.
Qed.

Lemma forallb_map2_ltb (idx tail : list nat) :
  Forall2 lt idx tail -> forallb id (map2 Nat.ltb idx tail) = true.
Proof.
  induction 1 as [|k d idx tail Hk _ IH]; [reflexivity|].
  cbn [map2 forallb id]. rewrite IH.
  now apply Nat.ltb_lt in Hk as ->.
Qed.

Lemma setitem_last_scatter (idx lead tail : list nat) (v : ndarray float)
  (old : list float) :
  Forall2 lt idx tail -> wf v -> shape v = lead ->
  setitem_last idx v (mk_ndarray (lead ++ tail) old)
  = Ok (mk_ndarray (lead ++ tail)
          (scatter (size tail) (ravel idx tail) (data v) old)).
Proof.
  intros Hidx Hv Hs. unfold setitem_last, ndim. cbn [shape data].
  rewrite (Forall2_length Hidx), length_app.
  replace (length lead + length tail - length tail)%nat
    with (length lead) by lia.
  replace (length lead + length tail <? length tail)%nat with false
    by (symmetry; apply Nat.ltb_ge; lia).
  rewrite firstn_app, firstn_all, Nat.sub_diag, firstn_O, app_nil_r.
  rewrite skipn_app, skipn_all, Nat.sub_diag, skipn_O. cbn [app].
  rewrite (forallb_map2_ltb _ _ Hidx). cbn [orb negb].
  rewrite <- Hs, (assignable_same v Hv). reflexivity.
Qed.

Section Columns.

Variable s : list nat.
Variable l : list quaternion.
Hypothesis Hlen : length l = size s.

Lemma column_wf (h : quaternion -> float) : wf (column s l h).
Proof.
  unfold wf, column. cbn [shape data]. now rewrite length_map.
Qed.

Lemma np_binop_column (f : float -> float -> float)
  (g h : quaternion -> float) :
  np_binop f (column s l g) (column s l h) = Ok (column s l (fun u => f (g u) (h u))).
Proof.
  rewrite np_binop_same_shape by (try apply column_wf; reflexivity).
  unfold column. cbn [shape data]. now rewrite map2_map.
Qed.

Lemma np_add_column (g h : quaternion -> float) :
  np_add (Ok (column s l g)) (Ok (column s l h))
  = Ok (column s l (fun u => g u + h u)).
Proof. unfold np_add. cbn [bind]. apply np_binop_column. Qed.

Lemma np_sub_column (g h : quaternion -> float) :
  np_sub (Ok (column s l g)) (Ok (column s l h))
  = Ok (column s l (fun u => g u - h u)).
Proof. unfold np_sub. cbn [bind]. apply np_binop_column. Qed.

Lemma np_mul_column (g h : quaternion -> float) :
  np_mul (Ok (column s l g)) (Ok (column s l h))
  = Ok (column s l (fun u => g u * h u)).
Proof. unfold np_mul. cbn [bind]. apply np_binop_column. Qed.

Lemma np_div_column (g h : quaternion -> float) :
  np_div (Ok (column s l g)) (Ok (column s l h))
  = Ok (column s l (fun u => g u / h u)).
Proof. unfold np_div. cbn [bind]. apply np_binop_column. Qed.

Lemma np_lift_column (f : float -> float) (g : quaternion -> float) :
  np_lift f (Ok (column s l g)) = Ok (column s l (fun u => f (g u))).
Proof.
  unfold np_lift, np_map, column. cbn [bind shape data].
  now rewrite map_map.
Qed.

Lemma np_square_column (g : quaternion -> float) :
  np_square (Ok (column s l g)) = Ok (column s l (fun u => g u * g u)).
Proof. apply np_lift_column. Qed.

(** The [k]-th component of every quaternion, read off the float view. *)
Lemma getitem_last_view (k : nat) :
  (k < 4)%nat ->
  getitem_last 0 k (mk_ndarray (s ++ [4%nat]) (flat_map components l))
  = Ok (column s l (fun u => nth k (components u) 0)).
Proof.
  intros Hk. unfold getitem_last. cbn [shape data].
  rewrite rev_app_distr. cbn [rev app].
  apply Nat.ltb_lt in Hk as Hk'. rewrite Hk'.
  rewrite rev_involutive. unfold column. do 2 f_equal.
  rewrite <- Hlen, <- (tabulate_map_nth zero). apply tabulate_ext.
  intros p Hp. now apply nth_flat_map_block.
Qed.

Lemma setitem_last_column (idx tail : list nat) (h : quaternion -> float)
  (old : list float) :
  Forall2 lt idx tail ->
  setitem_last idx (column s l h) (mk_ndarray (s ++ tail) old)
  = Ok (mk_ndarray (s ++ tail)
          (scatter (size tail) (ravel idx tail) (map h l) old)).
Proof.
  intros Hidx.
  now rewrite (setitem_last_scatter idx s tail)
    by (try apply column_wf; auto).
Qed.

End Columns.

Lemma nth_flat_map_divmod {A B : Type} (g : A -> list B) (n : nat)
  (l : list A) (t : nat) (d' : A) (d : B) :
  (forall u, length (g u) = n) ->
  (t < length l * n)%nat ->
  nth t (flat_map g l) d = nth (t mod n) (g (nth (t / n) l d')) d.
Proof.
  intros Hg Ht.
  assert (Hn : n <> 0%nat) by (intros E; rewrite E in Ht; lia).
  rewrite (Nat.div_mod_eq t n) at 1.
  rewrite (Nat.mul_comm n (t / n)).
  apply nth_flat_map_block; [assumption| |now apply Nat.mod_upper_bound].
  apply Nat.Div0.div_lt_upper_bound. lia.
Qed.

Ltac scatter_nth Ht :=
  repeat (rewrite nth_scatter by (rewrite ?length_scatter; exact Ht)).

(** Nine columns written one after the other into blocks of nine fill
    the array. *)
Lemma scatter_nine (l : list quaternion) (old : list float)
  (e0 e1 e2 e3 e4 e5 e6 e7 e8 : quaternion -> float) :
  length old = (length l * 9)%nat ->
  scatter 9 8 (map e8 l) (scatter 9 7 (map e7 l) (scatter 9 6 (map e6 l)
    (scatter 9 5 (map e5 l) (scatter 9 4 (map e4 l) (scatter 9 3 (map e3 l)
      (scatter 9 2 (map e2 l) (scatter 9 1 (map e1 l)
        (scatter 9 0 (map e0 l) old))))))))
  = flat_map
      (fun u => [e0 u; e1 u; e2 u; e3 u; e4 u; e5 u; e6 u; e7 u; e8 u]) l.
Proof.
  intros Hold. apply (list_eq_nth 0).
  - rewrite !length_scatter, Hold.
    symmetry. now apply length_flat_map_block.
  - intros t Ht. rewrite !length_scatter in Ht.
    scatter_nth Ht. rewrite Hold in Ht.
    rewrite (nth_flat_map_divmod _ 9 l t zero) by (auto; reflexivity).
    assert (Hq : (t / 9 < length l)%nat)
      by (apply Nat.Div0.div_lt_upper_bound; lia).
    pose proof (Nat.mod_upper_bound t 9 ltac:(lia)) as Hm.
    rewrite !(nth_map_in _ l (t / 9) 0 zero Hq).
    destruct (t mod 9)%nat as [|[|[|[|[|[|[|[|[|c]]]]]]]]];
      try reflexivity.
    lia.
Qed.

(** Three columns written into blocks of three. *)
Lemma scatter_three (l : list quaternion) (old : list float)
  (e0 e1 e2 : quaternion -> float) :
  length old = (length l * 3)%nat ->
  scatter 3 2 (map e2 l) (scatter 3 1 (map e1 l)
    (scatter 3 0 (map e0 l) old))
  = flat_map (fun u => [e0 u; e1 u; e2 u]) l.
Proof.
  intros Hold. apply (list_eq_nth 0).
  - rewrite !length_scatter, Hold.
    symmetry. now apply length_flat_map_block.
  - intros t Ht. rewrite !length_scatter in Ht.
    scatter_nth Ht. rewrite Hold in Ht.
    rewrite (nth_flat_map_divmod _ 3 l t zero) by (auto; reflexivity).
    assert (Hq : (t / 3 < length l)%nat)
      by (apply Nat.Div0.div_lt_upper_bound; lia).
    pose proof (Nat.mod_upper_bound t 3 ltac:(lia)) as Hm.
    rewrite !(nth_map_in _ l (t / 3) 0 zero Hq).
    destruct (t mod 3)%nat as [|[|[|c]]]; try reflexivity.
    lia.
Qed.

(** ** Theorems: the rotation matrix of an array *)

Lemma existsb_zero_norm_false (l : list quaternion) :
  Forall (fun q => (norm q =? 0) = false) l ->
  existsb (fun t => t =? 0) (map norm l) = false.
Proof.
  induction 1 as [|q l Hq _ IH]; [reflexivity|].
  cbn [map existsb]. now rewrite Hq, IH.
Qed.

Lemma existsb_zero_norm_true (l : list quaternion) :
  existsb (fun t => t =? 0) (map norm l) = true
  <-> Exists (fun q => (norm q =? 0) = true) l.
Proof.
  induction l as [|q l IH]; cbn [map existsb].
  - split; [discriminate|]. intros H. inversion H.
  - rewrite orb_true_iff, IH. split.
    + intros [H|H]; [now left|now right].
    + intros H. inversion H; subst; [now left|now right].
Qed.

Lemma wf_scalar_shape {A : Type} (l : list A) :
  wf (mk_ndarray [] l) -> exists q, l = [q].
Proof.
  unfold wf. cbn. destruct l as [|q [|q' l]]; try discriminate. eauto.
Qed.

Ltac columns s l H :=
  change (np_map norm (mk_ndarray s l)) with (column s l norm);
  rewrite ?(getitem_last_view s l H) by lia;
  repeat (rewrite ?(np_square_column s l), ?(np_mul_column s l H),
            ?(np_add_column s l H), ?(np_sub_column s l H),
            ?(np_div_column s l H), ?(np_lift_column s l)).

Ltac setitems s l H :=
  repeat (rewrite (setitem_last_column s l H)
            by (repeat constructor; lia);
          cbn [bind]).

(** On an array with a contiguous last axis and without a zero norm the
    array branch succeeds, and every quaternion gets the matrix of the
    general formulas. *)
Lemma as_rotation_matrix_array_ok (junk : nat -> float)
  (a : ndarray quaternion) :
  wf a ->
  Forall (fun q => (norm q =? 0) = false) (data a) ->
  as_rotation_matrix_array junk (QArray a)
  = Ok (mk_ndarray (shape a ++ [3; 3])%nat
          (flat_map (fun q => spec_matrix_general q (norm q)) (data a))).
Proof.
  destruct a as [s l]. intros Hwf Hnz. unfold wf in Hwf.
  cbn [shape data] in *.
  unfold as_rotation_matrix_array, qshape.
  cbn [np_asarray np_map shape data].
  rewrite (existsb_zero_norm_false l Hnz). cbv zeta.
  rewrite as_float_array_ok by reflexivity. cbn [bind np_asarray data].
  destruct s as [|d s].
  - destruct (wf_scalar_shape l Hwf) as [q ->].
    vm_compute. reflexivity.
  - rewrite atleast_1d_id by discriminate. cbn [shape].
    set (s' := d :: s) in *.
    columns s' l Hwf. cbn [bind]. unfold np_empty.
    setitems s' l Hwf.
    do 2 f_equal.
    change (size [3; 3]%nat) with 9%nat.
    cbn [ravel size fold_right Nat.mul Nat.add].
    rewrite scatter_nine; [reflexivity|].
    rewrite length_tabulate, size_app, Hwf. reflexivity.
Qed.

(** C1: for a scalar quaternion with a nonzero squared norm [n],
    [as_rotation_matrix] returns the 3x3 matrix of the formulas of the
    specification (without division when [|n - 1| < _eps], dividing by [n]
    otherwise, the squares being those of [**]) only when the squares of
    [x], [y] and [z] are in range.  When one of them is not, [**] raises
    [OverflowError] and no matrix is returned, although the branch for
    arrays returns the matrix of the general formulas for the same
    quaternion held in a 0-d array. *)
Theorem as_rotation_matrix_scalar_outcome
  (pow : float -> float -> float) (eps : float) (junk : nat -> float)
  (q : quaternion) :
  (norm q =? 0) = false ->
  (square_in_range (x q) -> square_in_range (y q) ->
   square_in_range (z q) ->
   as_rotation_matrix pow eps junk (QScalar q)
   = Ok (scalar_rotation_matrix pow eps q))
  /\ (~ (square_in_range (x q) /\ square_in_range (y q)
         /\ square_in_range (z q)) ->
      as_rotation_matrix pow eps junk (QScalar q) = Raise OverflowError
      /\ as_rotation_matrix pow eps junk (QArray (mk_ndarray [] [q]))
         = Ok (mk_ndarray [3; 3]%nat (spec_matrix_general q (norm q)))).
Proof.
  intros Hn. split.
  - intros Hx Hy Hz. now apply as_rotation_matrix_scalar_formulas.
  - intros Hno. split.
    + cbn [as_rotation_matrix].
      destruct (scalar_outcome pow eps q Hn)
        as [(Hx & Hy & Hz & _)|[_ H]]; [|exact H].
      exfalso. apply Hno. auto.
    + cbn [as_rotation_matrix].
      rewrite as_rotation_matrix_array_ok
        by (try reflexivity; cbn [data]; repeat constructor; assumption).
      cbn [shape data flat_map app]. now rewrite app_nil_r.
Qed.

(** The quaternion (0, 0, 1e200, 0): its squared norm is infinite, and
    [1e200 ** 2] is out of range. *)
Lemma as_rotation_matrix_scalar_outcome_witness :
  (norm (mk_quaternion 0 0 1e200 0) =? 0) = false
  /\ as_rotation_matrix (fun a _ => a * a) 1e-14 (fun _ => 0)
       (QScalar (mk_quaternion 0 0 1e200 0)) = Raise OverflowError
  /\ as_rotation_matrix (fun a _ => a * a) 1e-14 (fun _ => 0)
       (QArray (mk_ndarray [] [mk_quaternion 0 0 1e200 0]))
     = Ok (mk_ndarray [3; 3]%nat
             (spec_matrix_general (mk_quaternion 0 0 1e200 0)
                (norm (mk_quaternion 0 0 1e200 0)))).
Proof.
  split; [vm_compute; reflexivity|].
  refine (proj2 (as_rotation_matrix_scalar_outcome (fun a _ => a * a) 1e-14
                   (fun _ => 0) (mk_quaternion 0 0 1e200 0) _) _).
  - vm_compute. reflexivity.
  - intros (_ & H & _). vm_compute in H. discriminate H.
Defined.

Lemma nzd_ok {A : Type} (a : A) : no_zero_division (Ok a).
Proof. discriminate. Qed.

Lemma nzd_bind {A B : Type} (r : result A) (k : A -> result B) :
  no_zero_division r -> (forall a, no_zero_division (k a)) ->
  no_zero_division (bind r k).
Proof.
  unfold no_zero_division. destruct r as [a|e]; cbn [bind]; intros Hr Hk.
  - apply Hk.
  - congruence.
Qed.

Lemma nzd_np_binop f a b : no_zero_division (np_binop f a b).
Proof.
  unfold np_binop. destruct (broadcast_shapes (shape a) (shape b));
    discriminate.
Qed.

Lemma nzd_getitem_last k a : no_zero_division (getitem_last 0 k a).
Proof.
  unfold getitem_last. destruct (rev (shape a)); [discriminate|].
  destruct (k <? n)%nat; discriminate.
Qed.

Lemma nzd_assignable v s : no_zero_division (assignable v s).
Proof.
  unfold assignable. cbv zeta.
  destruct (broadcast_shapes _ s) as [r|]; [|discriminate].
  destruct (list_eqb r s); discriminate.
Qed.

Lemma nzd_setitem_last idx v m : no_zero_division (setitem_last idx v m).
Proof.
  unfold setitem_last. cbv zeta.
  match goal with |- context [if ?c then _ else _] => destruct c end;
    [discriminate|].
  apply nzd_bind; [apply nzd_assignable|discriminate].
Qed.

Lemma nzd_reshape {A : Type} s (a : ndarray A) :
  no_zero_division (reshape s a).
Proof.
  unfold reshape. destruct (size s =? size (shape a))%nat; discriminate.
Qed.

Lemma nzd_as_float_array v : no_zero_division (as_float_array v).
Proof.
  unfold as_float_array. cbv zeta.
  destruct (shape (atleast_1d (np_asarray v))); [discriminate|].
  apply nzd_bind; [|intros; apply nzd_reshape].
  unfold view_float. destruct (rev (shape _)); [discriminate|].
  match goal with |- context [if ?c then _ else _] => destruct c end;
    discriminate.
Qed.

Lemma nzd_pow2 pow a : no_zero_division (Py.pow2 pow a).
Proof. exact (pow2_not_zero_division pow a). Qed.

Lemma nzd_truediv a n :
  (n =? 0) = false -> no_zero_division (Py.truediv a n).
Proof. intros H. rewrite (truediv_nonzero a n H). discriminate. Qed.

Create HintDb nzd.
#[local] Hint Resolve nzd_ok nzd_np_binop nzd_getitem_last
  nzd_setitem_last nzd_as_float_array nzd_pow2 nzd_truediv : nzd.

Ltac nzd :=
  repeat first
    [ apply nzd_bind; [|intros ?]
    | progress unfold np_add, np_sub, np_mul, np_div, np_lift, np_square
    | solve [auto with nzd] ].

Lemma nzd_scalar (pow : float -> float -> float) (eps : float)
  (q : quaternion) :
  (norm q =? 0) = false ->
  no_zero_division (as_rotation_matrix_scalar pow eps q).
Proof.
  intros Hn. unfold as_rotation_matrix_scalar. cbv zeta. rewrite Hn.
  destruct (abs (norm q - 1) <? eps).
  - unfold rotation_matrix_unit. nzd.
  - unfold rotation_matrix_general. nzd.
Qed.

Lemma nzd_array (junk : nat -> float) (v : qvalue) :
  existsb (fun t => t =? 0) (map norm (data (np_asarray v))) = false ->
  no_zero_division (as_rotation_matrix_array junk v).
Proof.
  intros Hn. unfold as_rotation_matrix_array. cbn [np_map data].
  rewrite Hn. cbv zeta. nzd.
Qed.

Lemma as_rotation_matrix_array_zero (junk : nat -> float) (v : qvalue) :
  existsb (fun t => t =? 0) (map norm (data (np_asarray v))) = true ->
  as_rotation_matrix_array junk v = Raise ZeroDivisionError.
Proof.
  intros Hn. unfold as_rotation_matrix_array. cbn [np_map data].
  now rewrite Hn.
Qed.

(** C2: [as_rotation_matrix] raises [ZeroDivisionError] if and only if
    the scalar input has zero norm or, for an array, at least one element
    has; the error is the whole outcome of the call, which then returns no
    array, whatever the other elements are. *)
Theorem as_rotation_matrix_zero_division
  (pow : float -> float -> float) (eps : float) (junk : nat -> float)
  (v : qvalue) :
  as_rotation_matrix pow eps junk v = Raise ZeroDivisionError
  <-> has_zero_norm v.
Proof.
  assert (Harr : forall u,
             as_rotation_matrix_array junk u = Raise ZeroDivisionError
             <-> Exists (fun q => (norm q =? 0) = true)
                   (data (np_asarray u))).
  { intros u. rewrite <- existsb_zero_norm_true.
    destruct (existsb (fun t => t =? 0) (map norm (data (np_asarray u))))
      eqn:Hn.
    - rewrite (as_rotation_matrix_array_zero junk u Hn). tauto.
    - split; [|discriminate]. intros H.
      now destruct (nzd_array junk u Hn). }
  destruct v as [q|a|o a]; cbn [as_rotation_matrix has_zero_norm].
  - destruct (norm q =? 0) eqn:Hn.
    + unfold as_rotation_matrix_scalar. cbv zeta. rewrite Hn. tauto.
    + split; [|discriminate]. intros H.
      now destruct (nzd_scalar pow eps q Hn).
  - apply Harr.
  - apply Harr.
Qed.

(** ** Theorems: Euler angles *)

Lemma np_arctan2_column (arctan2 : float -> float -> float)
  (s : list nat) (l : list quaternion) (Hlen : length l = size s)
  (g h : quaternion -> float) :
  np_arctan2 arctan2 (Ok (column s l g)) (Ok (column s l h))
  = Ok (column s l (fun u => arctan2 (g u) (h u))).
Proof. unfold np_arctan2. cbn [bind]. now apply np_binop_column. Qed.

(** C8: [as_euler_angles] returns, for one quaternion, the
    triple [alpha = atan2(z,w) + atan2(-x,y)],
    [beta = 2 acos(sqrt((w^2+z^2)/n))], [gamma = atan2(z,w) - atan2(-x,y)]
    with [n] the squared norm, and for an array whose last axis is
    contiguous in memory the triples of its elements, in order, under the
    shape [q.shape + (3,)]. *)
Theorem as_euler_angles_formulas
  (arctan2 : float -> float -> float) (arccos : float -> float)
  (junk : nat -> float) (v : qvalue) :
  wf (np_asarray v) ->
  last_axis_contiguous v = true ->
  as_euler_angles arctan2 arccos junk v
  = Ok (mk_ndarray (qshape v ++ [3%nat])
          (flat_map (spec_euler_angles arctan2 arccos)
             (data (np_asarray v)))).
Proof.
  intros Hwf Hc. unfold as_euler_angles, qshape. cbv zeta.
  rewrite as_float_array_ok by assumption. cbn [bind]. clear Hc.
  destruct (np_asarray v) as [s l]. unfold wf in Hwf.
  cbn [shape data] in *. clear v.
  destruct s as [|d s].
  - destruct (wf_scalar_shape l Hwf) as [q ->].
    vm_compute. reflexivity.
  - rewrite atleast_1d_id by discriminate. cbn [shape].
    set (s' := d :: s) in *.
    columns s' l Hwf.
    rewrite !(np_arctan2_column arctan2 s' l Hwf).
    columns s' l Hwf.
    cbn [bind]. unfold np_empty.
    setitems s' l Hwf.
    do 2 f_equal.
    change (size [3%nat]) with 3%nat.
    cbn [ravel size fold_right Nat.mul Nat.add].
    rewrite scatter_three; [reflexivity|].
    rewrite length_tabulate, size_app, Hwf. reflexivity.
Qed.

(** C8 on an array of two quaternions, with stand-ins for the two
    functions of the mathematical library. *)
Lemma as_euler_angles_formulas_witness :
  as_euler_angles (fun a b => a / b) (fun a => a) (fun _ => 0)
    (QArray (mk_ndarray [2%nat]
               [mk_quaternion 1 0 0 1; mk_quaternion 1 2 3 4]))
  = Ok (mk_ndarray [2; 3]%nat
          (flat_map (spec_euler_angles (fun a b => a / b) (fun a => a))
             [mk_quaternion 1 0 0 1; mk_quaternion 1 2 3 4])).
Proof.
  apply (as_euler_angles_formulas (fun a b => a / b) (fun a => a)
           (fun _ => 0)
           (QArray (mk_ndarray [2%nat]
                      [mk_quaternion 1 0 0 1; mk_quaternion 1 2 3 4])));
    reflexivity.
Defined.

(** C8 on an array whose last axis is not contiguous: on every second
    element of a four-element array (the slice [q[::2]]) the call raises
    [ValueError], at [a.view(np.float)] in [as_float_array], instead of
    returning the angles. *)
Lemma as_euler_angles_slice_refused :
  as_euler_angles (fun a b => a / b) (fun a => a) (fun _ => 0)
    (QStrided true
       (mk_ndarray [2%nat] [mk_quaternion 1 0 0 1; mk_quaternion 1 2 3 4]))
  = Raise ValueError.
Proof. reflexivity. Qed.

(** ** Theorems: rotation vectors *)

Lemma getslice_vector_part (s : list nat) (l : list quaternion) :
  length l = size s ->
  getslice_last_from 0 1 (mk_ndarray (s ++ [4%nat]) (flat_map components l))
  = Ok (mk_ndarray (s ++ [3%nat]) (flat_map vector_part l)).
Proof.
  intros Hlen. unfold getslice_last_from. cbn [shape data].
  rewrite rev_app_distr. cbn [rev app]. rewrite rev_involutive. cbv zeta.
  change (4 - 1)%nat with 3%nat. do 2 f_equal.
  apply (list_eq_nth 0).
  - rewrite length_tabulate, (length_flat_map_block vector_part 3), Hlen
      by reflexivity.
    reflexivity.
  - intros t Ht. rewrite length_tabulate, <- Hlen in Ht.
    rewrite nth_tabulate by (rewrite <- Hlen; exact Ht).
    assert (Hq : (t / 3 < length l)%nat)
      by (apply Nat.Div0.div_lt_upper_bound; lia).
    pose proof (Nat.mod_upper_bound t 3 ltac:(lia)) as Hm.
    rewrite (nth_flat_map_block components 4 l (t / 3) _ zero)
      by (auto; lia).
    rewrite (nth_flat_map_divmod vector_part 3 l t zero) by auto.
    destruct (t mod 3)%nat as [|[|[|c]]]; reflexivity.
Qed.

(** On an array whose last axis is contiguous, [as_rotation_vector]
    holds the vector parts of [2 log(normalize(q))], element by
    element. *)
Lemma as_rotation_vector_array
  (quaternion_log quaternion_normalized : quaternion -> quaternion)
  (a : ndarray quaternion) :
  wf a ->
  as_rotation_vector quaternion_log quaternion_normalized (QArray a)
  = Ok (mk_ndarray (shape (atleast_1d a) ++ [3%nat])
          (flat_map
             (spec_rotation_vector quaternion_log quaternion_normalized)
             (data a))).
Proof.
  destruct a as [s l]. unfold wf. cbn [shape data]. intros Hwf.
  unfold as_rotation_vector. cbn [qmap np_map shape data].
  rewrite as_float_array_ok by reflexivity. cbn [bind np_asarray data].
  assert (Hs : forall A (l' : list A),
             shape (atleast_1d (mk_ndarray s l'))
             = match s with [] => [1%nat] | _ => s end)
    by (intros A l'; unfold atleast_1d; cbn [shape]; now destruct s).
  rewrite !Hs, getslice_vector_part.
  - unfold np_map. cbn [shape data]. rewrite Hs.
    rewrite !flat_map_concat_map, !map_map. reflexivity.
  - unfold np_map. cbn [shape data]. rewrite !length_map, Hwf.
    now destruct s.
Qed.

(** The output of a ufunc has a contiguous last axis as soon as the last
    axis of the input is the innermost one. *)
Lemma qmap_contiguous (f : quaternion -> quaternion) (v : qvalue) :
  (forall a, v <> QStrided false a) ->
  last_axis_contiguous (qmap f v) = true.
Proof.
  intros H. destruct v as [q|a|[|] a]; try reflexivity.
  now destruct (H a).
Qed.

Lemma qmap_innermost (f : quaternion -> quaternion) (v : qvalue) :
  (forall a, v <> QStrided false a) ->
  forall a, qmap f v <> QStrided false a.
Proof.
  intros H a. destruct v as [q|a'|[|] a']; try discriminate.
  now destruct (H a').
Qed.

(** [as_rotation_vector] raises no error, whatever the norms are, on a
    scalar and on an array whose last axis is the innermost one. *)
Lemma as_rotation_vector_total
  (quaternion_log quaternion_normalized : quaternion -> quaternion)
  (v : qvalue) :
  (forall a, v <> QStrided false a) ->
  exists r,
    as_rotation_vector quaternion_log quaternion_normalized v = Ok r.
Proof.
  intros H. unfold as_rotation_vector.
  rewrite as_float_array_ok
    by (apply qmap_contiguous; do 2 apply qmap_innermost; assumption).
  cbn [bind].
  unfold getslice_last_from. cbn [shape data].
  rewrite rev_app_distr. cbn [rev app]. eauto.
Qed.

(** C7 on a scalar input: the vector part of [2 log(normalize(q))] comes
    back under the shape [(1, 3)], not [q.shape + (3,) = (3,)]. *)
Theorem as_rotation_vector_scalar
  (quaternion_log quaternion_normalized : quaternion -> quaternion)
  (q : quaternion) :
  as_rotation_vector quaternion_log quaternion_normalized (QScalar q)
  = Ok (mk_ndarray [1; 3]%nat
          (spec_rotation_vector quaternion_log quaternion_normalized q)).
Proof.
  unfold as_rotation_vector. cbn [qmap].
  rewrite as_float_array_scalar_view. cbn [bind]. reflexivity.
Qed.

(** What [from_rotation_vector] does with the zero vector: it builds the
    scalar quaternion (0, 0, 0, 0) and hands it to the exponential. *)
Lemma from_rotation_vector_zero
  (quaternion_exp : quaternion -> quaternion) :
  from_rotation_vector quaternion_exp (mk_ndarray [3%nat] [0; 0; 0])
  = Ok (QScalar (quaternion_exp zero)).
Proof. vm_compute. reflexivity. Qed.

(** ** Lemmas: axis labels of [einsum] *)

Lemma nth_error_combine {A B : Type} (l1 : list A) (l2 : list B)
  (i : nat) (a : A) (b : B) :
  nth_error (combine l1 l2) i = Some (a, b)
  <-> nth_error l1 i = Some a /\ nth_error l2 i = Some b.
Proof.
  revert l2 i. induction l1 as [|a1 l1 IH]; intros l2 i.
  - cbn [combine]. destruct i; cbn [nth_error];
      (split; [discriminate|intros [H _]; discriminate H]).
  - destruct l2 as [|b1 l2]; cbn [combine].
    + destruct i; cbn [nth_error];
        (split; [discriminate|intros [_ H]; discriminate H]).
    + destruct i as [|i]; cbn [nth_error]; [|apply IH].
      split; [intros [= -> ->]; now split|].
      intros [[= ->] [= ->]]; reflexivity.
Qed.

Lemma nth_error_update {A : Type} (j : nat) (c : A) (ls : list A) (i : nat) :
  nth_error (update j c ls) i
  = if (i =? j)%nat
    then match nth_error ls i with Some _ => Some c | None => None end
    else nth_error ls i.
Proof.
  revert j i. induction ls as [|b ls IH]; intros j i.
  - replace (update j c []) with (@nil A) by (now destruct j).
    destruct (i =? j)%nat; now destruct i.
  - destruct j as [|j], i as [|i]; cbn [update nth_error Nat.eqb];
      try reflexivity.
    apply IH.
Qed.

Lemma length_update {A : Type} (j : nat) (c : A) (ls : list A) :
  length (update j c ls) = length ls.
Proof.
  revert j. induction ls as [|b ls IH]; intros [|j]; cbn; auto.
Qed.

Lemma lookup_In (env : list (nat * nat)) (l d : nat) :
  lookup l env = Some d -> In (l, d) env.
Proof.
  induction env as [|[l' d'] env IH]; cbn [lookup]; [discriminate|].
  destruct (Nat.eqb_spec l l') as [->|_].
  - intros [= ->]. now left.
  - intros H. right. auto.
Qed.

Lemma In_lookup (env : list (nat * nat)) (l d : nat) :
  In (l, d) env -> exists d', lookup l env = Some d'.
Proof.
  induction env as [|[l' d'] env IH]; cbn [lookup In]; [tauto|].
  destruct (Nat.eqb_spec l l') as [->|Hne]; [eauto|].
  intros [[= -> ->]|H]; [congruence|auto].
Qed.

Lemma functional_consistent (env : list (nat * nat)) :
  functional env ->
  forallb (fun ld => (lookup0 env (fst ld) =? snd ld)%nat) env = true.
Proof.
  intros Hf. apply forallb_forall. intros [l d] Hin. cbn [fst snd].
  unfold lookup0. destruct (In_lookup env l d Hin) as [d' Hd'].
  rewrite Hd'. apply Nat.eqb_eq. apply (Hf l); [|assumption].
  now apply lookup_In.
Qed.


Section EinsumLabels.

(** The operands of the contraction in [rotate_vectors]: a matrix array
    of shape [rs ++ [3; 3]] and vectors of shape [vs] whose axis [j] has
    length three. *)
Variable rs vs : list nat.
Variable j : nat.
Hypothesis Hj : nth_error vs j = Some 3%nat.

Let nm : nat := (length rs + 2)%nat.
Let ms : list nat := (rs ++ [3; 3])%nat.
Let m_axes : list nat := seq 0 nm.
Let v_axes : list nat := update j (nm - 1)%nat (seq nm (length vs)).
Let mv_axes : list nat :=
  firstn (nm - 2) m_axes ++ update j (nm - 2)%nat (seq nm (length vs)).
Let dims : list (nat * nat) := combine m_axes ms ++ combine v_axes vs.

Lemma ms_length : length ms = nm.
Proof. subst ms nm. rewrite length_app. reflexivity. Qed.

Lemma in_matrix_axes (l d : nat) :
  In (l, d) (combine m_axes ms) <-> nth_error ms l = Some d.
Proof.
  rewrite In_iff_nth_error. split.
  - intros [i Hi]. apply nth_error_combine in Hi as [H1 H2].
    subst m_axes. rewrite nth_error_seq in H1.
    destruct (i <? nm)%nat; [|discriminate]. now injection H1 as <-.
  - intros H. exists l. apply nth_error_combine. split; [|assumption].
    subst m_axes. rewrite nth_error_seq.
    assert (l < nm)%nat
      by (rewrite <- ms_length; apply nth_error_Some; congruence).
    now apply Nat.ltb_lt in H0 as ->.
Qed.

Lemma in_vector_axes (c l d : nat) :
  In (l, d) (combine (update j c (seq nm (length vs))) vs)
  <-> (l = c /\ d = 3%nat)
      \/ (exists i, i <> j /\ l = (nm + i)%nat /\ nth_error vs i = Some d).
Proof.
  rewrite In_iff_nth_error. split.
  - intros [i Hi]. apply nth_error_combine in Hi as [H1 H2].
    rewrite nth_error_update, nth_error_seq in H1.
    assert (Hlt : (i < length vs)%nat)
      by (apply nth_error_Some; congruence).
    apply Nat.ltb_lt in Hlt. rewrite Hlt in H1.
    destruct (Nat.eqb_spec i j) as [E|Hne].
    + left. injection H1 as <-. rewrite E in H2. split; congruence.
    + right. exists i. injection H1 as <-. auto.
  - intros [[-> ->]|(i & Hne & -> & Hd)].
    + exists j. apply nth_error_combine. split; [|assumption].
      rewrite nth_error_update, nth_error_seq, Nat.eqb_refl.
      assert (Hlt : (j < length vs)%nat)
        by (apply nth_error_Some; congruence).
      now apply Nat.ltb_lt in Hlt as ->.
    + exists i. apply nth_error_combine. split; [|assumption].
      rewrite nth_error_update, nth_error_seq.
      apply Nat.eqb_neq in Hne as ->.
      assert (Hlt : (i < length vs)%nat)
        by (apply nth_error_Some; congruence).
      now apply Nat.ltb_lt in Hlt as ->.
Qed.

Lemma ms_column : nth_error ms (nm - 1) = Some 3%nat.
Proof.
  subst ms nm. rewrite nth_error_app2 by lia.
  replace (length rs + 2 - 1 - length rs)%nat with 1%nat by lia.
  reflexivity.
Qed.

Lemma dims_functional : functional dims.
Proof.
  intros l d d' H H'. subst dims. apply in_app_iff in H, H'.
  subst v_axes. rewrite in_matrix_axes, in_vector_axes in H, H'.
  assert (Hm : forall e, nth_error ms l = Some e -> (l < nm)%nat)
    by (intros e He; rewrite <- ms_length; apply nth_error_Some; congruence).
  pose proof ms_column as Hc.
  destruct H as [H|[[-> ->]|(i & Hi & -> & H)]],
      H' as [H'|[[E' ->]|(i' & Hi' & E' & H')]];
    try congruence; try (specialize (Hm _ H)); try (specialize (Hm _ H'));
    try lia.
  assert (i = i') by lia. congruence.
Qed.



End EinsumLabels.

(** ** Theorems: [rotate_vectors] *)



Lemma py_index_inv {A : Type} (l : list A) (i : Z) (a : A) :
  py_index l i = Ok a ->
  exists j, normalize_index (length l) i = Ok j /\ nth_error l j = Some a.
Proof.
  unfold py_index.
  destruct (normalize_index (length l) i) as [j|e'] eqn:E; cbn [bind];
    [|discriminate].
  destruct (nth_error l j) eqn:E'; [|discriminate].
  intros [= ->]. eauto.
Qed.

Lemma py_index_seq_from_end (n k : nat) :
  (0 < k <= n)%nat ->
  py_index (seq 0 n) (- Z.of_nat k) = Ok (n - k)%nat.
Proof.
  intros Hk. unfold py_index.
  rewrite length_seq, (normalize_index_from_end n k Hk). cbn [bind].
  rewrite nth_error_seq.
  replace (n - k <? n)%nat with true by (symmetry; apply Nat.ltb_lt; lia).
  reflexivity.
Qed.

Lemma existsb_eqb_In (k : nat) (s : list nat) :
  existsb (Nat.eqb k) s = true <-> In k s.
Proof.
  rewrite existsb_exists. split.
  - intros (u & Hu & E). apply Nat.eqb_eq in E. now subst.
  - intros H. exists k. split; [assumption|apply Nat.eqb_refl].
Qed.

Lemma first_check_invalid (v : ndarray float) :
  (ndim v <? 1)%nat || negb (existsb (Nat.eqb 3) (shape v)) = true
  <-> (ndim v < 1)%nat \/ ~ In 3%nat (shape v).
Proof.
  rewrite orb_true_iff, Nat.ltb_lt, negb_true_iff.
  pose proof (existsb_eqb_In 3 (shape v)) as HIn.
  destruct (existsb (Nat.eqb 3) (shape v)).
  - split; intros [H|H]; auto; [discriminate|].
    exfalso. apply H, HIn. reflexivity.
  - split; intros [H|H]; auto. right. intros H3. apply HIn in H3.
    discriminate.
Qed.


Lemma selected_axis_valid (v : ndarray float) (axis : Z) :
  py_index (shape v) axis = Ok 3%nat ->
  (ndim v <? 1)%nat || negb (existsb (Nat.eqb 3) (shape v)) = false.
Proof.
  intros Hax. apply not_true_is_false. intros E.
  apply first_check_invalid in E.
  apply py_index_inv in Hax as (j & _ & Hj).
  destruct E as [E|E].
  - unfold ndim in E. destruct (shape v); [destruct j; discriminate|].
    cbn in E. lia.
  - apply E. eapply nth_error_In; eassumption.
Qed.

(** After [np.asarray] the branch for arrays is taken, on the elements
    of [R] and with its memory layout. *)
Lemma as_rotation_matrix_asarray (pow : float -> float -> float)
  (eps : float) (junk : nat -> float) (R : qvalue) :
  as_rotation_matrix pow eps junk (asarray R)
  = as_rotation_matrix_array junk (asarray R).
Proof. now destruct R. Qed.

Lemma asarray_contiguous (R : qvalue) :
  last_axis_contiguous R = true -> asarray R = QArray (np_asarray R).
Proof. destruct R; [reflexivity|reflexivity|discriminate]. Qed.

Lemma np_asarray_asarray (R : qvalue) :
  np_asarray (asarray R) = np_asarray R.
Proof. now destruct R. Qed.








(** A rotation by a quarter turn about the third axis, computed through
    [rotate_vectors]. *)
Example rotate_vectors_quarter_turn :
  rotate_vectors (fun a _ => a * a) 1e-14 (fun _ => 0) sum_in_order
    (QScalar (mk_quaternion 1 0 0 1)) (mk_ndarray [3%nat] [1; 0; 0]) (-1)
  = Ok (mk_ndarray [3%nat] [0; 1; 0]).
Proof. vm_compute. reflexivity. Qed.

(** ** Checks of the array model on small inputs *)

(** Broadcasting stretches the axes of length one. *)
Example np_binop_broadcast :
  np_binop PrimFloat.add (mk_ndarray [2; 1]%nat [10; 20])
                         (mk_ndarray [3%nat] [1; 2; 3])
  = Ok (mk_ndarray [2; 3]%nat [11; 12; 13; 21; 22; 23]).
Proof. vm_compute. reflexivity. Qed.

Example np_binop_mismatch :
  np_binop PrimFloat.add (mk_ndarray [2%nat] [10; 20])
                         (mk_ndarray [3%nat] [1; 2; 3])
  = Raise ValueError.
Proof. vm_compute. reflexivity. Qed.

(** A column of a 2x3 array is read, and written back doubled. *)
Example getitem_setitem_last :
  (c <- getitem_last 0 1 (mk_ndarray [2; 3]%nat [1; 2; 3; 4; 5; 6]) ;;
   setitem_last [1%nat] (np_map (fun t => 2 * t) c)
     (mk_ndarray [2; 3]%nat [1; 2; 3; 4; 5; 6]))
  = Ok (mk_ndarray [2; 3]%nat [1; 4; 3; 4; 10; 6]).
Proof. vm_compute. reflexivity. Qed.

(** The view bridge on a 2-element array, there and back. *)
Example view_bridge :
  as_float_array
    (QArray (mk_ndarray [2%nat]
               [mk_quaternion 1 2 3 4; mk_quaternion 5 6 7 8]))
  = Ok (mk_ndarray [2; 4]%nat [1; 2; 3; 4; 5; 6; 7; 8])
  /\ as_quat_array (mk_ndarray [2; 4]%nat [1; 2; 3; 4; 5; 6; 7; 8])
     = Ok (QArray (mk_ndarray [2%nat]
                     [mk_quaternion 1 2 3 4; mk_quaternion 5 6 7 8]))
  /\ as_quat_array (mk_ndarray [4%nat] [1; 2; 3; 4])
     = Ok (QScalar (mk_quaternion 1 2 3 4))
  /\ as_quat_array (mk_ndarray [3%nat] [1; 2; 3]) = Raise ValueError.
Proof. repeat split; vm_compute; reflexivity. Qed.

(** X7: when the scalar branch takes the general formulas, it and the
    array branch evaluate the same entries for one quaternion, the first
    with the squares [a ** 2] and the second with the products [a * a];
    they return the same matrix when these squares coincide on [x], [y]
    and [z]. *)
Corollary scalar_and_batch_agree (pow : float -> float -> float)
  (eps : float) (junk : nat -> float) (q : quaternion) :
  (norm q =? 0) = false ->
  (abs (norm q - 1) <? eps) = false ->
  square_in_range (x q) -> square_in_range (y q) -> square_in_range (z q) ->
  as_rotation_matrix pow eps junk (QScalar q)
  = Ok (mk_ndarray [3; 3]%nat
          (matrix_general_with (fun a => pow a 2) q (norm q)))
  /\ as_rotation_matrix pow eps junk (QArray (mk_ndarray [] [q]))
     = Ok (mk_ndarray [3; 3]%nat
             (matrix_general_with (fun a => a * a) q (norm q)))
  /\ (pow (x q) 2 = x q * x q -> pow (y q) 2 = y q * y q ->
      pow (z q) 2 = z q * z q ->
      as_rotation_matrix pow eps junk (QScalar q)
      = as_rotation_matrix pow eps junk (QArray (mk_ndarray [] [q]))).
Proof.
  intros Hn He Hx Hy Hz.
  assert (Hs : as_rotation_matrix pow eps junk (QScalar q)
               = Ok (mk_ndarray [3; 3]%nat
                       (matrix_general_with (fun a => pow a 2) q (norm q)))).
  { rewrite as_rotation_matrix_scalar_formulas by assumption.
    unfold scalar_rotation_matrix. cbv zeta. now rewrite He. }
  assert (Ha : as_rotation_matrix pow eps junk (QArray (mk_ndarray [] [q]))
               = Ok (mk_ndarray [3; 3]%nat
                       (matrix_general_with (fun a => a * a) q (norm q)))).
  { cbn [as_rotation_matrix].
    rewrite as_rotation_matrix_array_ok
      by (try reflexivity; cbn [data]; repeat constructor; assumption).
    cbn [shape data flat_map app]. now rewrite app_nil_r. }
  split; [exact Hs|]. split; [exact Ha|].
  intros Px Py Pz. rewrite Hs, Ha. unfold matrix_general_with.
  now rewrite Px, Py, Pz.
Qed.

(** ** Further theorems: the memory view bridge *)

(** X1: on an array with at least one dimension whose last axis is
    contiguous in memory [as_float_array]
    succeeds, appends an axis of length four to the shape and lists the
    components (w, x, y, z) of the elements in order. *)
Theorem as_float_array_array (a : ndarray quaternion) :
  shape a <> [] ->
  as_float_array (QArray a)
  = Ok (mk_ndarray (shape a ++ [4%nat]) (flat_map components (data a))).
Proof.
  intros Hs. rewrite as_float_array_ok by reflexivity. cbn [np_asarray].
  now rewrite atleast_1d_id.
Qed.

Lemma as_float_array_array_witness :
  as_float_array
    (QArray (mk_ndarray [2%nat]
               [mk_quaternion 1 2 3 4; mk_quaternion 5 6 7 8]))
  = Ok (mk_ndarray ([2%nat] ++ [4%nat])
          (flat_map components
             [mk_quaternion 1 2 3 4; mk_quaternion 5 6 7 8])).
Proof.
  apply (as_float_array_array
           (mk_ndarray [2%nat]
              [mk_quaternion 1 2 3 4; mk_quaternion 5 6 7 8])).
  discriminate.
Defined.

Lemma wf_atleast_1d {A : Type} (a : ndarray A) : wf a -> wf (atleast_1d a).
Proof.
  unfold wf, atleast_1d. destruct (shape a) eqn:E; cbn [shape data].
  - intros H. exact H.
  - rewrite E. intros H. exact H.
Qed.

Lemma as_quat_array_unfold (f : ndarray float) (s : list nat) (n : nat) :
  wf f ->
  shape (ascontiguousarray f) = s ++ [n] ->
  as_quat_array f = as_quat_array_outcome s n (data f).
Proof.
  intros Hwf Hs. apply wf_atleast_1d in Hwf.
  unfold as_quat_array, as_quat_array_outcome.
  fold (ascontiguousarray f) in Hwf.
  assert (Hd : data (ascontiguousarray f) = data f)
    by apply atleast_1d_data.
  destruct (ascontiguousarray f) as [s' l]. cbn [shape data] in *.
  subst s' l. unfold wf in Hwf. cbn [shape data] in Hwf.
  unfold list_eqb.
  destruct (list_eq_dec Nat.eq_dec (s ++ [n]) [4%nat]) as [E|E].
  - assert (s = [] /\ n = 4%nat) as [-> ->].
    { destruct s as [|d [|d' s']]; cbn in E; try discriminate.
      now injection E. }
    cbn in Hwf.
    destruct (data f) as [|a0 [|a1 [|a2 [|a3 [|a4 l]]]]];
      try discriminate Hwf.
    reflexivity.
  - unfold view_quaternion. cbn [shape data].
    rewrite rev_app_distr. cbn [rev app]. rewrite rev_involutive.
    destruct (n mod 4 =? 0)%nat eqn:Hn; cbn [negb]; [|reflexivity].
    cbn [bind]. rewrite py_index_last. cbn [bind].
    rewrite removelast_snoc. unfold reshape. cbn [shape data].
    destruct (n =? 4)%nat eqn:H4.
    + apply Nat.eqb_eq in H4. subst n.
      rewrite size_app. change (size [(4 / 4)%nat]) with 1%nat.
      rewrite Nat.mul_1_r, Nat.eqb_refl.
      destruct s; [exfalso; apply E; reflexivity|reflexivity].
    + rewrite Nat.eqb_refl. now destruct s.
Qed.

(** X2: [as_quat_array] raises [ValueError] exactly when the last axis
    is not a multiple of four (a 0-d input counts as one element); otherwise
    it returns the floats grouped by four: one scalar quaternion for the
    shape [(4,)], the leading shape when the last axis is four, and the
    last axis divided by four in the remaining cases. *)
Theorem as_quat_array_cases (f : ndarray float) (s : list nat) (n : nat) :
  wf f ->
  shape (ascontiguousarray f) = s ++ [n] ->
  as_quat_array f = as_quat_array_outcome s n (data f).
Proof. apply as_quat_array_unfold. Qed.

Lemma as_quat_array_cases_witness :
  as_quat_array (mk_ndarray [3; 8]%nat (repeat 1 24))
  = as_quat_array_outcome [3%nat] 8 (repeat 1 24).
Proof.
  apply (as_quat_array_cases (mk_ndarray [3; 8]%nat (repeat 1 24))
           [3%nat] 8%nat); reflexivity.
Defined.

Lemma components_group4 (k : nat) (l : list float) :
  length l = (4 * k)%nat -> flat_map components (group4 l) = l.
Proof.
  revert l. induction k as [|k IH]; intros l Hl.
  - destruct l; [reflexivity|discriminate].
  - destruct l as [|a0 [|a1 [|a2 [|a3 l]]]]; cbn in Hl; try lia.
    cbn [group4 flat_map components w x y z app]. rewrite IH by lia.
    reflexivity.
Qed.

(** X3: viewing a float array as quaternions and the result as floats
    again gives back the same numbers in the same order; the shape comes
    back unchanged when the array has two dimensions or more and a last
    axis of length four, the shape [(4,)] comes back as [(1, 4)], and a
    last axis of [4 m] is split in two axes [(m, 4)]. *)
Theorem as_float_array_as_quat_array (f : ndarray float) (s : list nat)
  (n : nat) :
  wf f ->
  shape (ascontiguousarray f) = s ++ [n] ->
  (n mod 4 = 0)%nat ->
  (v <- as_quat_array f ;; as_float_array v)
  = Ok (mk_ndarray
          (match s, (n =? 4)%nat with
           | [], true => [1; 4]
           | _, true => s ++ [4]
           | _, false => s ++ [n / 4; 4]
           end)%nat
          (data f)).
Proof.
  intros Hwf Hs Hn.
  rewrite (as_quat_array_unfold f s n Hwf Hs).
  assert (Hl : length (data f) = (4 * (size s * (n / 4)))%nat).
  { apply wf_atleast_1d in Hwf. unfold wf in Hwf.
    fold (ascontiguousarray f) in Hwf.
    rewrite Hs, size_app in Hwf.
    unfold ascontiguousarray in Hwf. rewrite atleast_1d_data in Hwf.
    rewrite Hwf. change (size [n]) with (n * 1)%nat.
    pose proof (Nat.div_mod_eq n 4). lia. }
  unfold as_quat_array_outcome.
  apply Nat.eqb_eq in Hn as Hn'. rewrite Hn'. cbn [negb].
  destruct (n =? 4)%nat eqn:H4.
  - apply Nat.eqb_eq in H4. subst n.
    destruct s as [|d s].
    + cbn [bind]. rewrite as_float_array_scalar_view.
      cbn in Hl.
      destruct (data f) as [|a0 [|a1 [|a2 [|a3 [|a4 l]]]]];
        try discriminate Hl.
      reflexivity.
    + cbn [bind]. rewrite as_float_array_ok by reflexivity.
      cbn [np_asarray data].
      rewrite atleast_1d_id by discriminate. cbn [shape].
      now rewrite (components_group4 _ _ Hl).
  - assert (Hs' : forall s0 : list nat,
               match s0 with
               | [] => Ok (QArray (mk_ndarray (s0 ++ [n / 4])%nat
                                     (group4 (data f))))
               | _ :: _ => Ok (QArray (mk_ndarray (s0 ++ [n / 4])%nat
                                         (group4 (data f))))
               end
               = Ok (QArray (mk_ndarray (s0 ++ [n / 4])%nat
                               (group4 (data f)))))
      by (now intros []).
    rewrite Hs'. cbn [bind].
    rewrite as_float_array_ok by reflexivity. cbn [np_asarray data].
    rewrite atleast_1d_id by (cbn [shape]; destruct s; discriminate).
    cbn [shape]. rewrite (components_group4 _ _ Hl), <- app_assoc.
    now destruct s.
Qed.

Lemma as_float_array_as_quat_array_witness :
  (v <- as_quat_array (mk_ndarray [2; 4]%nat [1; 2; 3; 4; 5; 6; 7; 8]) ;;
   as_float_array v)
  = Ok (mk_ndarray [2; 4]%nat [1; 2; 3; 4; 5; 6; 7; 8]).
Proof.
  apply (as_float_array_as_quat_array
           (mk_ndarray [2; 4]%nat [1; 2; 3; 4; 5; 6; 7; 8])
           [2%nat] 4%nat); reflexivity.
Defined.

(** ** Further theorems: spinors *)

Lemma take_last_view (s : list nat) (l : list quaternion) :
  length l = size s ->
  take_last 0 [0; 3; 2; 1]%nat
    (mk_ndarray (s ++ [4%nat]) (flat_map components l))
  = Ok (mk_ndarray (s ++ [4%nat])
          (flat_map (fun q => [w q; z q; y q; x q]) l)).
Proof.
  intros Hlen. unfold take_last. cbn [shape data].
  rewrite rev_app_distr. cbn [rev app forallb Nat.ltb Nat.leb andb length].
  rewrite rev_involutive. cbv zeta. do 2 f_equal.
  apply (list_eq_nth 0).
  - rewrite length_tabulate,
      (length_flat_map_block (fun q => [w q; z q; y q; x q]) 4), Hlen
      by reflexivity.
    reflexivity.
  - intros t Ht. rewrite length_tabulate, <- Hlen in Ht.
    rewrite nth_tabulate by (rewrite <- Hlen; exact Ht).
    assert (Hq : (t / 4 < length l)%nat)
      by (apply Nat.Div0.div_lt_upper_bound; lia).
    pose proof (Nat.mod_upper_bound t 4 ltac:(lia)) as Hm.
    rewrite (nth_flat_map_divmod (fun q => [w q; z q; y q; x q]) 4 l t zero)
      by auto.
    rewrite (nth_flat_map_block components 4 l (t / 4) _ zero);
      [|auto|auto|destruct (t mod 4)%nat as [|[|[|[|c]]]]; cbn; lia].
    destruct (t mod 4)%nat as [|[|[|[|c]]]]; try reflexivity. lia.
Qed.

Lemma group2_spinor (l : list quaternion) :
  group2 (flat_map (fun q => [w q; z q; y q; x q]) l) = flat_map spinor l.
Proof.
  induction l as [|q l IH]; [reflexivity|].
  cbn [flat_map app group2 spinor]. now rewrite IH.
Qed.

(** X4: on a scalar or a well-formed array whose last axis is
    contiguous in memory [as_spinor_array] succeeds;
    every quaternion (w, x, y, z) becomes the two complex numbers
    [w + i z] and [y + i x], in this order, along a new last axis of
    length two (a scalar first becomes an array of shape [(1,)]). *)
Theorem as_spinor_array_components (v : qvalue) :
  wf (np_asarray v) ->
  last_axis_contiguous v = true ->
  as_spinor_array v
  = Ok (mk_ndarray (shape (atleast_1d (np_asarray v)) ++ [2%nat])
          (flat_map spinor (data (np_asarray v)))).
Proof.
  intros Hwf Hc. apply wf_atleast_1d in Hwf.
  unfold as_spinor_array. cbv zeta.
  pose proof (as_float_array_ok v Hc) as Hf. unfold as_float_array in Hf.
  cbv zeta in Hf. rewrite Hc in *.
  rewrite <- (atleast_1d_data (np_asarray v)) in *.
  destruct (atleast_1d_shape_cons (np_asarray v)) as (d & s & E).
  destruct (atleast_1d (np_asarray v)) as [s' l]. cbn [shape data] in *.
  subst s'. unfold wf in Hwf. cbn [shape data] in Hwf.
  set (s' := d :: s) in *.
  assert (Hf' : (av <- view_float true (mk_ndarray s' l) ;;
                 reshape (s' ++ [4%nat]) av)
                = Ok (mk_ndarray (s' ++ [4%nat]) (flat_map components l)))
    by exact Hf.
  destruct (view_float true (mk_ndarray s' l)) as [av|e];
    [|discriminate Hf'].
  cbn [bind] in *. rewrite Hf'. cbn [bind].
  rewrite (take_last_view s' l Hwf). cbn [bind].
  unfold np_ravel, view_complex. cbn [shape data rev app].
  rewrite size_app. change (size [4%nat]) with 4%nat.
  replace ((size s' * 4) mod 2 =? 0)%nat with true.
  2:{ symmetry. apply Nat.eqb_eq.
      replace (size s' * 4)%nat with (size s' * 2 * 2)%nat by lia.
      apply Nat.Div0.mod_mul. }
  cbn [bind]. unfold reshape. cbn [shape data].
  rewrite size_app. change (size [2%nat]) with 2%nat.
  replace (size [(size s' * 4 / 2)%nat]) with (size s' * 4 / 2 * 1)%nat
    by reflexivity.
  replace (size s' * 4 / 2)%nat with (size s' * 2)%nat.
  2:{ replace (size s' * 4)%nat with (size s' * 2 * 2)%nat by lia.
      now rewrite Nat.div_mul. }
  replace (size s' * 2 =? size s' * 2 * 1)%nat with true
    by (symmetry; apply Nat.eqb_eq; lia).
  now rewrite group2_spinor.
Qed.

Lemma as_spinor_array_components_witness :
  as_spinor_array
    (QArray (mk_ndarray [2%nat]
               [mk_quaternion 1 2 3 4; mk_quaternion 5 6 7 8]))
  = Ok (mk_ndarray [2; 2]%nat
          [mk_complex 1 4; mk_complex 3 2; mk_complex 5 8; mk_complex 7 6]).
Proof.
  apply (as_spinor_array_components
           (QArray (mk_ndarray [2%nat]
                      [mk_quaternion 1 2 3 4; mk_quaternion 5 6 7 8])));
    reflexivity.
Defined.

(** ** Further theorems: spherical coordinates *)

Lemma as_euler_angles_ok
  (arctan2 : float -> float -> float) (arccos : float -> float)
  (junk : nat -> float) (v : qvalue) :
  wf (np_asarray v) ->
  last_axis_contiguous v = true ->
  as_euler_angles arctan2 arccos junk v
  = Ok (mk_ndarray (qshape v ++ [3%nat])
          (flat_map (spec_euler_angles arctan2 arccos)
             (data (np_asarray v)))).
Proof.
  intros Hwf Hc. unfold as_euler_angles, qshape. cbv zeta.
  rewrite as_float_array_ok by assumption. cbn [bind]. clear Hc.
  destruct (np_asarray v) as [s l]. unfold wf in Hwf.
  cbn [shape data] in *. clear v.
  destruct s as [|d s].
  - destruct (wf_scalar_shape l Hwf) as [q ->].
    vm_compute. reflexivity.
  - rewrite atleast_1d_id by discriminate. cbn [shape].
    set (s' := d :: s) in *.
    columns s' l Hwf.
    rewrite !(np_arctan2_column arctan2 s' l Hwf).
    columns s' l Hwf.
    cbn [bind]. unfold np_empty.
    setitems s' l Hwf.
    do 2 f_equal.
    change (size [3%nat]) with 3%nat.
    cbn [ravel size fold_right Nat.mul Nat.add].
    rewrite scatter_three; [reflexivity|].
    rewrite length_tabulate, size_app, Hwf. reflexivity.
Qed.

Lemma getslice_down_triples {A : Type} (g : A -> list float) (d' : A)
  (s : list nat) (l : list A) :
  (forall u, length (g u) = 3%nat) ->
  length l = size s ->
  getslice_last_down_from 0 1 (mk_ndarray (s ++ [3%nat]) (flat_map g l))
  = Ok (mk_ndarray (s ++ [2%nat])
          (flat_map (fun u => [nth 1 (g u) 0; nth 0 (g u) 0]) l)).
Proof.
  intros Hg Hlen. unfold getslice_last_down_from. cbn [shape data].
  rewrite rev_app_distr. cbn [rev app]. rewrite rev_involutive. cbv zeta.
  change (Nat.min (1 + 1) 3) with 2%nat. do 2 f_equal.
  apply (list_eq_nth 0).
  - rewrite length_tabulate,
      (length_flat_map_block (fun u => [nth 1 (g u) 0; nth 0 (g u) 0]) 2),
      Hlen by reflexivity.
    reflexivity.
  - intros t Ht. rewrite length_tabulate, <- Hlen in Ht.
    rewrite nth_tabulate by (rewrite <- Hlen; exact Ht).
    assert (Hq : (t / 2 < length l)%nat)
      by (apply Nat.Div0.div_lt_upper_bound; lia).
    pose proof (Nat.mod_upper_bound t 2 ltac:(lia)) as Hm.
    rewrite (nth_flat_map_divmod
               (fun u => [nth 1 (g u) 0; nth 0 (g u) 0]) 2 l t d') by auto.
    rewrite (nth_flat_map_block g 3 l (t / 2) _ d') by (auto; lia).
    destruct (t mod 2)%nat as [|[|c]]; try reflexivity. lia.
Qed.

(** X5: [as_spherical_coords] returns, for a scalar or a well-formed
    array whose last axis is contiguous in memory, the pair (beta, alpha) of every quaternion, that is the second
    Euler angle followed by the first, under the shape [q.shape + (2,)];
    the third Euler angle is dropped. *)
Theorem as_spherical_coords_formulas
  (arctan2 : float -> float -> float) (arccos : float -> float)
  (junk : nat -> float) (v : qvalue) :
  wf (np_asarray v) ->
  last_axis_contiguous v = true ->
  as_spherical_coords arctan2 arccos junk v
  = Ok (mk_ndarray (qshape v ++ [2%nat])
          (flat_map (spec_spherical_coords arctan2 arccos)
             (data (np_asarray v)))).
Proof.
  intros Hwf Hc. unfold as_spherical_coords.
  rewrite (as_euler_angles_ok arctan2 arccos junk v Hwf Hc). cbn [bind].
  unfold qshape.
  now rewrite (getslice_down_triples _ zero) by (auto; reflexivity).
Qed.

Lemma as_spherical_coords_formulas_witness :
  as_spherical_coords (fun a b => a / b) (fun a => a) (fun _ => 0)
    (QScalar (mk_quaternion 1 2 3 4))
  = Ok (mk_ndarray [2%nat]
          (spec_spherical_coords (fun a b => a / b) (fun a => a)
             (mk_quaternion 1 2 3 4))).
Proof.
  apply (as_spherical_coords_formulas (fun a b => a / b) (fun a => a)
           (fun _ => 0) (QScalar (mk_quaternion 1 2 3 4)));
    reflexivity.
Defined.

(** ** Further theorems: rotation matrices *)

(** X6: on a well-formed array whose last axis is contiguous in memory
    and without a zero norm, [as_rotation_matrix]
    returns one 3x3 matrix per quaternion, under the shape
    [q.shape + (3, 3)]: the entries of the general formulas, which divide
    by the squared norm, for every element, unit quaternions included. *)
Theorem as_rotation_matrix_array_formulas
  (pow : float -> float -> float) (eps : float) (junk : nat -> float)
  (a : ndarray quaternion) :
  wf a ->
  Forall (fun q => (norm q =? 0) = false) (data a) ->
  as_rotation_matrix pow eps junk (QArray a)
  = Ok (mk_ndarray (shape a ++ [3; 3])%nat
          (flat_map (fun q => spec_matrix_general q (norm q)) (data a))).
Proof. intros Hwf Hn. now apply as_rotation_matrix_array_ok. Qed.

Lemma as_rotation_matrix_array_formulas_witness :
  as_rotation_matrix (fun a _ => a * a) 1e-14 (fun _ => 0)
    (QArray (mk_ndarray [2%nat] [one; mk_quaternion 1 2 3 4]))
  = Ok (mk_ndarray [2; 3; 3]%nat
          (spec_matrix_general one (norm one)
           ++ spec_matrix_general (mk_quaternion 1 2 3 4)
                (norm (mk_quaternion 1 2 3 4)))).
Proof.
  apply (as_rotation_matrix_array_formulas (fun a _ => a * a) 1e-14
           (fun _ => 0)
           (mk_ndarray [2%nat] [one; mk_quaternion 1 2 3 4])).
  - reflexivity.
  - repeat constructor.
Defined.

(** The scalar branch and the array branch on the quaternion
    (1, 2, 3, 4), whose squares are exact. *)
Lemma scalar_and_batch_agree_witness :
  as_rotation_matrix (fun a _ => a * a) 1e-14 (fun _ => 0)
    (QScalar (mk_quaternion 1 2 3 4))
  = as_rotation_matrix (fun a _ => a * a) 1e-14 (fun _ => 0)
      (QArray (mk_ndarray [] [mk_quaternion 1 2 3 4])).
Proof.
  refine (proj2 (proj2 (scalar_and_batch_agree (fun a _ => a * a) 1e-14
                          (fun _ => 0) (mk_quaternion 1 2 3 4)
                          _ _ _ _ _)) _ _ _);
    vm_compute; reflexivity.
Defined.

(** X8: a scalar quaternion makes [as_rotation_matrix] raise
    [OverflowError] exactly when its squared norm is not zero and the
    square of one of [x], [y], [z] is out of range. *)
Theorem as_rotation_matrix_scalar_overflow_iff
  (pow : float -> float -> float) (eps : float) (junk : nat -> float)
  (q : quaternion) :
  as_rotation_matrix pow eps junk (QScalar q) = Raise OverflowError
  <-> (norm q =? 0) = false
      /\ ~ (square_in_range (x q) /\ square_in_range (y q)
            /\ square_in_range (z q)).
Proof.
  cbn [as_rotation_matrix]. destruct (norm q =? 0) eqn:Hn.
  - unfold as_rotation_matrix_scalar. cbv zeta. rewrite Hn.
    split; [discriminate|]. intros [H _]. discriminate H.
  - destruct (scalar_outcome pow eps q Hn)
      as [(Hx & Hy & Hz & m & ->)|[Hno ->]].
    + split; [discriminate|]. intros [_ H]. exfalso. apply H. auto.
    + tauto.
Qed.

(** ** Further theorems: rotation vectors *)

(** X9: on a well-formed array with at least one dimension and a last
    axis that is contiguous in memory
    [as_rotation_vector] raises nothing, zero norms included, and
    returns the vector part of [2 log(normalized(q))] of every element
    under the shape [q.shape + (3,)]. *)
Theorem as_rotation_vector_elements
  (quaternion_log quaternion_normalized : quaternion -> quaternion)
  (a : ndarray quaternion) :
  wf a -> shape a <> [] ->
  as_rotation_vector quaternion_log quaternion_normalized (QArray a)
  = Ok (mk_ndarray (shape a ++ [3%nat])
          (flat_map
             (spec_rotation_vector quaternion_log quaternion_normalized)
             (data a))).
Proof.
  intros Hwf Hs. rewrite as_rotation_vector_array by assumption.
  now rewrite atleast_1d_id.
Qed.

Lemma as_rotation_vector_elements_witness :
  as_rotation_vector (fun q => q) (fun q => q)
    (QArray (mk_ndarray [2%nat]
               [mk_quaternion 1 2 3 4; mk_quaternion 5 6 7 8]))
  = Ok (mk_ndarray [2; 3]%nat [4; 6; 8; 12; 14; 16]).
Proof.
  apply (as_rotation_vector_elements (fun q => q) (fun q => q)
           (mk_ndarray [2%nat]
              [mk_quaternion 1 2 3 4; mk_quaternion 5 6 7 8]));
    [reflexivity|discriminate].
Defined.

Lemma length_group4 (k : nat) (l : list float) :
  length l = (4 * k)%nat -> length (group4 l) = k.
Proof.
  revert l. induction k as [|k IH]; intros l Hl.
  - destruct l; [reflexivity|discriminate].
  - destruct l as [|a0 [|a1 [|a2 [|a3 l]]]]; cbn in Hl; try lia.
    cbn [group4 length]. rewrite IH by lia. reflexivity.
Qed.

Lemma nth_group4 (p : nat) (l : list float) :
  (4 * p + 3 < length l)%nat ->
  nth p (group4 l) zero
  = mk_quaternion (nth (4 * p) l 0) (nth (4 * p + 1) l 0)
      (nth (4 * p + 2) l 0) (nth (4 * p + 3) l 0).
Proof.
  revert l. induction p as [|p IH]; intros l Hl.
  - destruct l as [|a0 [|a1 [|a2 [|a3 l]]]]; cbn in Hl; try lia.
    reflexivity.
  - destruct l as [|a0 [|a1 [|a2 [|a3 l]]]]; cbn in Hl; try lia.
    cbn [group4 nth]. rewrite IH by lia.
    replace (4 * S p)%nat with (S (S (S (S (4 * p))))) by lia.
    reflexivity.
Qed.

Lemma length_half_vectors (k : nat) (l : list float) :
  length l = (3 * k)%nat -> length (half_vectors l) = k.
Proof.
  revert l. induction k as [|k IH]; intros l Hl.
  - destruct l; [reflexivity|discriminate].
  - destruct l as [|a0 [|a1 [|a2 l]]]; cbn in Hl; try lia.
    cbn [half_vectors length]. rewrite IH by lia. reflexivity.
Qed.

Lemma nth_half_vectors (p : nat) (l : list float) :
  (3 * p + 2 < length l)%nat ->
  nth p (half_vectors l) zero
  = mk_quaternion 0 (nth (3 * p) l 0 / 2) (nth (3 * p + 1) l 0 / 2)
      (nth (3 * p + 2) l 0 / 2).
Proof.
  revert l. induction p as [|p IH]; intros l Hl.
  - destruct l as [|a0 [|a1 [|a2 l]]]; cbn in Hl; try lia.
    reflexivity.
  - destruct l as [|a0 [|a1 [|a2 l]]]; cbn in Hl; try lia.
    cbn [half_vectors nth]. rewrite IH by lia.
    replace (3 * S p)%nat with (S (S (S (3 * p)))) by lia.
    reflexivity.
Qed.

(** The buffer that [from_rotation_vector] fills, read four by four. *)
Lemma group4_filled (k : nat) (l : list float) :
  length l = (3 * k)%nat ->
  group4
    (tabulate (4 * k)
       (fun t =>
          if (1 <=? t mod 4)%nat
          then nth (t / 4 * 3 + (t mod 4 - 1))%nat
                 (map (fun u => u / 2) l) 0
          else nth t (repeat 0 (4 * k)) 0))
  = half_vectors l.
Proof.
  intros Hl. apply (list_eq_nth zero).
  - rewrite (length_group4 k) by apply length_tabulate.
    now rewrite (length_half_vectors k).
  - intros p Hp. rewrite (length_group4 k) in Hp by apply length_tabulate.
    rewrite nth_group4 by (rewrite length_tabulate; lia).
    rewrite nth_half_vectors by lia.
    rewrite !nth_tabulate by lia.
    replace (4 * p)%nat with (0 + p * 4)%nat by lia.
    replace (0 + p * 4 + 1)%nat with (1 + p * 4)%nat by lia.
    replace (0 + p * 4 + 2)%nat with (2 + p * 4)%nat by lia.
    replace (0 + p * 4 + 3)%nat with (3 + p * 4)%nat by lia.
    rewrite !Nat.Div0.mod_add, !Nat.div_add by lia.
    cbn [Nat.modulo Nat.div Nat.divmod fst snd Nat.leb Nat.add Nat.sub].
    rewrite nth_repeat.
    rewrite !(nth_map_in _ l _ 0 0) by lia.
    f_equal; f_equal; f_equal; lia.
Qed.

Lemma from_rotation_vector_ok (quaternion_exp : quaternion -> quaternion)
  (rot : ndarray float) (s : list nat) :
  wf rot -> shape rot = s ++ [3%nat] ->
  from_rotation_vector quaternion_exp rot
  = Ok (qmap quaternion_exp
          (match s with
           | [] => QScalar (hd zero (half_vectors (data rot)))
           | _ => QArray (mk_ndarray s (half_vectors (data rot)))
           end)).
Proof.
  intros Hwf Hs. unfold from_rotation_vector.
  rewrite Hs, removelast_snoc. unfold setslice_last_from, np_zeros.
  cbn [shape data]. rewrite rev_app_distr. cbn [rev app]. cbv zeta.
  rewrite rev_involutive. change (4 - 1)%nat with 3%nat.
  assert (Ha : assignable (np_map (fun t => t / 2) rot) (s ++ [3%nat])
               = Ok (np_map (fun t => t / 2) rot)).
  { rewrite <- Hs. apply (assignable_same (np_map (fun t => t / 2) rot)).
    unfold wf, np_map. cbn [shape data]. now rewrite length_map. }
  rewrite Ha. cbn [bind np_map data].
  unfold wf in Hwf. rewrite Hs, size_app in Hwf.
  change (size [3%nat]) with 3%nat in Hwf.
  rewrite repeat_length, size_app. change (size [4%nat]) with 4%nat.
  replace (size s * 4)%nat with (4 * size s)%nat by lia.
  set (D := tabulate _ _).
  assert (HD : group4 D = half_vectors (data rot))
    by (apply group4_filled; lia).
  rewrite (as_quat_array_unfold (mk_ndarray (s ++ [4%nat]) D) s 4).
  - unfold as_quat_array_outcome. cbn [Nat.modulo Nat.divmod fst snd
      Nat.eqb negb data]. rewrite HD. cbn [bind]. now destruct s.
  - unfold wf. cbn [shape data]. subst D.
    rewrite length_tabulate, size_app. cbn. lia.
  - unfold ascontiguousarray. rewrite atleast_1d_id; [reflexivity|].
    cbn [shape]. destruct s; discriminate.
Qed.

(** X10: from a well-formed array of 3-vectors [from_rotation_vector]
    builds the quaternions [(0, v / 2)] and returns their exponentials:
    one scalar quaternion for a single vector, an array of the leading
    shape otherwise. *)
Theorem from_rotation_vector_vectors
  (quaternion_exp : quaternion -> quaternion)
  (rot : ndarray float) (s : list nat) :
  wf rot -> shape rot = s ++ [3%nat] ->
  from_rotation_vector quaternion_exp rot
  = Ok (qmap quaternion_exp
          (match s with
           | [] => QScalar (hd zero (half_vectors (data rot)))
           | _ => QArray (mk_ndarray s (half_vectors (data rot)))
           end)).
Proof. apply from_rotation_vector_ok. Qed.

Lemma from_rotation_vector_vectors_witness :
  from_rotation_vector (fun q => q)
    (mk_ndarray [2; 3]%nat [1; 2; 3; 4; 5; 6])
  = Ok (QArray (mk_ndarray [2%nat]
                  [mk_quaternion 0 0.5 1 1.5; mk_quaternion 0 2 2.5 3])).
Proof.
  apply (from_rotation_vector_vectors (fun q => q)
           (mk_ndarray [2; 3]%nat [1; 2; 3; 4; 5; 6]) [2%nat]);
    reflexivity.
Defined.

(** X11: an array whose last axis has a length other than three (or
    one, which NumPy stretches) is refused with [ValueError], at the
    assignment [quats[..., 1:] = rot/2]. *)
Theorem from_rotation_vector_value_error
  (quaternion_exp : quaternion -> quaternion)
  (rot : ndarray float) (s : list nat) (n : nat) :
  shape rot = s ++ [n] -> n <> 3%nat -> n <> 1%nat ->
  from_rotation_vector quaternion_exp rot = Raise ValueError.
Proof.
  intros Hs H3 H1. unfold from_rotation_vector.
  rewrite Hs, removelast_snoc. unfold setslice_last_from, np_zeros.
  cbn [shape data]. rewrite rev_app_distr. cbn [rev app]. cbv zeta.
  rewrite rev_involutive. change (4 - 1)%nat with 3%nat.
  unfold assignable. cbv zeta. cbn [np_map shape data].
  rewrite Hs, !length_app. cbn [length]. rewrite Nat.sub_diag, strip_ones_0.
  unfold broadcast_shapes. rewrite !rev_app_distr. cbn [rev app].
  cbn [broadcast_rev]. rewrite broadcast_rev_same.
  apply Nat.eqb_neq in H3, H1. rewrite H3, H1. reflexivity.
Qed.

Lemma from_rotation_vector_value_error_witness :
  from_rotation_vector (fun q => q) (mk_ndarray [2; 2]%nat [1; 2; 3; 4])
  = Raise ValueError.
Proof.
  apply (from_rotation_vector_value_error (fun q => q)
           (mk_ndarray [2; 2]%nat [1; 2; 3; 4]) [2%nat] 2%nat);
    [reflexivity|discriminate|discriminate].
Defined.

Lemma half_vectors_rotation_vectors (g : quaternion -> quaternion)
  (l : list quaternion) :
  half_vectors
    (flat_map (fun q => vector_part (scalar_multiply 2 (g q))) l)
  = map (fun q => mk_quaternion 0 (2 * x (g q) / 2) (2 * y (g q) / 2)
                    (2 * z (g q) / 2)) l.
Proof.
  induction l as [|q l IH]; [reflexivity|].
  cbn [flat_map vector_part scalar_multiply x y z app half_vectors map].
  now rewrite IH.
Qed.

(** X12: [from_rotation_vector] after [as_rotation_vector] works
    element by element, for a scalar or a well-formed array whose last
    axis is the innermost one in memory: the
    exponential is taken of the quaternion [(0, v)] with
    [v = (2 u) / 2] for [u] the vector part of [log(normalized(q))].  The
    shape of an array with at least one dimension comes back; a scalar (or
    a 0-d array) comes back as an array of shape [(1,)]. *)
Theorem from_as_rotation_vector
  (quaternion_log quaternion_normalized quaternion_exp
     : quaternion -> quaternion) (v : qvalue) :
  wf (np_asarray v) ->
  (forall a, v <> QStrided false a) ->
  (r <- as_rotation_vector quaternion_log quaternion_normalized v ;;
   from_rotation_vector quaternion_exp r)
  = Ok (QArray
          (mk_ndarray (shape (atleast_1d (np_asarray v)))
             (map (fun q =>
                     let u := quaternion_log (quaternion_normalized q) in
                     quaternion_exp
                       (mk_quaternion 0 (2 * x u / 2) (2 * y u / 2)
                          (2 * z u / 2)))
                (data (np_asarray v))))).
Proof.
  intros Hwf Hi.
  assert (Hv : as_rotation_vector quaternion_log quaternion_normalized v
               = as_rotation_vector quaternion_log quaternion_normalized
                   (QArray (atleast_1d (np_asarray v)))).
  { unfold as_rotation_vector.
    destruct v as [q|[[|d s] l]|[|] [[|d s] l]];
      try (exfalso; exact (Hi _ eq_refl));
      cbn [qmap]; rewrite !as_float_array_ok by reflexivity; reflexivity. }
  rewrite Hv, as_rotation_vector_array by now apply wf_atleast_1d.
  cbn [bind].
  destruct (atleast_1d_shape_cons (np_asarray v)) as (d & s & E).
  rewrite (atleast_1d_id (atleast_1d (np_asarray v))) by congruence.
  rewrite (from_rotation_vector_ok quaternion_exp _
             (shape (atleast_1d (np_asarray v)))).
  - cbn [data]. rewrite E at 1. cbn [qmap np_map shape data].
    unfold spec_rotation_vector.
    rewrite (half_vectors_rotation_vectors
               (fun q => quaternion_log (quaternion_normalized q))).
    unfold np_map. cbn [shape data].
    rewrite map_map, atleast_1d_data. reflexivity.
  - unfold wf. cbn [shape data].
    rewrite (length_flat_map_block _ 3) by reflexivity.
    apply wf_atleast_1d in Hwf. unfold wf in Hwf.
    rewrite Hwf, size_app. reflexivity.
  - reflexivity.
Qed.

Lemma from_as_rotation_vector_witness :
  (r <- as_rotation_vector (fun q => q) (fun q => q)
          (QScalar (mk_quaternion 1 2 3 4)) ;;
   from_rotation_vector (fun q => q) r)
  = Ok (QArray (mk_ndarray [1%nat] [mk_quaternion 0 2 3 4])).
Proof.
  apply (from_as_rotation_vector (fun q => q) (fun q => q) (fun q => q)
           (QScalar (mk_quaternion 1 2 3 4))).
  - reflexivity.
  - intros a. discriminate.
Defined.

(** ** Further theorems: [allclose] *)

Lemma Forall2_app_iff {A B : Type} (R : A -> B -> Prop)
  (a a' : list A) (b b' : list B) :
  length a = length b ->
  Forall2 R (a ++ a') (b ++ b') <-> Forall2 R a b /\ Forall2 R a' b'.
Proof.
  revert b. induction a as [|u a IH]; intros [|v b] Hlen;
    try discriminate Hlen; cbn [app].
  - split; [intros H; split; [constructor|exact H]|tauto].
  - injection Hlen as Hlen. split.
    + intros H. inversion H; subst.
      apply (IH b Hlen) in H5 as [H1 H2]. split; [now constructor|exact H2].
    + intros [H1 H2]. inversion H1; subst. constructor; [assumption|].
      apply (IH b Hlen). now split.
Qed.

(** X13: the verdict of [allclose] is taken position by position:
    comparing two concatenations is comparing the parts, even though the
    test for infinities looks at the whole arrays. *)
Theorem allclose_app (rtol atol : float) (a a' b b' : list float) :
  length a = length b -> length a' = length b' ->
  allclose (a ++ a') (b ++ b') rtol atol
  = allclose a b rtol atol && allclose a' b' rtol atol.
Proof.
  intros Hl Hl'. apply Bool.eq_iff_eq_true.
  rewrite andb_true_iff, !allclose_iff
    by (rewrite ?length_app; congruence).
  unfold allclose_spec. rewrite !Forall2_app_iff by assumption. tauto.
Qed.

Lemma allclose_app_witness :
  allclose ([1e10] ++ [1e-8]) ([1.00001e10] ++ [1e-9]) 1e-5 1e-8
  = allclose [1e10] [1.00001e10] 1e-5 1e-8
    && allclose [1e-8] [1e-9] 1e-5 1e-8.
Proof.
  apply (allclose_app 1e-5 1e-8 [1e10] [1e-8] [1.00001e10] [1e-9]);
    reflexivity.
Defined.

(** X14: for two arrays of one shape, an infinity that stands at the
    same position of both, wherever that position is, has no effect on
    the verdict, whatever the tolerances are: the verdict is the one of
    the arrays without that position. *)
Theorem allclose_matched_infinity (rtol atol u : float)
  (a1 a2 b1 b2 : list float) :
  is_infinity u = true ->
  length a1 = length b1 -> length a2 = length b2 ->
  allclose (a1 ++ u :: a2) (b1 ++ u :: b2) rtol atol
  = allclose (a1 ++ a2) (b1 ++ b2) rtol atol.
Proof.
  intros Hu H1 H2. apply Bool.eq_iff_eq_true.
  rewrite !allclose_iff by (rewrite !length_app; cbn [length]; congruence).
  unfold allclose_spec. rewrite !Forall2_app_iff by assumption.
  split.
  - intros [[A1 A2] [B1 B2]]. inversion A2; inversion B2; subst. tauto.
  - intros [[A1 A2] [B1 B2]].
    repeat split; try assumption; constructor; try assumption.
    + split; [reflexivity|auto].
    + unfold close_unless_infinite. congruence.
Qed.

Lemma allclose_matched_infinity_witness :
  allclose ([1] ++ infinity :: [2]) ([1] ++ infinity :: [2]) 1e-5 1e-8
  = allclose ([1] ++ [2]) ([1] ++ [2]) 1e-5 1e-8.
Proof.
  apply (allclose_matched_infinity 1e-5 1e-8 infinity [1] [2] [1] [2]);
    reflexivity.
Defined.

(** ** Further theorems: [rotate_vectors] *)

Lemma lookup_exact (env : list (nat * nat)) (l d : nat) :
  functional env -> In (l, d) env -> lookup l env = Some d.
Proof.
  intros Hf Hin. destruct (In_lookup env l d Hin) as [d' Hd'].
  rewrite Hd'. f_equal. apply (Hf l); [|assumption]. now apply lookup_In.
Qed.

Lemma lookup_all_exact (env : list (nat * nat)) (ls ds : list nat) :
  functional env ->
  Forall2 (fun l d => In (l, d) env) ls ds ->
  lookup_all ls env = Some ds.
Proof.
  intros Hf. induction 1 as [|l d ls ds Hin _ IH]; [reflexivity|].
  cbn [lookup_all]. now rewrite (lookup_exact env l d Hf Hin), IH.
Qed.

Lemma Forall2_nth_error {A B : Type} (R : A -> B -> Prop)
  (l : list A) (l' : list B) :
  length l = length l' ->
  (forall i a b, nth_error l i = Some a -> nth_error l' i = Some b -> R a b) ->
  Forall2 R l l'.
Proof.
  revert l'. induction l as [|a l IH]; intros [|b l'] Hlen H;
    try discriminate Hlen; constructor.
  - apply (H 0%nat); reflexivity.
  - apply IH; [now injection Hlen|].
    intros i a' b' Ha Hb. apply (H (S i)); assumption.
Qed.

Section EinsumShape.

Variable rs vs : list nat.
Variable j : nat.
Hypothesis Hj : nth_error vs j = Some 3%nat.

Let nm : nat := (length rs + 2)%nat.
Let ms : list nat := (rs ++ [3; 3])%nat.
Let m_axes : list nat := seq 0 nm.
Let v_axes : list nat := update j (nm - 1)%nat (seq nm (length vs)).
Let mv_axes : list nat :=
  firstn (nm - 2) m_axes ++ update j (nm - 2)%nat (seq nm (length vs)).
Let dims : list (nat * nat) := combine m_axes ms ++ combine v_axes vs.

Lemma mv_axes_sizes :
  Forall2 (fun l d => In (l, d) dims) mv_axes (rs ++ vs).
Proof.
  unfold mv_axes. apply Forall2_app.
  - assert (Hf : firstn (nm - 2) m_axes = seq 0 (length rs)).
    { subst m_axes nm.
      replace (length rs + 2 - 2)%nat with (length rs) by lia.
      rewrite seq_app, firstn_app, length_seq, Nat.sub_diag, firstn_O,
        app_nil_r, firstn_all2 by (rewrite length_seq; lia).
      reflexivity. }
    rewrite Hf. apply Forall2_nth_error; [apply length_seq|].
    intros i a b Ha Hb. rewrite nth_error_seq in Ha.
    destruct (i <? length rs)%nat; [|discriminate]. injection Ha as <-.
    unfold dims. apply in_app_iff. left.
    apply (in_matrix_axes rs). rewrite nth_error_app1; [assumption|].
    apply nth_error_Some. congruence.
  - apply Forall2_nth_error; [now rewrite length_update, length_seq|].
    intros i a b Ha Hb. rewrite nth_error_update, nth_error_seq in Ha.
    assert (Hlt : (i < length vs)%nat) by (apply nth_error_Some; congruence).
    apply Nat.ltb_lt in Hlt. rewrite Hlt in Ha.
    unfold dims. apply in_app_iff.
    destruct (Nat.eqb_spec i j) as [E|Hne]; injection Ha as <-.
    + left. apply (in_matrix_axes rs). rewrite E in Hb.
      assert (b = 3%nat) by congruence. subst b. subst nm.
      rewrite nth_error_app2 by lia.
      replace (length rs + 2 - 2 - length rs)%nat with 0%nat by lia.
      reflexivity.
    + right. apply (in_vector_axes rs vs j Hj). right. eauto.
Qed.

(** The contraction of [rotate_vectors] returns an array of shape
    [rs ++ vs]. *)
Lemma einsum_shape (sop : list (float * float) -> float)
  (dm dv : list float) :
  exists r,
    einsum sop (mk_ndarray ms dm) m_axes (mk_ndarray vs dv) v_axes mv_axes
    = Ok r
    /\ shape r = rs ++ vs /\ wf r.
Proof.
  assert (Hm : length m_axes = length ms)
    by (transitivity nm; [apply length_seq|symmetry; apply (ms_length rs)]).
  assert (Hv : length v_axes = length vs)
    by (unfold v_axes; now rewrite length_update, length_seq).
  unfold einsum, ndim. cbn [shape data]. cbv zeta.
  rewrite Hm, Hv, !Nat.eqb_refl. cbn [andb negb].
  fold dims.
  rewrite (functional_consistent dims (dims_functional rs vs j Hj)).
  cbn [negb].
  rewrite (lookup_all_exact dims mv_axes (rs ++ vs)
             (dims_functional rs vs j Hj) mv_axes_sizes).
  eexists. split; [reflexivity|]. split; [reflexivity|].
  unfold wf. cbn [shape data]. apply length_tabulate.
Qed.

End EinsumShape.

Lemma ravel_bound (idx s : list nat) :
  Forall2 lt idx s -> (ravel idx s < size s)%nat.
Proof.
  induction 1 as [|k d idx s Hk _ IH]; cbn [ravel].
  - cbn. lia.
  - change (size (d :: s)) with (d * size s)%nat. nia.
Qed.

Lemma unravel_ravel (idx s : list nat) :
  Forall2 lt idx s -> unravel (ravel idx s) s = idx.
Proof.
  induction 1 as [|k d idx s Hk H IH]; cbn [ravel unravel]; [reflexivity|].
  pose proof (ravel_bound idx s H) as Hb.
  assert (Hs : size s <> 0%nat) by lia.
  rewrite Nat.div_add_l, Nat.div_small, Nat.add_0_r by assumption.
  rewrite Nat.add_comm, Nat.Div0.mod_add, Nat.mod_small by assumption.
  now rewrite IH.
Qed.

Lemma ravel_app (idx idx' s s' : list nat) :
  length idx = length s ->
  ravel (idx ++ idx') (s ++ s') = (ravel idx s * size s' + ravel idx' s')%nat.
Proof.
  revert s. induction idx as [|k idx IH]; intros [|d s] Hlen;
    try discriminate Hlen; cbn [app ravel].
  - reflexivity.
  - rewrite IH by (now injection Hlen). rewrite size_app. lia.
Qed.

(** The value bound to a label that occurs once among the keys. *)
Lemma lookup_combine (keys vals : list nat) (i l : nat) :
  length keys = length vals ->
  nth_error keys i = Some l ->
  (forall i', (i' < i)%nat -> nth_error keys i' <> Some l) ->
  lookup l (combine keys vals) = nth_error vals i.
Proof.
  revert vals i. induction keys as [|k keys IH]; intros [|v vals] i Hlen Hi Hf;
    try discriminate Hlen.
  - destruct i; discriminate.
  - cbn [combine lookup]. destruct i as [|i].
    + injection Hi as ->. now rewrite Nat.eqb_refl.
    + destruct (Nat.eqb_spec l k) as [->|Hne].
      * exfalso. apply (Hf 0%nat); [lia|reflexivity].
      * cbn [nth_error]. apply IH; [now injection Hlen|assumption|].
        intros i' Hi'. apply (Hf (S i')). lia.
Qed.

Lemma nodup_constant (c : nat) (l : list nat) :
  l <> [] -> Forall (eq c) l -> nodup Nat.eq_dec l = [c].
Proof.
  induction l as [|a l IH]; [congruence|].
  intros _ H. pose proof (Forall_inv H) as E. cbn beta in E. subst a.
  apply Forall_inv_tail in H. rename H into Hl.
  cbn [nodup]. destruct l as [|b l].
  - destruct (in_dec Nat.eq_dec c []) as [[]|]; reflexivity.
  - destruct (in_dec Nat.eq_dec c (b :: l)) as [_|Hn].
    + apply IH; [discriminate|assumption].
    + exfalso. apply Hn. inversion Hl; subst. now left.
Qed.

Lemma nth_error_ext' {A : Type} (l l' : list A) :
  (forall i, nth_error l i = nth_error l' i) -> l = l'.
Proof.
  revert l'. induction l as [|a l IH]; intros [|b l'] H.
  - reflexivity.
  - discriminate (H 0%nat).
  - discriminate (H 0%nat).
  - f_equal.
    + pose proof (H 0%nat) as E. now injection E.
    + apply IH. intros i. apply (H (S i)).
Qed.

Lemma In_update_seq (j c a n x : nat) :
  (j < n)%nat ->
  In x (update j c (seq a n))
  <-> x = c \/ exists i, (i < n)%nat /\ i <> j /\ x = (a + i)%nat.
Proof.
  intros Hjn. rewrite In_iff_nth_error. split.
  - intros [i Hi]. rewrite nth_error_update, nth_error_seq in Hi.
    destruct (Nat.ltb_spec i n) as [Hlt|Hge].
    + destruct (Nat.eqb_spec i j) as [E|Hne]; injection Hi as <-.
      * now left.
      * right. exists i. auto.
    + destruct (i =? j)%nat; discriminate.
  - intros [->|(i & Hi & Hne & ->)].
    + exists j. rewrite nth_error_update, nth_error_seq, Nat.eqb_refl.
      apply Nat.ltb_lt in Hjn. now rewrite Hjn.
    + exists i. rewrite nth_error_update, nth_error_seq.
      apply Nat.eqb_neq in Hne. rewrite Hne.
      apply Nat.ltb_lt in Hi. now rewrite Hi.
Qed.

Section EinsumValue.

Variable rs vs : list nat.
Variable j : nat.
Hypothesis Hj : nth_error vs j = Some 3%nat.

Let nm : nat := (length rs + 2)%nat.
Let ms : list nat := (rs ++ [3; 3])%nat.
Let m_axes : list nat := seq 0 nm.
Let v_axes : list nat := update j (nm - 1)%nat (seq nm (length vs)).
Let mv_axes : list nat :=
  firstn (nm - 2) m_axes ++ update j (nm - 2)%nat (seq nm (length vs)).
Let dims : list (nat * nat) := combine m_axes ms ++ combine v_axes vs.

Lemma j_in_range : (j < length vs)%nat.
Proof. apply nth_error_Some. congruence. Qed.

Lemma mv_axes_eq :
  mv_axes
  = seq 0 (length rs) ++ update j (length rs) (seq nm (length vs)).
Proof.
  unfold mv_axes. f_equal.
  - subst m_axes nm.
    replace (length rs + 2 - 2)%nat with (length rs) by lia.
    rewrite seq_app, firstn_app, length_seq, Nat.sub_diag, firstn_O,
      app_nil_r, firstn_all2 by (rewrite length_seq; lia).
    reflexivity.
  - f_equal. subst nm. lia.
Qed.

Lemma In_mv_axes (l : nat) :
  In l mv_axes
  <-> (l < length rs)%nat \/ l = length rs
      \/ exists i, (i < length vs)%nat /\ i <> j /\ l = (nm + i)%nat.
Proof.
  rewrite mv_axes_eq, in_app_iff, in_seq, (In_update_seq j) by apply j_in_range.
  split.
  - intros [H|[H|H]]; [left; lia|auto|auto].
  - intros [H|[H|H]]; [left; lia|auto|auto].
Qed.

Lemma In_v_axes (l : nat) :
  In l v_axes
  <-> l = (length rs + 1)%nat
      \/ exists i, (i < length vs)%nat /\ i <> j /\ l = (nm + i)%nat.
Proof.
  unfold v_axes. rewrite (In_update_seq j) by apply j_in_range.
  subst nm. replace (length rs + 2 - 1)%nat with (length rs + 1)%nat by lia.
  reflexivity.
Qed.

(** The only label summed over is the column of the matrices. *)
Lemma summed_column :
  nodup Nat.eq_dec
    (filter (fun l => negb (existsb (Nat.eqb l) mv_axes)) (m_axes ++ v_axes))
  = [(length rs + 1)%nat].
Proof.
  assert (Hp : forall l,
             negb (existsb (Nat.eqb l) mv_axes) = true <-> ~ In l mv_axes).
  { intros l. rewrite negb_true_iff, <- not_true_iff_false, existsb_exists.
    split; intros H H'; apply H.
    - exists l. split; [assumption|apply Nat.eqb_refl].
    - destruct H' as (x & Hx & E). apply Nat.eqb_eq in E. now subst x. }
  apply nodup_constant.
  - intros E.
    assert (Hin : In (length rs + 1)%nat
                    (filter (fun l => negb (existsb (Nat.eqb l) mv_axes))
                       (m_axes ++ v_axes))).
    { apply filter_In. split.
      - apply in_app_iff. left. subst m_axes nm. apply in_seq. lia.
      - apply Hp. rewrite In_mv_axes. subst nm.
        intros [H|[H|(i & _ & _ & H)]]; lia. }
    rewrite E in Hin. destruct Hin.
  - apply Forall_forall. intros l Hl. apply filter_In in Hl as [Hin Hn].
    apply Hp in Hn. rewrite In_mv_axes in Hn.
    apply in_app_iff in Hin as [Hin|Hin].
    + subst m_axes nm. apply in_seq in Hin.
      destruct (Nat.lt_ge_cases l (length rs)); [tauto|].
      destruct (Nat.eq_dec l (length rs)); [tauto|]. lia.
    + apply In_v_axes in Hin as [->|H]; [reflexivity|tauto].
Qed.

Lemma column_size : lookup0 dims (length rs + 1)%nat = 3%nat.
Proof.
  unfold lookup0.
  rewrite (lookup_exact dims (length rs + 1)%nat 3%nat
             (dims_functional rs vs j Hj)); [reflexivity|].
  unfold dims. apply in_app_iff. left. apply (in_matrix_axes rs).
  rewrite nth_error_app2 by lia.
  replace (length rs + 1 - length rs)%nat with 1%nat by lia. reflexivity.
Qed.

Section Environment.

Variable ri vi : list nat.
Variable s : nat.
Hypothesis Hri : length ri = length rs.
Hypothesis Hvi : length vi = length vs.

Let env : list (nat * nat) :=
  ((length rs + 1)%nat, s) :: combine mv_axes (ri ++ vi).

Lemma mv_axes_length : length mv_axes = length (ri ++ vi).
Proof.
  rewrite mv_axes_eq, !length_app, length_update, !length_seq. lia.
Qed.

Lemma env_batch (l : nat) :
  (l < length rs)%nat -> lookup0 env l = nth l ri 0%nat.
Proof.
  intros Hl. unfold lookup0, env. cbn [lookup].
  destruct (Nat.eqb_spec l (length rs + 1)); [lia|].
  rewrite (lookup_combine mv_axes (ri ++ vi) l l mv_axes_length).
  - rewrite nth_error_app1 by lia.
    rewrite (nth_error_nth' ri 0%nat) by lia. reflexivity.
  - rewrite mv_axes_eq, nth_error_app1 by (rewrite length_seq; lia).
    rewrite nth_error_seq. apply Nat.ltb_lt in Hl. now rewrite Hl.
  - intros i' Hi'. rewrite mv_axes_eq, nth_error_app1
      by (rewrite length_seq; lia).
    rewrite nth_error_seq.
    assert (Hlt : (i' <? length rs)%nat = true) by (apply Nat.ltb_lt; lia).
    rewrite Hlt. cbn. intros [= E]. lia.
Qed.

Lemma nth_error_mv_axes_tail (i : nat) :
  (i < length vs)%nat ->
  nth_error mv_axes (length rs + i)
  = Some (if (i =? j)%nat then length rs else (nm + i)%nat).
Proof.
  intros Hi. rewrite mv_axes_eq, nth_error_app2 by (rewrite length_seq; lia).
  rewrite length_seq. replace (length rs + i - length rs)%nat with i by lia.
  rewrite nth_error_update, nth_error_seq.
  apply Nat.ltb_lt in Hi. rewrite Hi. now destruct (i =? j)%nat.
Qed.

Lemma nth_error_mv_axes_head (i : nat) :
  (i < length rs)%nat -> nth_error mv_axes i = Some i.
Proof.
  intros Hi. rewrite mv_axes_eq, nth_error_app1 by (rewrite length_seq; lia).
  rewrite nth_error_seq. apply Nat.ltb_lt in Hi. now rewrite Hi.
Qed.

Lemma env_vector (i : nat) :
  (i < length vs)%nat ->
  lookup0 env (if (i =? j)%nat then length rs else (nm + i)%nat)
  = nth i vi 0%nat.
Proof.
  intros Hi. unfold lookup0, env. cbn [lookup].
  set (l := if (i =? j)%nat then length rs else (nm + i)%nat).
  assert (Hl : l = length rs /\ i = j \/ l = (nm + i)%nat /\ i <> j)
    by (subst l; destruct (Nat.eqb_spec i j); auto).
  destruct (Nat.eqb_spec l (length rs + 1)); [subst nm; lia|].
  rewrite (lookup_combine mv_axes (ri ++ vi) (length rs + i) l
             mv_axes_length).
  - rewrite nth_error_app2 by lia.
    replace (length rs + i - length ri)%nat with i by lia.
    rewrite (nth_error_nth' vi 0%nat) by lia. reflexivity.
  - now apply nth_error_mv_axes_tail.
  - intros i' Hi'. destruct (Nat.lt_ge_cases i' (length rs)) as [Hlt|Hge].
    + rewrite nth_error_mv_axes_head by assumption.
      intros [= E]. subst nm. lia.
    + replace i' with (length rs + (i' - length rs))%nat by lia.
      rewrite nth_error_mv_axes_tail by lia.
      destruct (Nat.eqb_spec (i' - length rs) j); intros [= E];
        subst nm; lia.
Qed.

Lemma env_column : lookup0 env (length rs + 1)%nat = s.
Proof.
  unfold lookup0, env. cbn [lookup]. now rewrite Nat.eqb_refl.
Qed.

Lemma env_m_axes :
  map (lookup0 env) m_axes = ri ++ [nth j vi 0%nat; s].
Proof.
  unfold m_axes, nm. rewrite seq_app, map_app. f_equal.
  - transitivity (tabulate (length ri) (fun i => nth i ri 0%nat));
      [|apply tabulate_nth].
    unfold tabulate. rewrite Hri. apply map_ext_in. intros l Hl. apply in_seq in Hl.
    apply env_batch. lia.
  - cbn [seq map Nat.add]. f_equal.
    + pose proof (env_vector j j_in_range) as E.
      rewrite Nat.eqb_refl in E. exact E.
    + f_equal. replace (S (length rs)) with (length rs + 1)%nat by lia.
      apply env_column.
Qed.

Lemma env_v_axes : map (lookup0 env) v_axes = update j s vi.
Proof.
  apply nth_error_ext'. intros i. unfold v_axes.
  rewrite nth_error_map, !nth_error_update, nth_error_seq.
  destruct (Nat.ltb_spec i (length vs)) as [Hlt|Hge].
  - rewrite (nth_error_nth' vi 0%nat) by lia.
    pose proof (env_vector i Hlt) as E.
    destruct (Nat.eqb_spec i j) as [Eij|Hne]; cbn [option_map].
    + f_equal. unfold nm.
      replace (length rs + 2 - 1)%nat with (length rs + 1)%nat by lia.
      apply env_column.
    + f_equal. exact E.
  - assert (Hn : nth_error vi i = None) by (apply nth_error_None; lia).
    rewrite Hn. now destruct (i =? j)%nat.
Qed.

End Environment.

(** Each element of the contraction is the sum of the three products of
    a row of a matrix with a vector, the pairs of factors being listed in
    the order of the columns. *)
Lemma einsum_value (sop : list (float * float) -> float)
  (dm dv : list float) (r : ndarray float) (ri vi : list nat) :
  einsum sop (mk_ndarray ms dm) m_axes (mk_ndarray vs dv) v_axes mv_axes
  = Ok r ->
  Forall2 lt ri rs -> Forall2 lt vi vs ->
  nth (ravel (ri ++ vi) (rs ++ vs)) (data r) 0
  = sop
      [ (nth (ravel (ri ++ [nth j vi 0%nat; 0%nat]) ms) dm 0,
         nth (ravel (update j 0%nat vi) vs) dv 0);
        (nth (ravel (ri ++ [nth j vi 0%nat; 1%nat]) ms) dm 0,
         nth (ravel (update j 1%nat vi) vs) dv 0);
        (nth (ravel (ri ++ [nth j vi 0%nat; 2%nat]) ms) dm 0,
         nth (ravel (update j 2%nat vi) vs) dv 0) ].
Proof.
  intros Hr Hri Hvi.
  assert (Hm : length m_axes = length ms)
    by (transitivity nm; [apply length_seq|symmetry; apply (ms_length rs)]).
  assert (Hv : length v_axes = length vs)
    by (unfold v_axes; now rewrite length_update, length_seq).
  assert (Hall : Forall2 lt (ri ++ vi) (rs ++ vs))
    by (now apply Forall2_app).
  unfold einsum, ndim in Hr. cbn [shape data] in Hr. cbv zeta in Hr.
  rewrite Hm, Hv, !Nat.eqb_refl in Hr. cbn [andb negb] in Hr.
  fold dims in Hr.
  rewrite (functional_consistent dims (dims_functional rs vs j Hj)) in Hr.
  cbn [negb] in Hr.
  rewrite (lookup_all_exact dims mv_axes (rs ++ vs)
             (dims_functional rs vs j Hj) (mv_axes_sizes rs vs j Hj)) in Hr.
  rewrite summed_column in Hr. cbn [map] in Hr. rewrite column_size in Hr.
  injection Hr as <-. cbn [data].
  rewrite nth_tabulate by (now apply ravel_bound).
  rewrite (unravel_ravel _ _ Hall).
  change (seq 0 (size [3%nat])) with [0; 1; 2]%nat.
  change (unravel 0 [3%nat]) with [0%nat].
  change (unravel 1 [3%nat]) with [1%nat].
  change (unravel 2 [3%nat]) with [2%nat].
  cbn [map combine app].
  rewrite !(env_m_axes ri vi _ (Forall2_length Hri) (Forall2_length Hvi)).
  rewrite !(env_v_axes ri vi _ (Forall2_length Hri) (Forall2_length Hvi)).
  reflexivity.
Qed.

End EinsumValue.

(** On a valid [v] and quaternions of nonzero norm in an array whose
    last axis is contiguous, [rotate_vectors] is the contraction of the
    rotation matrices with [v]. *)
Lemma rotate_vectors_contraction (pow : float -> float -> float)
  (eps : float) (junk : nat -> float)
  (sop : list (float * float) -> float)
  (R : qvalue) (v : ndarray float) (axis : Z) (j : nat) :
  wf (np_asarray R) ->
  last_axis_contiguous R = true ->
  normalize_index (ndim v) axis = Ok j ->
  nth_error (shape v) j = Some 3%nat ->
  Forall (fun q => (norm q =? 0) = false) (data (np_asarray R)) ->
  let nm := (length (qshape R) + 2)%nat in
  rotate_vectors pow eps junk sop R v axis
  = einsum sop
      (mk_ndarray (qshape R ++ [3; 3])%nat
         (flat_map (fun q => spec_matrix_general q (norm q))
            (data (np_asarray R))))
      (seq 0 nm) (mk_ndarray (shape v) (data v))
      (update j (nm - 1)%nat (seq nm (length (shape v))))
      (firstn (nm - 2) (seq 0 nm)
       ++ update j (nm - 2)%nat (seq nm (length (shape v)))).
Proof.
  intros Hwf Hc Hn Hj Hnz nm.
  assert (Hax : py_index (shape v) axis = Ok 3%nat).
  { unfold py_index. unfold ndim in Hn. rewrite Hn. cbn [bind].
    now rewrite Hj. }
  unfold rotate_vectors. cbv zeta.
  rewrite (selected_axis_valid v axis Hax), Hax.
  cbn [bind Nat.eqb negb]. rewrite as_rotation_matrix_asarray.
  rewrite (asarray_contiguous R Hc).
  rewrite as_rotation_matrix_array_ok by assumption.
  cbn [bind]. destruct v as [vs dv]. unfold ndim in *. cbn [shape data] in *.
  rewrite !length_seq, !length_app. cbn [length].
  change (-2)%Z with (- Z.of_nat 2)%Z.
  change (-1)%Z with (- Z.of_nat 1)%Z.
  rewrite !py_index_seq_from_end by lia. cbn [bind].
  unfold py_setindex. rewrite !length_seq, Hn. cbn [bind].
  reflexivity.
Qed.

Lemma rotate_vectors_zero_norm (pow : float -> float -> float)
  (eps : float) (junk : nat -> float)
  (sop : list (float * float) -> float)
  (R : qvalue) (v : ndarray float) (axis : Z) :
  py_index (shape v) axis = Ok 3%nat ->
  Exists (fun q => (norm q =? 0) = true) (data (np_asarray R)) ->
  rotate_vectors pow eps junk sop R v axis = Raise ZeroDivisionError.
Proof.
  intros Hax Hz. apply existsb_zero_norm_true in Hz.
  unfold rotate_vectors. cbv zeta.
  rewrite (selected_axis_valid v axis Hax), Hax.
  cbn [bind Nat.eqb negb]. rewrite as_rotation_matrix_asarray.
  rewrite as_rotation_matrix_array_zero; [reflexivity|].
  now rewrite np_asarray_asarray.
Qed.

(** Where the view of an array with another layout is accepted, it is
    the view of the contiguous array of the same elements. *)
Lemma as_float_array_layout (o : bool) (a : ndarray quaternion)
  (f : ndarray float) :
  as_float_array (QStrided o a) = Ok f -> as_float_array (QArray a) = Ok f.
Proof.
  unfold as_float_array. cbn [np_asarray last_axis_contiguous]. cbv zeta.
  destruct (shape (atleast_1d a)); [discriminate|].
  unfold view_float. destruct (rev (shape (atleast_1d a))); [discriminate|].
  cbn [orb].
  destruct ((n0 =? 1)%nat || (size (shape (atleast_1d a)) =? 0)%nat);
    [trivial|discriminate].
Qed.

Lemma rotate_vectors_layout (pow : float -> float -> float)
  (eps : float) (junk : nat -> float)
  (sop : list (float * float) -> float)
  (R : qvalue) (v r : ndarray float) (axis : Z) :
  rotate_vectors pow eps junk sop R v axis = Ok r ->
  rotate_vectors pow eps junk sop (QArray (np_asarray R)) v axis = Ok r.
Proof.
  destruct R as [q|a|o a]; cbn [np_asarray]; try (intros H; exact H).
  unfold rotate_vectors. cbv zeta.
  destruct ((ndim v <? 1)%nat || negb (existsb (Nat.eqb 3) (shape v)));
    [discriminate|].
  destruct (py_index (shape v) axis) as [d|e]; [|discriminate].
  cbn [bind]. destruct (negb (d =? 3)%nat); [discriminate|].
  cbn [asarray as_rotation_matrix].
  unfold as_rotation_matrix_array. cbn [np_asarray qshape]. cbv zeta.
  destruct (existsb (fun t => t =? 0) (data (np_map norm a)));
    [discriminate|].
  destruct (as_float_array (QStrided o a)) as [f|e] eqn:E; [|discriminate].
  now rewrite (as_float_array_layout o a f E).
Qed.

(** X15: for a [v] whose selected axis has length three and a
    well-formed [R], [rotate_vectors] raises [ZeroDivisionError] if some
    quaternion of [R] has zero norm; otherwise, for an [R] that is a
    scalar or has a contiguous last axis, it returns a well-formed array
    of shape [R.shape + v.shape]. *)
Theorem rotate_vectors_outcome (pow : float -> float -> float)
  (eps : float) (junk : nat -> float)
  (sop : list (float * float) -> float)
  (R : qvalue) (v : ndarray float) (axis : Z) :
  wf (np_asarray R) ->
  py_index (shape v) axis = Ok 3%nat ->
  (Exists (fun q => (norm q =? 0) = true) (data (np_asarray R)) ->
   rotate_vectors pow eps junk sop R v axis = Raise ZeroDivisionError)
  /\ (last_axis_contiguous R = true ->
      Forall (fun q => (norm q =? 0) = false) (data (np_asarray R)) ->
      exists r, rotate_vectors pow eps junk sop R v axis = Ok r
                /\ shape r = qshape R ++ shape v /\ wf r).
Proof.
  intros Hwf Hax. split.
  - now apply rotate_vectors_zero_norm.
  - intros Hc Hnz. pose proof Hax as Hax'.
    apply py_index_inv in Hax' as (j & Hn & Hj).
    rewrite (rotate_vectors_contraction pow eps junk sop R v axis j
               Hwf Hc Hn Hj Hnz).
    cbv zeta.
    apply (einsum_shape (qshape R) (shape v) j Hj).
Qed.

(** X16: the element of the result at a position [ri] of [R] and a
    position [vi] of [v] is the sum of products that [einsum] makes of a
    row of the rotation matrix of the quaternion at [ri] (the general
    formulas, which divide by the squared norm) and of the vector that
    runs through [vi] along the selected axis; the row is the component
    of [vi] on that axis, and the three pairs of factors come in the
    order of the columns. *)
Theorem rotate_vectors_value (pow : float -> float -> float)
  (eps : float) (junk : nat -> float)
  (sop : list (float * float) -> float)
  (R : qvalue) (v r : ndarray float) (axis : Z) (j : nat)
  (ri vi : list nat) :
  wf (np_asarray R) ->
  normalize_index (ndim v) axis = Ok j ->
  nth_error (shape v) j = Some 3%nat ->
  rotate_vectors pow eps junk sop R v axis = Ok r ->
  Forall2 lt ri (qshape R) -> Forall2 lt vi (shape v) ->
  let q := nth (ravel ri (qshape R)) (data (np_asarray R)) zero in
  let m := spec_matrix_general q (norm q) in
  let k := nth j vi 0%nat in
  nth (ravel (ri ++ vi) (qshape R ++ shape v)) (data r) 0
  = sop
      [ (nth (3 * k) m 0,
         nth (ravel (update j 0%nat vi) (shape v)) (data v) 0);
        (nth (3 * k + 1) m 0,
         nth (ravel (update j 1%nat vi) (shape v)) (data v) 0);
        (nth (3 * k + 2) m 0,
         nth (ravel (update j 2%nat vi) (shape v)) (data v) 0) ].
Proof.
  intros Hwf Hn Hj Hr Hri Hvi q m k.
  apply rotate_vectors_layout in Hr.
  set (R' := QArray (np_asarray R)) in Hr.
  assert (HR : np_asarray R' = np_asarray R) by reflexivity.
  assert (Hwf' : wf (np_asarray R')) by exact Hwf.
  assert (Hnz : Forall (fun q => (norm q =? 0) = false)
                  (data (np_asarray R'))).
  { apply Forall_forall. intros q' Hq'. apply not_true_is_false. intros Hq0.
    assert (Hax : py_index (shape v) axis = Ok 3%nat).
    { unfold py_index. unfold ndim in Hn. rewrite Hn. cbn [bind].
      now rewrite Hj. }
    rewrite (rotate_vectors_zero_norm pow eps junk sop R' v axis Hax) in Hr;
      [discriminate|].
    apply Exists_exists. eauto. }
  rewrite (rotate_vectors_contraction pow eps junk sop R' v axis j
             Hwf' eq_refl Hn Hj Hnz) in Hr.
  cbv zeta in Hr. unfold qshape in *. rewrite HR in Hr.
  rewrite (einsum_value (shape (np_asarray R)) (shape v) j Hj _ _ _ r ri vi
             Hr Hri Hvi).
  assert (Hk : (k < 3)%nat).
  { subst k.
    assert (Hjv : (j < length vi)%nat)
      by (rewrite (Forall2_length Hvi); apply nth_error_Some; congruence).
    clear - Hvi Hj Hjv. revert j Hj Hjv.
    induction Hvi as [|a b vi vs Hab _ IH]; intros [|j] Hj Hjv;
      cbn in *; try lia.
    - injection Hj as <-. assumption.
    - apply IH; [assumption|lia]. }
  assert (Hp : (ravel ri (shape (np_asarray R))
                < length (data (np_asarray R)))%nat)
    by (rewrite Hwf; now apply ravel_bound).
  assert (He : forall c, (c < 3)%nat ->
             nth (ravel (ri ++ [k; c]) (shape (np_asarray R) ++ [3; 3])%nat)
               (flat_map (fun q => spec_matrix_general q (norm q))
                  (data (np_asarray R))) 0
             = nth (3 * k + c) m 0).
  { intros c Hc. rewrite ravel_app by apply (Forall2_length Hri).
    change (size [3; 3]%nat) with 9%nat.
    replace (ravel [k; c] [3; 3]%nat) with (3 * k + c)%nat
      by (cbn [ravel]; change (size [3%nat]) with 3%nat;
          change (size []) with 1%nat; lia).
    subst m q.
    apply (nth_flat_map_block
             (fun q => spec_matrix_general q (norm q)) 9 _ _ _ zero 0);
      [reflexivity|assumption|lia]. }
  fold k. rewrite !He by lia. rewrite Nat.add_0_r. reflexivity.
Qed.

Lemma rotate_vectors_outcome_witness :
  (Exists (fun q => (norm q =? 0) = true) [one; mk_quaternion 0 0 0 1] ->
   rotate_vectors (fun a _ => a * a) 1e-14 (fun _ => 0) sum_in_order
     (QArray (mk_ndarray [2%nat] [one; mk_quaternion 0 0 0 1]))
     (mk_ndarray [3%nat] [1; 2; 3]) (-1)
   = Raise ZeroDivisionError)
  /\ (last_axis_contiguous
        (QArray (mk_ndarray [2%nat] [one; mk_quaternion 0 0 0 1])) = true ->
      Forall (fun q => (norm q =? 0) = false) [one; mk_quaternion 0 0 0 1] ->
      exists r,
        rotate_vectors (fun a _ => a * a) 1e-14 (fun _ => 0) sum_in_order
          (QArray (mk_ndarray [2%nat] [one; mk_quaternion 0 0 0 1]))
          (mk_ndarray [3%nat] [1; 2; 3]) (-1)
        = Ok r
        /\ shape r = [2; 3]%nat /\ wf r).
Proof.
  apply (rotate_vectors_outcome (fun a _ => a * a) 1e-14 (fun _ => 0)
           sum_in_order
           (QArray (mk_ndarray [2%nat] [one; mk_quaternion 0 0 0 1]))
           (mk_ndarray [3%nat] [1; 2; 3]) (-1)); reflexivity.
Defined.

Lemma rotate_vectors_value_witness :
  nth 4 [1; 2; 3; -1; -2; 3] 0
  = sum_in_order
      [ (nth 3 (spec_matrix_general (mk_quaternion 0 0 0 1) 1) 0, 1);
        (nth 4 (spec_matrix_general (mk_quaternion 0 0 0 1) 1) 0, 2);
        (nth 5 (spec_matrix_general (mk_quaternion 0 0 0 1) 1) 0, 3) ].
Proof.
  apply (rotate_vectors_value (fun a _ => a * a) 1e-14 (fun _ => 0)
           sum_in_order
           (QArray (mk_ndarray [2%nat] [one; mk_quaternion 0 0 0 1]))
           (mk_ndarray [3%nat] [1; 2; 3])
           (mk_ndarray [2; 3]%nat [1; 2; 3; -1; -2; 3])
           (-1) 0 [1%nat] [1%nat]).
  - reflexivity.
  - reflexivity.
  - reflexivity.
  - vm_compute. reflexivity.
  - repeat constructor.
  - repeat constructor.
Defined.

(** ** Further theorems: [from_rotation_matrix] *)

(** ** Lemmas: blocks and boolean masks *)

Lemma nth_block {A : Type} (B p k : nat) (l : list A) (d : A) :
  (k < B)%nat -> nth k (block B p l) d = nth (p * B + k) l d.
Proof.
  intros Hk. unfold block. rewrite nth_firstn, nth_skipn.
  apply Nat.ltb_lt in Hk. now rewrite Hk.
Qed.

Lemma length_block {A : Type} (B p : nat) (l : list A) :
  ((p + 1) * B <= length l)%nat -> length (block B p l) = B.
Proof.
  intros H. unfold block. rewrite length_firstn, length_skipn. lia.
Qed.

Lemma nth_concat_block {A : Type} (B : nat) (L : list (list A))
  (p k : nat) (d : A) :
  Forall (fun m => length m = B) L ->
  (p < length L)%nat -> (k < B)%nat ->
  nth (p * B + k) (concat L) d = nth k (nth p L []) d.
Proof.
  intros HL. revert p. induction HL as [|m L Hm _ IH]; intros p Hp Hk.
  - cbn in Hp. lia.
  - cbn [concat]. destruct p as [|p].
    + cbn [Nat.mul Nat.add nth]. apply app_nth1. now rewrite Hm.
    + rewrite app_nth2 by (rewrite Hm; lia).
      rewrite Hm. cbn [nth].
      replace (S p * B + k - B)%nat with (p * B + k)%nat by lia.
      apply IH; [cbn in Hp; lia|assumption].
Qed.

Lemma length_concat_block {A : Type} (B : nat) (L : list (list A)) :
  Forall (fun m => length m = B) L ->
  length (concat L) = (length L * B)%nat.
Proof.
  induction 1 as [|m L Hm _ IH]; [reflexivity|].
  cbn [concat length]. rewrite length_app, Hm, IH. lia.
Qed.

Lemma block_concat {A : Type} (B : nat) (L : list (list A)) (p : nat) :
  Forall (fun m => length m = B) L ->
  (p < length L)%nat -> block B p (concat L) = nth p L [].
Proof.
  intros HL. revert p. induction HL as [|m L Hm _ IH]; intros p Hp.
  - cbn in Hp. lia.
  - unfold block. cbn [concat]. destruct p as [|p].
    + cbn [Nat.mul skipn nth].
      rewrite firstn_app, Hm, Nat.sub_diag, firstn_O, app_nil_r.
      apply firstn_all2. lia.
    + rewrite skipn_app, Hm, skipn_all2 by lia. cbn [app nth].
      replace (S p * B - B)%nat with (p * B)%nat by lia.
      apply IH. cbn in Hp. lia.
Qed.

Lemma blocks_concat {A : Type} (B N : nat) (L : list (list A)) :
  Forall (fun m => length m = B) L -> length L = N ->
  tabulate N (fun p => block B p (concat L)) = L.
Proof.
  intros HL <-.
  transitivity (tabulate (length L) (fun p => nth p L [])).
  - apply tabulate_ext. intros p Hp. now apply block_concat.
  - apply tabulate_nth.
Qed.

Lemma Forall_blocks (B N : nat) (l : list float) :
  length l = (N * B)%nat ->
  Forall (fun m : list float => length m = B)
    (tabulate N (fun p => block B p l)).
Proof.
  intros Hl. apply Forall_forall. intros m Hm. unfold tabulate in Hm.
  apply in_map_iff in Hm as (p & <- & Hp). apply in_seq in Hp.
  apply length_block. nia.
Qed.

(** A list of [N * B] elements is the concatenation of its [N]
    blocks. *)
Lemma concat_blocks (B N : nat) (l : list float) :
  length l = (N * B)%nat ->
  concat (tabulate N (fun p => block B p l)) = l.
Proof.
  intros Hl. pose proof (Forall_blocks B N l Hl) as HF.
  apply (list_eq_nth 0).
  - now rewrite (length_concat_block B _ HF), length_tabulate.
  - intros t Ht.
    rewrite (length_concat_block B _ HF), length_tabulate in Ht.
    assert (HB : B <> 0%nat) by (intros E; rewrite E in Ht; lia).
    assert (Hq : (t / B < N)%nat)
      by (apply Nat.Div0.div_lt_upper_bound; lia).
    pose proof (Nat.mod_upper_bound t B HB) as Hm.
    rewrite (Nat.div_mod_eq t B) at 1.
    rewrite (Nat.mul_comm B (t / B)).
    rewrite (nth_concat_block B) by (rewrite ?length_tabulate; assumption).
    rewrite nth_tabulate by assumption.
    rewrite nth_block by assumption. f_equal.
    pose proof (Nat.div_mod_eq t B). lia.
Qed.

Lemma block_flat_map {A B : Type} (g : A -> list B) (n : nat)
  (l : list A) (p : nat) (d' : A) :
  (forall u, length (g u) = n) ->
  (p < length l)%nat -> block n p (flat_map g l) = g (nth p l d').
Proof.
  intros Hg Hp. rewrite flat_map_concat_map.
  rewrite (block_concat n) by
    (rewrite ?length_map; try assumption;
     apply Forall_forall; intros m Hm;
     apply in_map_iff in Hm as (u & <- & _); apply Hg).
  rewrite (nth_indep _ [] (g d')) by (now rewrite length_map).
  apply map_nth.
Qed.

Lemma length_boolean_index {A : Type} (mask : list bool) (l : list A) :
  length l = length mask ->
  length (boolean_index mask l) = count_true mask.
Proof.
  revert l. induction mask as [|b mask IH]; intros [|a l] Hl;
    try discriminate Hl; [reflexivity|].
  cbn [boolean_index]. unfold count_true. cbn [filter].
  injection Hl as Hl. destruct b; cbn [id length]; rewrite IH by assumption;
    reflexivity.
Qed.

Lemma nth_boolean_index {A : Type} (mask : list bool) (l : list A)
  (p : nat) (d : A) :
  length l = length mask ->
  nth p mask false = true ->
  nth (count_true (firstn p mask)) (boolean_index mask l) d = nth p l d.
Proof.
  revert l p. induction mask as [|b mask IH]; intros [|a l] p Hl Hp;
    try discriminate Hl.
  - destruct p; discriminate.
  - injection Hl as Hl. destruct p as [|p].
    + cbn in Hp. subst b. reflexivity.
    + cbn [nth] in Hp. cbn [firstn boolean_index nth].
      unfold count_true. cbn [filter].
      destruct b; cbn [id length nth]; now apply IH.
Qed.

Lemma boolean_index_map {A B : Type} (f : A -> B) (mask : list bool)
  (l : list A) :
  boolean_index mask (map f l) = map f (boolean_index mask l).
Proof.
  revert l. induction mask as [|b mask IH]; intros [|a l];
    try reflexivity.
  cbn [map boolean_index]. destruct b; cbn [map]; now rewrite IH.
Qed.

Lemma Forall_boolean_index {A : Type} (P : A -> Prop) (mask : list bool)
  (l : list A) :
  Forall P l -> Forall P (boolean_index mask l).
Proof.
  intros H. revert mask. induction H as [|a l Ha _ IH]; intros [|b mask];
    try constructor.
  cbn [boolean_index]. destruct b; [constructor|]; auto.
Qed.

(** Four columns written into blocks of four. *)
Lemma scatter_four {U : Type} (d' : U) (l : list U) (old : list float)
  (e0 e1 e2 e3 : U -> float) :
  length old = (length l * 4)%nat ->
  scatter 4 3 (map e3 l) (scatter 4 2 (map e2 l) (scatter 4 1 (map e1 l)
    (scatter 4 0 (map e0 l) old)))
  = flat_map (fun u => [e0 u; e1 u; e2 u; e3 u]) l.
Proof.
  intros Hold. apply (list_eq_nth 0).
  - rewrite !length_scatter, Hold.
    symmetry. now apply length_flat_map_block.
  - intros t Ht. rewrite !length_scatter in Ht.
    scatter_nth Ht. rewrite Hold in Ht.
    rewrite (nth_flat_map_divmod _ 4 l t d') by (auto; reflexivity).
    assert (Hq : (t / 4 < length l)%nat)
      by (apply Nat.Div0.div_lt_upper_bound; lia).
    pose proof (Nat.mod_upper_bound t 4 ltac:(lia)) as Hm.
    rewrite !(nth_map_in _ l (t / 4) 0 d' Hq).
    destruct (t mod 4)%nat as [|[|[|[|c]]]]; try reflexivity.
    lia.
Qed.

(** ** Lemmas: one number per matrix *)

Lemma np_binop_map {U : Type} (f : float -> float -> float) (s : list nat)
  (l : list U) (g h : U -> float) :
  length l = size s ->
  np_binop f (mk_ndarray s (map g l)) (mk_ndarray s (map h l))
  = Ok (mk_ndarray s (map (fun u => f (g u) (h u)) l)).
Proof.
  intros Hl.
  rewrite np_binop_same_shape
    by (try reflexivity; unfold wf; cbn [shape data];
        now rewrite length_map).
  cbn [shape data]. now rewrite map2_map.
Qed.

Lemma np_add_map {U : Type} (s : list nat) (l : list U)
  (g h : U -> float) :
  length l = size s ->
  np_add (Ok (mk_ndarray s (map g l))) (Ok (mk_ndarray s (map h l)))
  = Ok (mk_ndarray s (map (fun u => g u + h u) l)).
Proof. intros Hl. unfold np_add. cbn [bind]. now apply np_binop_map. Qed.

Lemma np_sub_map {U : Type} (s : list nat) (l : list U)
  (g h : U -> float) :
  length l = size s ->
  np_sub (Ok (mk_ndarray s (map g l))) (Ok (mk_ndarray s (map h l)))
  = Ok (mk_ndarray s (map (fun u => g u - h u) l)).
Proof. intros Hl. unfold np_sub. cbn [bind]. now apply np_binop_map. Qed.

Lemma np_lift_map {U : Type} (f : float -> float) (s : list nat)
  (l : list U) (g : U -> float) :
  np_lift f (Ok (mk_ndarray s (map g l)))
  = Ok (mk_ndarray s (map (fun u => f (g u)) l)).
Proof.
  unfold np_lift, np_map. cbn [bind shape data]. now rewrite map_map.
Qed.

(** The entry [(i, j)] of every matrix of an array. *)
Lemma getitem_last2_concat (s : list nat) (L : list (list float))
  (i j : nat) :
  length L = size s -> Forall (fun m => length m = 9%nat) L ->
  (i < 3)%nat -> (j < 3)%nat ->
  getitem_last2 0 i j (mk_ndarray (s ++ [3; 3])%nat (concat L))
  = Ok (mk_ndarray s (map (fun m => entry m i j) L)).
Proof.
  intros Hl HL Hi Hj. unfold getitem_last2. cbn [shape data].
  rewrite rev_app_distr. cbn [rev app].
  apply Nat.ltb_lt in Hi as Hi'. apply Nat.ltb_lt in Hj as Hj'.
  rewrite Hi', Hj'. cbn [andb]. rewrite rev_involutive. do 2 f_equal.
  rewrite <- Hl, <- (tabulate_map_nth []). apply tabulate_ext.
  intros p Hp. unfold entry.
  change (3 * 3)%nat with 9%nat.
  rewrite (nth_concat_block 9) by (try assumption; nia).
  f_equal. lia.
Qed.

(** ** Lemmas: the four cases of the direct algorithm *)

Lemma length_mask_scatter (mask : list bool) (c : nat)
  (v old : list float) :
  length (mask_scatter mask c v old) = length old.
Proof. apply length_tabulate. Qed.

Lemma nth_mask_scatter (mask : list bool) (c : nat) (v old : list float)
  (t : nat) :
  (t < length old)%nat ->
  nth t (mask_scatter mask c v old) 0
  = if nth (t / 4) mask false && (t mod 4 =? c)%nat
    then nth (t / 4) v 0 else nth t old 0.
Proof.
  intros Ht. unfold mask_scatter. now rewrite nth_tabulate by assumption.
Qed.

Lemma firstn_length_app {A : Type} (l l' : list A) :
  firstn (length l) (l ++ l') = l.
Proof.
  now rewrite firstn_app, firstn_all, Nat.sub_diag, firstn_O, app_nil_r.
Qed.

Lemma skipn_length_app {A : Type} (l l' : list A) :
  skipn (length l) (l ++ l') = l'.
Proof.
  now rewrite skipn_app, skipn_all, Nat.sub_diag, skipn_O.
Qed.

(** The matrices that a mask selects. *)
Lemma getitem_matrices_mask (s : list nat) (M : list (list float))
  (mask : list bool) :
  length M = size s -> Forall (fun m => length m = 9%nat) M ->
  getitem_matrices (Mask (mk_ndarray s mask))
    (mk_ndarray (s ++ [3; 3])%nat (concat M))
  = Ok (mk_ndarray ([length (boolean_index mask M)] ++ [3; 3])%nat
          (concat (boolean_index mask M))).
Proof.
  intros Hl HM. unfold getitem_matrices, ndim. cbn [shape data].
  rewrite length_app. cbn [length].
  replace (length s + 2 <? length s + 2)%nat with false
    by (symmetry; apply Nat.ltb_irrefl).
  rewrite firstn_length_app, list_eqb_refl, skipn_length_app.
  cbn [orb negb]. change (size [3; 3]%nat) with 9%nat.
  now rewrite (blocks_concat 9 (size s) M HM Hl).
Qed.

(** An assignment through a mask, when the value holds one number per
    selected matrix. *)
Lemma setitem_component_mask (s : list nat) (M : list (list float))
  (mask : list bool) (c : nat) (F : list float -> float)
  (old : list float) :
  length M = size s -> length mask = size s ->
  length old = (size s * 4)%nat -> (c < 4)%nat ->
  setitem_component (Mask (mk_ndarray s mask)) c
    (mk_ndarray [length (boolean_index mask M)]
       (map F (boolean_index mask M)))
    (mk_ndarray (s ++ [4%nat]) old)
  = Ok (mk_ndarray (s ++ [4%nat]) (mask_scatter mask c (map F M) old)).
Proof.
  intros HM Hmask Hold Hc.
  assert (Hcount : length (boolean_index mask M) = count_true mask)
    by (apply length_boolean_index; congruence).
  unfold setitem_component, ndim. cbn [shape data].
  rewrite skipn_length_app, firstn_length_app, list_eqb_refl.
  apply Nat.ltb_lt in Hc as Hc'. rewrite Hc'. cbn [orb negb].
  rewrite <- Hcount.
  pose proof (assignable_same
                (mk_ndarray [length (boolean_index mask M)]
                   (map F (boolean_index mask M)))) as Ha.
  cbn [shape] in Ha. rewrite Ha
    by (unfold wf; cbn; rewrite length_map; lia).
  cbn [bind data]. do 2 f_equal. unfold mask_scatter.
  apply tabulate_ext. intros t Ht.
  change (size []) with 1%nat.
  rewrite !Nat.mul_1_r, Nat.div_1_r, Nat.mod_1_r, Nat.add_0_r.
  destruct (nth (t / 4) mask false) eqn:Hm; [|reflexivity].
  destruct (t mod 4 =? c)%nat; [|reflexivity]. cbn [andb].
  assert (Hq : (t / 4 < length M)%nat)
    by (apply Nat.Div0.div_lt_upper_bound; lia).
  rewrite <- boolean_index_map.
  apply nth_boolean_index; [rewrite length_map; congruence|assumption].
Qed.

Section MarkleyCase.

Variable s : list nat.
Variable M : list (list float).
Hypothesis Hlen : length M = size s.
Hypothesis HM : Forall (fun m => length m = 9%nat) M.

Variable i : nat.
Variable e0 e1 e2 e3 : ndarray float -> result (ndarray float).
Variable E0 E1 E2 E3 : list float -> float.

(** The right-hand sides work matrix by matrix. *)
Hypothesis He0 : forall s' L,
  length L = size s' -> Forall (fun m => length m = 9%nat) L ->
  e0 (mk_ndarray (s' ++ [3; 3])%nat (concat L))
  = Ok (mk_ndarray s' (map E0 L)).
Hypothesis He1 : forall s' L,
  length L = size s' -> Forall (fun m => length m = 9%nat) L ->
  e1 (mk_ndarray (s' ++ [3; 3])%nat (concat L))
  = Ok (mk_ndarray s' (map E1 L)).
Hypothesis He2 : forall s' L,
  length L = size s' -> Forall (fun m => length m = 9%nat) L ->
  e2 (mk_ndarray (s' ++ [3; 3])%nat (concat L))
  = Ok (mk_ndarray s' (map E2 L)).
Hypothesis He3 : forall s' L,
  length L = size s' -> Forall (fun m => length m = 9%nat) L ->
  e3 (mk_ndarray (s' ++ [3; 3])%nat (concat L))
  = Ok (mk_ndarray s' (map E3 L)).

Let ind (m : list float) : nat := argmax (diagonal_trace m).
Let mask : list bool := map (fun k => (k =? i)%nat) (map ind M).

Lemma nth_mask (p : nat) :
  (p < length M)%nat -> nth p mask false = (ind (nth p M []) =? i)%nat.
Proof.
  intros Hp. unfold mask.
  rewrite (nth_map_in _ _ p false 0%nat) by (now rewrite length_map).
  now rewrite (nth_map_in _ _ p 0%nat []) by assumption.
Qed.

Lemma markley_case_ok (old : list float) :
  length old = (size s * 4)%nat ->
  markley_case (mk_ndarray s (map ind M))
    (mk_ndarray (s ++ [3; 3])%nat (concat M)) i e0 e1 e2 e3
    (mk_ndarray (s ++ [4%nat]) old)
  = Ok (mk_ndarray (s ++ [4%nat]) (case_data i E0 E1 E2 E3 M old)).
Proof.
  intros Hold. unfold markley_case, np_map. cbn [shape data]. fold mask.
  destruct (np_any mask) eqn:Hany.
  - destruct s as [|d s'] eqn:Es.
    + rewrite list_eqb_refl.
      destruct M as [|m [|m' M']] eqn:EM; try discriminate Hlen.
      assert (Hi : (ind m =? i)%nat = true).
      { unfold np_any, mask in Hany. cbn in Hany.
        now rewrite orb_false_r in Hany. }
      pose proof (He0 [] [m] eq_refl HM) as H0.
      pose proof (He1 [] [m] eq_refl HM) as H1.
      pose proof (He2 [] [m] eq_refl HM) as H2.
      pose proof (He3 [] [m] eq_refl HM) as H3.
      cbn [app] in H0, H1, H2, H3.
      unfold getitem_matrices, ndim.
      cbn [shape app length Nat.ltb Nat.leb bind].
      rewrite H0, H1, H2, H3. cbn [bind setitem_component].
      change [4%nat] with ([] ++ [4%nat]).
      rewrite (setitem_last_scatter [0%nat] [] [4%nat])
        by (repeat constructor; lia). cbn [bind].
      rewrite (setitem_last_scatter [1%nat] [] [4%nat])
        by (repeat constructor; lia). cbn [bind].
      rewrite (setitem_last_scatter [2%nat] [] [4%nat])
        by (repeat constructor; lia). cbn [bind].
      rewrite (setitem_last_scatter [3%nat] [] [4%nat])
        by (repeat constructor; lia).
      do 2 f_equal. cbn [data].
      change (size [4%nat]) with 4%nat.
      change (ravel [0%nat] [4%nat]) with 0%nat.
      change (ravel [1%nat] [4%nat]) with 1%nat.
      change (ravel [2%nat] [4%nat]) with 2%nat.
      change (ravel [3%nat] [4%nat]) with 3%nat.
      rewrite (scatter_four [] [m]) by (rewrite Hold; reflexivity).
      cbn [flat_map app]. unfold case_data.
      change (size [] * 4)%nat with 4%nat in Hold.
      rewrite Hold. apply (list_eq_nth 0); [reflexivity|].
      intros t Ht. cbn [length] in Ht.
      rewrite nth_tabulate by assumption. cbv zeta.
      rewrite Nat.div_small, Nat.mod_small by assumption.
      cbn [nth]. fold (ind m). now rewrite Hi.
    + rewrite list_eqb_false by discriminate.
      rewrite <- Es in *. clear Es.
      rewrite (getitem_matrices_mask s M mask Hlen HM). cbn [bind].
      assert (Hsel : length (boolean_index mask M)
                     = size [length (boolean_index mask M)])
        by (cbn; lia).
      pose proof (Forall_boolean_index _ mask M HM) as HF.
      assert (Hmask : length mask = size s)
        by (unfold mask; now rewrite !length_map).
      rewrite (He0 _ _ Hsel HF). cbn [bind].
      rewrite (setitem_component_mask s M mask 0 E0)
        by (try assumption; lia). cbn [bind].
      rewrite (He1 _ _ Hsel HF). cbn [bind].
      rewrite (setitem_component_mask s M mask 1 E1)
        by (rewrite ?length_mask_scatter; try assumption; lia). cbn [bind].
      rewrite (He2 _ _ Hsel HF). cbn [bind].
      rewrite (setitem_component_mask s M mask 2 E2)
        by (rewrite ?length_mask_scatter; try assumption; lia). cbn [bind].
      rewrite (He3 _ _ Hsel HF). cbn [bind].
      rewrite (setitem_component_mask s M mask 3 E3)
        by (rewrite ?length_mask_scatter; try assumption; lia).
      do 2 f_equal. apply (list_eq_nth 0).
      * rewrite !length_mask_scatter. unfold case_data.
        now rewrite length_tabulate.
      * intros t Ht. rewrite !length_mask_scatter in Ht.
        repeat (rewrite nth_mask_scatter
                  by (rewrite ?length_mask_scatter; exact Ht)).
        unfold case_data. rewrite nth_tabulate by assumption. cbv zeta.
        assert (Hq : (t / 4 < length M)%nat)
          by (apply Nat.Div0.div_lt_upper_bound; lia).
        rewrite (nth_mask _ Hq). fold (ind (nth (t / 4) M [])).
        rewrite !(nth_map_in _ M (t / 4) 0 [] Hq).
        destruct (ind (nth (t / 4) M []) =? i)%nat; [|reflexivity].
        cbn [andb].
        pose proof (Nat.mod_upper_bound t 4 ltac:(lia)) as Hm.
        destruct (t mod 4)%nat as [|[|[|[|c]]]]; try reflexivity. lia.
  - do 2 f_equal. unfold case_data. symmetry.
    transitivity (tabulate (length old) (fun t => nth t old 0));
      [|apply tabulate_nth].
    apply tabulate_ext. intros t Ht. cbv zeta.
    assert (Hq : (t / 4 < length M)%nat)
      by (apply Nat.Div0.div_lt_upper_bound; lia).
    fold (ind (nth (t / 4) M [])). rewrite <- (nth_mask _ Hq).
    assert (Hf : nth (t / 4) mask false = false); [|now rewrite Hf].
    apply not_true_is_false. intros Ht'.
    assert (Hin : In true mask).
    { rewrite <- Ht'. apply nth_In. unfold mask.
      now rewrite !length_map. }
    unfold np_any in Hany.
    assert (existsb id mask = true); [|congruence].
    apply existsb_exists. exists true. auto.
Qed.

End MarkleyCase.

(** ** Lemmas: the greatest candidate and the norm of every row *)

Lemma argmax_from_lt (l : list float) (mp : float) (max_ind i : nat) :
  (max_ind < i)%nat -> (argmax_from mp max_ind i l < i + length l)%nat.
Proof.
  revert mp max_ind i. induction l as [|a l IH]; intros mp max_ind i Hi.
  - cbn. lia.
  - cbn [argmax_from length]. destruct (negb (a <=? mp)).
    + destruct (is_nan a); [lia|].
      specialize (IH a i (S i) ltac:(lia)). lia.
    + specialize (IH mp max_ind (S i) ltac:(lia)). lia.
Qed.

Lemma argmax_lt (l : list float) :
  l <> [] -> (argmax l < length l)%nat.
Proof.
  destruct l as [|a l]; [congruence|]. intros _. cbn [argmax length].
  destruct (is_nan a); [lia|].
  pose proof (argmax_from_lt l a 0 1 ltac:(lia)). lia.
Qed.

Lemma length_markley_components (m : list float) :
  length (markley_components m) = 4%nat.
Proof.
  unfold markley_components.
  now destruct (argmax (diagonal_trace m)) as [|[|[|k]]].
Qed.

Lemma np_argmax_last_rows {U : Type} (d' : U) (s : list nat) (l : list U)
  (g : U -> list float) (n : nat) :
  length l = size s -> (forall u, length (g u) = S n) ->
  np_argmax_last (mk_ndarray (s ++ [S n]) (flat_map g l))
  = Ok (mk_ndarray s (map (fun u => argmax (g u)) l)).
Proof.
  intros Hl Hg. unfold np_argmax_last. cbn [shape data].
  rewrite rev_app_distr. cbn [rev app Nat.eqb]. rewrite rev_involutive.
  do 2 f_equal. rewrite <- Hl, <- (tabulate_map_nth d').
  apply tabulate_ext. intros p Hp.
  now rewrite (block_flat_map g (S n) l p d').
Qed.

Section NormRows.

Variable linalg_norm : list float -> float.

Lemma np_linalg_norm_last_rows {U : Type} (d' : U) (s : list nat)
  (l : list U) (g : U -> list float) (n : nat) :
  length l = size s -> (forall u, length (g u) = n) ->
  np_linalg_norm_last linalg_norm (mk_ndarray (s ++ [n]) (flat_map g l))
  = Ok (mk_ndarray s (map (fun u => linalg_norm (g u)) l)).
Proof.
  intros Hl Hg. unfold np_linalg_norm_last. cbn [shape data].
  rewrite rev_app_distr. cbn [rev app]. rewrite rev_involutive.
  do 2 f_equal. rewrite <- Hl, <- (tabulate_map_nth d').
  apply tabulate_ext. intros p Hp.
  now rewrite (block_flat_map g n l p d').
Qed.

End NormRows.

(** ** Lemmas: broadcasting along a last axis of length one *)

Lemma unravel_snoc (s : list nat) (n t : nat) :
  (t < size s * n)%nat ->
  unravel t (s ++ [n]) = unravel (t / n) s ++ [(t mod n)%nat].
Proof.
  revert t. induction s as [|d s IH]; intros t Ht.
  - cbn [app unravel]. change (size []) with 1%nat in *.
    rewrite Nat.div_1_r, Nat.mod_small by lia. reflexivity.
  - change (size (d :: s)) with (d * size s)%nat in Ht.
    cbn [app unravel]. rewrite size_app.
    change (size [n]) with (n * 1)%nat. rewrite Nat.mul_1_r.
    assert (Hn : n <> 0%nat) by (intros E; rewrite E in Ht; lia).
    assert (Hs : size s <> 0%nat) by (intros E; rewrite E in Ht; lia).
    rewrite IH by (apply Nat.mod_upper_bound; lia).
    rewrite (Nat.mul_comm (size s) n).
    rewrite <- Nat.Div0.div_div.
    rewrite Nat.Div0.mod_mul_r.
    rewrite (Nat.mul_comm n ((t / n) mod size s)).
    rewrite Nat.div_add by assumption.
    rewrite (Nat.div_small (t mod n) n) by (apply Nat.mod_upper_bound; lia).
    rewrite Nat.Div0.mod_add, Nat.Div0.mod_mod. reflexivity.
Qed.

Lemma combine_snoc {A B : Type} (l : list A) (l' : list B) (a : A) (b : B) :
  length l = length l' ->
  combine (l ++ [a]) (l' ++ [b]) = combine l l' ++ [(a, b)].
Proof.
  revert l'. induction l as [|u l IH]; intros [|u' l'] H;
    try discriminate H; [reflexivity|].
  cbn [app combine]. now rewrite IH by (now injection H).
Qed.

Lemma project_snoc_one (idx s : list nat) (k : nat) :
  Forall2 lt idx s -> project (idx ++ [k]) (s ++ [1%nat]) = idx ++ [0%nat].
Proof.
  intros H. pose proof (project_same idx s H) as Hp.
  unfold project in *. rewrite !length_app. cbn [length].
  rewrite (Forall2_length H) in *.
  replace (length s + 1 - (length s + 1))%nat with 0%nat by lia.
  rewrite Nat.sub_diag in Hp. cbn [skipn] in *.
  rewrite combine_snoc by apply (Forall2_length H).
  rewrite map_app, Hp. reflexivity.
Qed.

(** An array with a last axis of length one, stretched along it. *)
Lemma broadcast_to_last (s : list nat) (n : nat) (l : list float) :
  length l = size s ->
  broadcast_to 0 (mk_ndarray (s ++ [1%nat]) l) (s ++ [n])
  = mk_ndarray (s ++ [n])
      (tabulate (size s * n) (fun t => nth (t / n) l 0)).
Proof.
  intros Hl. unfold broadcast_to. cbn [shape data]. f_equal.
  rewrite size_app. change (size [n]) with (n * 1)%nat.
  rewrite Nat.mul_1_r. apply tabulate_ext. intros t Ht.
  assert (Hn : n <> 0%nat) by (intros E; rewrite E in Ht; lia).
  assert (Hq : (t / n < size s)%nat)
    by (apply Nat.Div0.div_lt_upper_bound; lia).
  rewrite unravel_snoc by assumption.
  rewrite (project_snoc_one _ _ _ (unravel_bound s _ Hq)).
  rewrite ravel_app by apply unravel_length.
  rewrite ravel_unravel by assumption.
  f_equal. cbn. lia.
Qed.

Lemma broadcast_shapes_last (s : list nat) (n : nat) :
  broadcast_shapes (s ++ [n]) (s ++ [1%nat]) = Some (s ++ [n]).
Proof.
  unfold broadcast_shapes. rewrite !rev_app_distr. cbn [rev app].
  cbn [broadcast_rev]. rewrite broadcast_rev_same.
  destruct (n =? 1)%nat eqn:E; cbn [Nat.eqb option_map rev];
    now rewrite rev_involutive.
Qed.

Lemma nth_map2 {A B C : Type} (f : A -> B -> C) (l : list A) (l' : list B)
  (t : nat) (a : A) (b : B) (c : C) :
  (t < length l)%nat -> (t < length l')%nat ->
  nth t (map2 f l l') c = f (nth t l a) (nth t l' b).
Proof.
  revert l' t. induction l as [|u l IH]; intros [|u' l'] t Hl Hl';
    cbn in Hl, Hl'; try lia.
  destruct t as [|t]; [reflexivity|]. cbn [map2 nth]. apply IH; lia.
Qed.

Lemma length_map2 {A B C : Type} (f : A -> B -> C) (l : list A)
  (l' : list B) :
  length l = length l' -> length (map2 f l l') = length l.
Proof.
  revert l'. induction l as [|u l IH]; intros [|u' l'] H;
    try discriminate H; [reflexivity|].
  cbn [map2 length]. now rewrite IH by (now injection H).
Qed.

(** Every row of an array divided by its own number. *)
Lemma np_itruediv_rows {U : Type} (d' : U) (s : list nat) (l : list U)
  (g : U -> list float) (h : U -> float) (n : nat) :
  length l = size s -> (forall u, length (g u) = n) ->
  np_itruediv (mk_ndarray (s ++ [n]) (flat_map g l))
    (newaxis_last (mk_ndarray s (map h l)))
  = Ok (mk_ndarray (s ++ [n])
          (flat_map (fun u => map (fun c => c / h u) (g u)) l)).
Proof.
  intros Hl Hg. unfold np_itruediv, newaxis_last, np_binop.
  cbn [shape data]. rewrite broadcast_shapes_last.
  assert (Hlen : length (flat_map g l) = (size s * n)%nat)
    by (rewrite (length_flat_map_block g n l Hg); lia).
  assert (Hwf : wf (mk_ndarray (s ++ [n]) (flat_map g l))).
  { unfold wf. cbn [shape data]. rewrite size_app, Hlen.
    change (size [n]) with (n * 1)%nat. lia. }
  pose proof (broadcast_to_same 0 _ Hwf) as Hb. cbn [shape] in Hb.
  rewrite Hb. rewrite broadcast_to_last by (now rewrite length_map).
  cbn [bind shape data]. rewrite list_eqb_refl. do 2 f_equal.
  apply (list_eq_nth 0).
  - rewrite length_map2 by (now rewrite length_tabulate).
    rewrite Hlen. symmetry.
    rewrite (length_flat_map_block _ n l); [lia|].
    intros u. now rewrite length_map.
  - intros t Ht.
    rewrite length_map2 in Ht by (now rewrite length_tabulate).
    rewrite (nth_map2 _ _ _ t 0 0)
      by (rewrite ?length_tabulate; lia).
    rewrite Hlen in Ht.
    rewrite nth_tabulate by assumption.
    assert (Hn : n <> 0%nat) by (intros E; rewrite E in Ht; lia).
    assert (Hq : (t / n < length l)%nat)
      by (apply Nat.Div0.div_lt_upper_bound; lia).
    rewrite (nth_map_in h l (t / n) 0 d' Hq).
    rewrite (nth_flat_map_divmod g n l t d') by (try assumption; lia).
    rewrite (nth_flat_map_divmod _ n l t d')
      by (try lia; intros u; now rewrite length_map).
    rewrite (nth_map_in _ _ _ 0 0)
      by (rewrite Hg; apply Nat.mod_upper_bound; lia).
    reflexivity.
Qed.

(** ** Theorems: [from_rotation_matrix] without the eigenvalue solver *)

(** The four cases leave nothing of the candidates in the array: every
    matrix falls under one of them. *)
Lemma cases_cover (M : list (list float)) (old : list float) :
  length old = (length M * 4)%nat ->
  case_data 3
    (fun m => 1 + entry m 0 0 + entry m 1 1 + entry m 2 2)
    (fun m => entry m 2 1 - entry m 1 2)
    (fun m => entry m 0 2 - entry m 2 0)
    (fun m => entry m 1 0 - entry m 0 1) M
    (case_data 2
       (fun m => entry m 1 0 - entry m 0 1)
       (fun m => entry m 2 0 + entry m 0 2)
       (fun m => entry m 2 1 + entry m 1 2)
       (fun m => 1 - entry m 0 0 - entry m 1 1 + entry m 2 2) M
       (case_data 1
          (fun m => entry m 0 2 - entry m 2 0)
          (fun m => entry m 1 0 + entry m 0 1)
          (fun m => 1 - entry m 0 0 + entry m 1 1 - entry m 2 2)
          (fun m => entry m 1 2 + entry m 2 1) M
          (case_data 0
             (fun m => entry m 2 1 - entry m 1 2)
             (fun m => 1 + entry m 0 0 - entry m 1 1 - entry m 2 2)
             (fun m => entry m 0 1 + entry m 1 0)
             (fun m => entry m 0 2 + entry m 2 0) M old)))
  = flat_map markley_components M.
Proof.
  intros Hold. apply (list_eq_nth 0).
  - unfold case_data. rewrite !length_tabulate, Hold. symmetry.
    apply length_flat_map_block. apply length_markley_components.
  - intros t Ht. unfold case_data in *. rewrite !length_tabulate in *.
    rewrite !nth_tabulate by assumption. cbv zeta.
    rewrite Hold in Ht.
    rewrite (nth_flat_map_divmod _ 4 M t [])
      by (try assumption; apply length_markley_components).
    unfold markley_components.
    assert (Hlt : (argmax (diagonal_trace (nth (t / 4) M [])) < 4)%nat)
      by (apply (argmax_lt (diagonal_trace (nth (t / 4) M [])));
          discriminate).
    destruct (argmax (diagonal_trace (nth (t / 4) M []))) as [|[|[|[|k]]]];
      try reflexivity.
    lia.
Qed.

Lemma group4_rows {U : Type} (l : list U) (g : U -> list float) :
  (forall u, length (g u) = 4%nat) ->
  group4 (flat_map g l)
  = map (fun u => mk_quaternion (nth 0 (g u) 0) (nth 1 (g u) 0)
                    (nth 2 (g u) 0) (nth 3 (g u) 0)) l.
Proof.
  intros Hg. induction l as [|u l IH]; [reflexivity|].
  cbn [flat_map map]. specialize (Hg u).
  destruct (g u) as [|a0 [|a1 [|a2 [|a3 [|a4 r]]]]]; try discriminate Hg.
  cbn [app group4 nth]. now rewrite IH.
Qed.

Ltac formula :=
  let s' := fresh "s" in
  let L := fresh "L" in
  let HL := fresh "HL" in
  let HF := fresh "HF" in
  intros s' L HL HF; cbv beta zeta;
  rewrite !(getitem_last2_concat s' L) by (assumption || lia);
  repeat first [ rewrite np_lift_map
               | rewrite np_add_map by assumption
               | rewrite np_sub_map by assumption ];
  reflexivity.

(** X17: without [scipy.linalg], or with [nonorthogonal] false,
    [from_rotation_matrix] succeeds on every well-formed array of 3x3
    matrices and gives each matrix, independently of the others, the
    quaternion of the case that the greatest of its candidates
    [(m00, m11, m22, trace)] selects, divided by its norm; one matrix of
    shape [(3, 3)] gives a scalar quaternion, a batch an array of the
    leading shape. *)
Theorem from_rotation_matrix_direct (junk : nat -> float)
  (linalg_norm : list float -> float)
  (bar_itzhack : ndarray float -> result qvalue)
  (linalg nonorthogonal : bool) (rot : ndarray float) (s : list nat) :
  linalg && nonorthogonal = false ->
  wf rot -> shape rot = (s ++ [3; 3])%nat ->
  from_rotation_matrix junk linalg_norm bar_itzhack linalg rot nonorthogonal
  = Ok (let qs := map (markley linalg_norm)
                    (tabulate (size s) (fun p => block 9 p (data rot))) in
        match s with
        | [] => QScalar (hd zero qs)
        | _ => QArray (mk_ndarray s qs)
        end).
Proof.
  intros Hpath Hwf Hs. destruct rot as [sr dr]. cbn [shape data] in *.
  subst sr. unfold wf in Hwf. cbn [shape data] in Hwf.
  rewrite size_app in Hwf. change (size [3; 3]%nat) with 9%nat in Hwf.
  set (M := tabulate (size s) (fun p => block 9 p dr)).
  assert (Hlen : length M = size s) by apply length_tabulate.
  assert (HM : Forall (fun m : list float => length m = 9%nat) M)
    by (apply Forall_blocks; assumption).
  rewrite <- (concat_blocks 9 (size s) dr Hwf). fold M. cbv zeta.
  unfold from_rotation_matrix. rewrite Hpath. cbv zeta.
  unfold ndim. cbn [shape]. rewrite length_app. cbn [length].
  replace (length s + 2 - 2)%nat with (length s) by lia.
  rewrite firstn_length_app.
  rewrite !(getitem_last2_concat s M) by (assumption || lia).
  rewrite !np_add_map by assumption.
  unfold np_empty. cbn [bind].
  rewrite (setitem_last_scatter [0%nat] s [4%nat])
    by (repeat constructor; unfold wf; cbn [shape data];
        rewrite ?length_map; lia). cbn [bind].
  rewrite (setitem_last_scatter [1%nat] s [4%nat])
    by (repeat constructor; unfold wf; cbn [shape data];
        rewrite ?length_map; lia). cbn [bind].
  rewrite (setitem_last_scatter [2%nat] s [4%nat])
    by (repeat constructor; unfold wf; cbn [shape data];
        rewrite ?length_map; lia). cbn [bind].
  rewrite (setitem_last_scatter [3%nat] s [4%nat])
    by (repeat constructor; unfold wf; cbn [shape data];
        rewrite ?length_map; lia). cbn [bind data].
  change (size [4%nat]) with 4%nat.
  change (ravel [0%nat] [4%nat]) with 0%nat.
  change (ravel [1%nat] [4%nat]) with 1%nat.
  change (ravel [2%nat] [4%nat]) with 2%nat.
  change (ravel [3%nat] [4%nat]) with 3%nat.
  rewrite (scatter_four [] M)
    by (rewrite length_tabulate, size_app, Hlen; reflexivity).
  change (fun u : list float =>
            [entry u 0 0; entry u 1 1; entry u 2 2;
             entry u 0 0 + entry u 1 1 + entry u 2 2])
    with diagonal_trace.
  rewrite (np_argmax_last_rows [] s M diagonal_trace 3)
    by (assumption || reflexivity).
  cbn [bind].
  assert (Hd : length (flat_map diagonal_trace M) = (size s * 4)%nat)
    by (rewrite (length_flat_map_block diagonal_trace 4);
        [lia|reflexivity]).
  rewrite (markley_case_ok s M Hlen HM 0 _ _ _ _
             (fun m => entry m 2 1 - entry m 1 2)
             (fun m => 1 + entry m 0 0 - entry m 1 1 - entry m 2 2)
             (fun m => entry m 0 1 + entry m 1 0)
             (fun m => entry m 0 2 + entry m 2 0))
    by (assumption || formula).
  cbn [bind].
  rewrite (markley_case_ok s M Hlen HM 1 _ _ _ _
             (fun m => entry m 0 2 - entry m 2 0)
             (fun m => entry m 1 0 + entry m 0 1)
             (fun m => 1 - entry m 0 0 + entry m 1 1 - entry m 2 2)
             (fun m => entry m 1 2 + entry m 2 1))
    by (formula || (unfold case_data; now rewrite !length_tabulate)).
  cbn [bind].
  rewrite (markley_case_ok s M Hlen HM 2 _ _ _ _
             (fun m => entry m 1 0 - entry m 0 1)
             (fun m => entry m 2 0 + entry m 0 2)
             (fun m => entry m 2 1 + entry m 1 2)
             (fun m => 1 - entry m 0 0 - entry m 1 1 + entry m 2 2))
    by (formula || (unfold case_data; now rewrite !length_tabulate)).
  cbn [bind].
  rewrite (markley_case_ok s M Hlen HM 3 _ _ _ _
             (fun m => 1 + entry m 0 0 + entry m 1 1 + entry m 2 2)
             (fun m => entry m 2 1 - entry m 1 2)
             (fun m => entry m 0 2 - entry m 2 0)
             (fun m => entry m 1 0 - entry m 0 1))
    by (formula || (unfold case_data; now rewrite !length_tabulate)).
  cbn [bind].
  rewrite cases_cover by (rewrite Hd; lia).
  rewrite (np_linalg_norm_last_rows linalg_norm [] s M markley_components 4)
    by (assumption || apply length_markley_components).
  cbn [bind].
  rewrite (np_itruediv_rows [] s M markley_components _ 4)
    by (assumption || apply length_markley_components).
  cbn [bind].
  rewrite (as_quat_array_unfold _ s 4).
  - unfold as_quat_array_outcome. cbn [Nat.modulo Nat.eqb negb data].
    change (4 mod 4 =? 0)%nat with true. cbn [negb].
    rewrite group4_rows
      by (intros u; rewrite length_map; apply length_markley_components).
    assert (Hq : map (fun u =>
                        mk_quaternion
                          (nth 0 (map (fun c => c / linalg_norm
                                                      (markley_components u))
                                    (markley_components u)) 0)
                          (nth 1 (map (fun c => c / linalg_norm
                                                      (markley_components u))
                                    (markley_components u)) 0)
                          (nth 2 (map (fun c => c / linalg_norm
                                                      (markley_components u))
                                    (markley_components u)) 0)
                          (nth 3 (map (fun c => c / linalg_norm
                                                      (markley_components u))
                                    (markley_components u)) 0)) M
                 = map (markley linalg_norm) M).
    { apply map_ext. intros u. unfold markley. cbv zeta.
      pose proof (length_markley_components u) as Hu.
      now rewrite !(nth_map_in _ _ _ 0 0) by lia. }
    rewrite Hq. now destruct s.
  - unfold wf. cbn [shape data].
    rewrite (length_flat_map_block _ 4 M), size_app, Hlen;
      [reflexivity|].
    intros u. rewrite length_map. apply length_markley_components.
  - unfold ascontiguousarray. rewrite atleast_1d_id; [reflexivity|].
    cbn [shape]. now destruct s.
Qed.

Lemma from_rotation_matrix_direct_witness :
  from_rotation_matrix (fun _ => 7)
    (fun l => sqrt (fold_right (fun t acc => t * t + acc) 0 l))
    (fun _ => Raise ValueError) true
    (mk_ndarray [2; 3; 3]%nat
       [1; 0; 0; 0; 1; 0; 0; 0; 1; -1; 0; 0; 0; -1; 0; 0; 0; 1])
    false
  = Ok (QArray (mk_ndarray [2%nat]
                  [mk_quaternion 1 0 0 0; mk_quaternion 0 0 0 1])).
Proof.
  apply (from_rotation_matrix_direct (fun _ => 7)
           (fun l => sqrt (fold_right (fun t acc => t * t + acc) 0 l))
           (fun _ => Raise ValueError) true false
           (mk_ndarray [2; 3; 3]%nat
              [1; 0; 0; 0; 1; 0; 0; 0; 1; -1; 0; 0; 0; -1; 0; 0; 0; 1])
           [2%nat]); reflexivity.
Defined.

Lemma getitem_last2_diagonal (k : nat) (s : list nat) (n1 n2 : nat)
  (l : list float) :
  getitem_last2 0 k k (mk_ndarray (s ++ [n1; n2]) l)
  = if (k <? n1)%nat && (k <? n2)%nat
    then Ok (mk_ndarray s
               (tabulate (size s)
                  (fun p => nth (p * (n1 * n2) + (k * n2 + k))%nat l 0)))
    else Raise IndexError.
Proof.
  unfold getitem_last2. cbn [shape data].
  rewrite rev_app_distr. cbn [rev app]. now rewrite rev_involutive.
Qed.

(** X18: without the eigenvalue solver, an input with fewer than two
    dimensions, or with one of its last two axes shorter than three, is
    refused with [IndexError]. *)
Theorem from_rotation_matrix_index_error (junk : nat -> float)
  (linalg_norm : list float -> float)
  (bar_itzhack : ndarray float -> result qvalue)
  (linalg nonorthogonal : bool) (rot : ndarray float) :
  linalg && nonorthogonal = false ->
  (ndim rot < 2)%nat
  \/ (exists s n1 n2,
        shape rot = s ++ [n1; n2] /\ ((n1 < 3)%nat \/ (n2 < 3)%nat)) ->
  from_rotation_matrix junk linalg_norm bar_itzhack linalg rot nonorthogonal
  = Raise IndexError.
Proof.
  intros Hpath H. unfold from_rotation_matrix. rewrite Hpath. cbv zeta.
  destruct rot as [sr dr]. unfold ndim in *. cbn [shape data] in *.
  destruct H as [H|(s & n1 & n2 & -> & H)].
  - unfold getitem_last2. cbn [shape].
    destruct sr as [|d [|d' sr]]; [reflexivity|reflexivity|].
    cbn in H. lia.
  - rewrite !getitem_last2_diagonal.
    rewrite length_app. cbn [length].
    replace (length s + 2 - 2)%nat with (length s) by lia.
    rewrite firstn_length_app. unfold np_empty.
    destruct ((0 <? n1)%nat && (0 <? n2)%nat) eqn:E0; [|reflexivity].
    cbn [bind].
    rewrite (setitem_last_scatter [0%nat] s [4%nat])
      by (repeat constructor; unfold wf; cbn [shape data];
          rewrite ?length_tabulate; lia).
    cbn [bind].
    destruct ((1 <? n1)%nat && (1 <? n2)%nat) eqn:E1; [|reflexivity].
    cbn [bind].
    rewrite (setitem_last_scatter [1%nat] s [4%nat])
      by (repeat constructor; unfold wf; cbn [shape data];
          rewrite ?length_tabulate; lia).
    cbn [bind].
    destruct ((2 <? n1)%nat && (2 <? n2)%nat) eqn:E2; [|reflexivity].
    apply andb_true_iff in E2 as [E2 E2']. apply Nat.ltb_lt in E2, E2'.
    lia.
Qed.

Lemma from_rotation_matrix_index_error_witness :
  from_rotation_matrix (fun _ => 7) (fun _ => 1)
    (fun _ => Raise ValueError) false
    (mk_ndarray [2; 2]%nat [1; 0; 0; 1]) true
  = Raise IndexError.
Proof.
  apply (from_rotation_matrix_index_error (fun _ => 7) (fun _ => 1)
           (fun _ => Raise ValueError) false true
           (mk_ndarray [2; 2]%nat [1; 0; 0; 1])).
  - reflexivity.
  - right. exists [], 2%nat, 2%nat. split; [reflexivity|left; lia].
Defined.
